(** * The point-source panner of the EBU ADM renderer

    A shallow embedding of [ear/core/point_source.py]: the region handlers
    ([Triplet], [VirtualNgon], [QuadRegion], [StereoPanDownmix]), the two
    panner wrappers ([PointSourcePanner], [PointSourcePannerDownmix]) and the
    configuration functions ([extra_pos_vertical_nominal],
    [_convex_hull_facets], [_adjacent_verts], [_configure_full],
    [_configure_stereo], [configure]).

    Numbers.  NumPy doubles are modelled by the real numbers of the Standard
    Library: every operation is exact, rounding is not modelled.  The one
    behaviour of IEEE arithmetic that changes what a call returns is kept:
    dividing by a zero norm does not raise in NumPy, it fills the array with
    non-finite entries.  That is the outcome [NonFinite] below.

    Collaborators that are not part of the file ([numpy.roots],
    [scipy.spatial.ConvexHull], [geom.ngon_vertex_order], the [Layout] class
    and the BS.2051 tables) are parameters of the definitions that call
    them. *)

From Stdlib Require Import Reals Lra Lia List String.
From stdpp Require Import base list gmap strings sorting.
Import ListNotations.
Local Open Scope R_scope.

(** ** Outcomes of a Python call *)

Inductive exn : Type :=
  | TypeError | ValueError | IndexError | LinAlgError | AssertionError
  | QhullError | RecursionError.

(** [Ret a]: the call returns [a].  [NonFinite]: the call returns normally,
    but a division by zero happened on the way, so the array it returns
    holds nan or inf; its entries are not tracked any further.  [Raise e]:
    the exception [e] propagates to the caller. *)
Inductive outcome (A : Type) : Type :=
  | Ret (a : A)
  | NonFinite
  | Raise (e : exn).
Arguments Ret {A} a.
Arguments NonFinite {A}.
Arguments Raise {A} e.

Definition outcome_bind {A B} (f : A → outcome B) (m : outcome A) : outcome B :=
  match m with
  | Ret a => f a
  | NonFinite => NonFinite
  | Raise e => Raise e
  end.

#[global] Instance outcome_mret : MRet outcome := @Ret.
#[global] Instance outcome_mbind : MBind outcome := @outcome_bind.
#[global] Instance outcome_fmap : FMap outcome :=
  λ A B f m, outcome_bind (λ a, Ret (f a)) m.


(** ** Decidable comparisons on doubles *)

#[global] Instance Req_decision : RelDecision (@eq R) := Req_dec_T.
#[global] Instance Rle_decision : RelDecision Rle := Rle_dec.
#[global] Instance Rlt_decision : RelDecision Rlt := Rlt_dec.
#[global] Instance Rge_decision : RelDecision Rge := Rge_dec.
#[global] Instance Rgt_decision : RelDecision Rgt := Rgt_dec.

(** ** Arrays of doubles *)

Record vec3 : Type := V3 { vx : R; vy : R; vz : R }.

Definition vadd (a b : vec3) : vec3 := V3 (vx a + vx b) (vy a + vy b) (vz a + vz b).
Definition vsub (a b : vec3) : vec3 := V3 (vx a - vx b) (vy a - vy b) (vz a - vz b).
Definition vscale (s : R) (a : vec3) : vec3 := V3 (s * vx a) (s * vy a) (s * vz a).
Definition dot3 (a b : vec3) : R := vx a * vx b + vy a * vy b + vz a * vz b.
Definition vzero : vec3 := V3 0 0 0.

(** [np.cross] *)
Definition cross (a b : vec3) : vec3 :=
  V3 (vy a * vz b - vz a * vy b)
     (vz a * vx b - vx a * vz b)
     (vx a * vy b - vy a * vx b).

Definition vec3_list (a : vec3) : list R := [vx a; vy a; vz a].

(** A 3x3 array, by rows. *)
Record mat33 : Type := M33 { row0 : vec3; row1 : vec3; row2 : vec3 }.

(** [np.dot(v, m)] for a 3-vector and a 3x3 array *)
Definition vecmat (v : vec3) (m : mat33) : vec3 :=
  vadd (vscale (vx v) (row0 m)) (vadd (vscale (vy v) (row1 m)) (vscale (vz v) (row2 m))).

Definition det33 (m : mat33) : R := dot3 (row0 m) (cross (row1 m) (row2 m)).

(** The inverse by cofactors: its columns are the cross products of the rows
    of [m], over the determinant. *)
Definition inv33 (m : mat33) : mat33 :=
  let u := cross (row1 m) (row2 m) in
  let v := cross (row2 m) (row0 m) in
  let w := cross (row0 m) (row1 m) in
  let d := det33 m in
  M33 (V3 (vx u / d) (vx v / d) (vx w / d))
      (V3 (vy u / d) (vy v / d) (vy w / d))
      (V3 (vz u / d) (vz v / d) (vz w / d)).

(** [np.linalg.inv]: raises [LinAlgError] on a singular matrix. *)
Definition linalg_inv (m : mat33) : outcome mat33 :=
  if decide (det33 m = 0) then Raise LinAlgError else Ret (inv33 m).

Definition sum_sq (v : list R) : R := foldr (λ x acc, x * x + acc) 0 v.

(** [np.linalg.norm] of a 1-d array *)
Definition norm (v : list R) : R := sqrt (sum_sq v).

(** [v /= s] *)
Definition div_by (s : R) (v : list R) : outcome (list R) :=
  if decide (s = 0) then NonFinite else Ret (map (λ x, x / s) v).

(** [v /= np.linalg.norm(v)] *)
Definition div_norm (v : list R) : outcome (list R) := div_by (norm v) v.

(** [np.clip(x, lo, hi)] *)
Definition clip (lo hi x : R) : R := Rmin (Rmax x lo) hi.

(** [np.dot] of two 1-d arrays of the same length *)
Definition dot (a b : list R) : R := foldr Rplus 0 (zip_with Rmult a b).

(** [np.zeros(n)] *)
Definition zeros (n : nat) : list R := replicate n 0.

(** [a[i]]: an index past the end raises [IndexError]. *)
Definition getitem {A} (a : list A) (i : nat) : outcome A :=
  match a !! i with
  | Some x => Ret x
  | None => Raise IndexError
  end.

(** [a[idx]] for an index array *)
Definition take_items {A} (a : list A) (idx : list nat) : outcome (list A) :=
  mapM (getitem a) idx.

(** One assignment [out[i] = x]. *)
Definition setitem (out : list R) (i : nat) (x : R) : outcome (list R) :=
  if decide (i < length out)%nat then Ret (<[i := x]> out) else Raise IndexError.

(** [out[idx] = vals] pairwise and in order, so that the last assignment to a
    repeated index wins. *)
Fixpoint setitems_zip (out : list R) (idx : list nat) (vals : list R)
  : outcome (list R) :=
  match idx, vals with
  | i :: idx', x :: vals' => out' ← setitem out i x; setitems_zip out' idx' vals'
  | _, _ => Ret out
  end.

(** [out[idx] = vals] for an index array [idx]: the values must have the
    length of [idx], or length one (broadcast); anything else is a
    [ValueError]. *)
Definition setitems (out : list R) (idx : list nat) (vals : list R)
  : outcome (list R) :=
  if decide (length vals = length idx) then setitems_zip out idx vals
  else match vals with
       | [x] => setitems_zip out idx (replicate (length idx) x)
       | _ => Raise ValueError
       end.

(** [np.dot(m, v)] for a 2-d array [m] given by rows: every row must have
    the length of [v]. *)
Definition matvec (m : list (list R)) (v : list R) : outcome (list R) :=
  if decide (Forall (λ row, length row = length v) m)
  then Ret (map (λ row, dot row v) m)
  else Raise ValueError.

(** [np.max] of a non-empty array *)
Definition list_max_R (x : R) (xs : list R) : R := foldl Rmax x xs.

(** ** The RegionHandler interface *)

Class RegionHandler (A : Type) : Type := {
  handle : A → vec3 → outcome (option (list R));
  output_channels : A → list nat
}.

(** [RegionHandler.handle_remap] *)
Definition handle_remap {A} `{RegionHandler A} (self : A) (position : vec3)
    (nchannels : nat) : outcome (option (list R)) :=
  pv ← handle self position;
  match pv with
  | Some pv =>
      out ← setitems (zeros nchannels) (output_channels self) pv;
      Ret (Some out)
  | None => Ret None
  end.

(** ** Triplet *)

Record Triplet : Type := {
  tri_output_channels : list nat;
  tri_positions : mat33;
  tri_basis : mat33
}.

(** The attrs constructor with its validators ([has_shape(3)],
    [has_shape(3, 3)]) followed by [__attrs_post_init__]. *)
Definition Triplet_init (output_channels : list nat) (positions : list vec3)
  : outcome Triplet :=
  match output_channels, positions with
  | [_; _; _], [a; b; c] =>
      basis ← linalg_inv (M33 a b c);
      Ret {| tri_output_channels := output_channels;
             tri_positions := M33 a b c;
             tri_basis := basis |}
  | _, _ => Raise ValueError
  end.

Definition triplet_epsilon : R := -1e-11.

Definition Triplet_handle (self : Triplet) (position : vec3)
  : outcome (option (list R)) :=
  let pv := vecmat position (tri_basis self) in
  let epsilon := triplet_epsilon in
  if bool_decide (vx pv >= epsilon) && bool_decide (vy pv >= epsilon)
     && bool_decide (vz pv >= epsilon)
  then
    pv ← div_norm (vec3_list pv);
    Ret (Some (map (clip 0 1) pv))
  else Ret None.

#[global] Instance Triplet_RegionHandler : RegionHandler Triplet :=
  {| handle := Triplet_handle; output_channels := tri_output_channels |}.

(** ** VirtualNgon *)

Record VirtualNgon : Type := {
  vn_output_channels : list nat;
  vn_positions : list vec3;
  vn_centre_position : vec3;
  vn_centre_downmix : list R;
  vn_regions : list Triplet
}.

(** The body of the loop of [VirtualNgon.__attrs_post_init__] for one [i]. *)
Definition VirtualNgon_region (order : list nat) (positions : list vec3)
    (centre_position : vec3) (n i : nat) : outcome Triplet :=
  let j := ((i + 1) mod n)%nat in
  oi ← getitem order i;
  oj ← getitem order j;
  p_i ← getitem positions oi;
  p_j ← getitem positions oj;
  Triplet_init [oi; oj; n] [p_i; p_j; centre_position].

(** [pv[:-1] += pv[-1] * centre_downmix; pv = pv[:-1]] *)
Definition fold_centre (centre_downmix : list R) (pv : list R) : list R :=
  zip_with Rplus (take (length pv - 1) pv)
           (map (Rmult (default 0 (last pv))) centre_downmix).

Fixpoint VirtualNgon_handle_loop (regions : list Triplet)
    (centre_downmix : list R) (position : vec3) : outcome (option (list R)) :=
  match regions with
  | [] => Ret None
  | region :: regions' =>
      pv ← handle_remap region position (length centre_downmix + 1);
      match pv with
      | Some pv =>
          pv ← div_norm (fold_centre centre_downmix pv);
          Ret (Some pv)
      | None => VirtualNgon_handle_loop regions' centre_downmix position
      end
  end.

Definition VirtualNgon_handle (self : VirtualNgon) (position : vec3)
  : outcome (option (list R)) :=
  VirtualNgon_handle_loop (vn_regions self) (vn_centre_downmix self) position.

#[global] Instance VirtualNgon_RegionHandler : RegionHandler VirtualNgon :=
  {| handle := VirtualNgon_handle; output_channels := vn_output_channels |}.

(** ** QuadRegion *)

(** A complex double, as [np.roots] returns them. *)
Record complex : Type := Cplx { re : R; im : R }.

Record QuadRegion : Type := {
  quad_output_channels : list nat;
  quad_positions : list vec3;
  quad_order : list nat;
  quad_pan_x : vec3 → option R;
  quad_pan_y : vec3 → option R
}.

Definition quad_epsillon : R := 1e-10.

(** The [for root in roots] loop of the closure returned by [pan_axis]. *)
Fixpoint pan_axis_loop (roots : list complex) : option R :=
  match roots with
  | [] => None
  | root :: roots' =>
      if bool_decide (Rabs (im root) < quad_epsillon)
         && (bool_decide (- quad_epsillon < re root)
             && bool_decide (re root < 1 + quad_epsillon))
      then Some (clip 0 1 (re root))
      else pan_axis_loop roots'
  end.

(** The three rows of [poly] in [pan_axis]: the coefficients of t^2, t and 1. *)
Definition pan_axis_poly (a b c d : vec3) : list vec3 :=
  [ cross (vsub b a) (vsub c d);
    vadd (cross a (vsub c d)) (cross (vsub b a) d);
    cross a d ].

(** [np.dot(w, positions)] for weights [w] and an (n,3) array *)
Definition lincomb (w : list R) (positions : list vec3) : vec3 :=
  foldr vadd vzero (zip_with vscale w positions).

Definition QuadRegion_handle (self : QuadRegion) (position : vec3)
  : outcome (option (list R)) :=
  let x := quad_pan_x self position in
  let y := quad_pan_y self position in
  match x, y with
  | Some x, Some y =>
      pvs ← setitems (zeros 4) (quad_order self)
              [ (1 - x) * (1 - y); x * (1 - y); x * y; (1 - x) * y ];
      if bool_decide (dot3 (lincomb pvs (quad_positions self)) position <= 0)
      then Ret None
      else pvs ← div_norm pvs; Ret (Some pvs)
  | _, _ => Ret None
  end.

#[global] Instance QuadRegion_RegionHandler : RegionHandler QuadRegion :=
  {| handle := QuadRegion_handle; output_channels := quad_output_channels |}.

(** ** The regions of a full panner *)

Inductive Region : Type :=
  | RTriplet (t : Triplet)
  | RNgon (v : VirtualNgon)
  | RQuad (q : QuadRegion).

#[global] Instance Region_RegionHandler : RegionHandler Region :=
  {| handle := λ r, match r with
                    | RTriplet t => handle t
                    | RNgon v => handle v
                    | RQuad q => handle q
                    end;
     output_channels := λ r, match r with
                             | RTriplet t => output_channels t
                             | RNgon v => output_channels v
                             | RQuad q => output_channels q
                             end |}.

(** ** PointSourcePanner *)

Record PointSourcePanner (A : Type) : Type := {
  psp_regions : list A;
  psp_num_channels : nat
}.
Arguments psp_regions {A} _.
Arguments psp_num_channels {A} _.

(** [max] and [np.max]: both raise [ValueError] on an empty argument. *)
Definition max_nat (l : list nat) : outcome nat :=
  match l with
  | [] => Raise ValueError
  | x :: xs => Ret (foldl Nat.max x xs)
  end.

Definition _num_required_channels {A} `{RegionHandler A} (regions : list A)
  : outcome nat :=
  ms ← mapM (λ region, max_nat (output_channels region)) regions;
  m ← max_nat ms;
  Ret (m + 1)%nat.

Definition PointSourcePanner_init {A} `{RegionHandler A} (regions : list A)
    (num_channels : option nat) : outcome (PointSourcePanner A) :=
  required ← _num_required_channels regions;
  match num_channels with
  | None => Ret {| psp_regions := regions; psp_num_channels := required |}
  | Some n =>
      if decide (required <= n)%nat
      then Ret {| psp_regions := regions; psp_num_channels := n |}
      else Raise AssertionError
  end.

Fixpoint PointSourcePanner_handle_loop {A} `{RegionHandler A}
    (regions : list A) (num_channels : nat) (position : vec3)
  : outcome (option (list R)) :=
  match regions with
  | [] => Ret None
  | region :: regions' =>
      pv ← handle_remap region position num_channels;
      match pv with
      | Some pv => Ret (Some pv)
      | None => PointSourcePanner_handle_loop regions' num_channels position
      end
  end.

Definition PointSourcePanner_handle {A} `{RegionHandler A}
    (self : PointSourcePanner A) (position : vec3) : outcome (option (list R)) :=
  PointSourcePanner_handle_loop (psp_regions self) (psp_num_channels self) position.

(** ** PointSourcePannerDownmix *)

Record PointSourcePannerDownmix : Type := {
  pspd_psp : PointSourcePanner Region;
  pspd_downmix : list (list R)
}.

(** The property [num_channels]: [downmix.shape[0]]. *)
Definition pspd_num_channels (self : PointSourcePannerDownmix) : nat :=
  length (pspd_downmix self).

Definition PointSourcePannerDownmix_handle (self : PointSourcePannerDownmix)
    (position : vec3) : outcome (option (list R)) :=
  pv ← PointSourcePanner_handle (pspd_psp self) position;
  match pv with
  | Some pv =>
      pv ← matvec (pspd_downmix self) pv;
      pv ← div_norm pv;
      Ret (Some pv)
  | None => Ret None
  end.

(** ** StereoPanDownmix *)

Record StereoPanDownmix : Type := {
  left_channel : nat;
  right_channel : nat;
  stereo_psp : PointSourcePannerDownmix
}.

Definition stereo_downmix : list (list R) :=
  [ [1; 0; sqrt 3 / 3; sqrt 0.5; 0];
    [0; 1; sqrt 3 / 3; 0; sqrt 0.5] ].

(** [np.max(pv[idx])] *)
Definition max_items (pv : list R) (idx : list nat) : outcome R :=
  xs ← take_items pv idx;
  match xs with
  | [] => Raise ValueError
  | x :: xs' => Ret (list_max_R x xs')
  end.

(** The level factor [0.5 ** (0.5 * back / (front + back))]. *)
Definition stereo_level (front back : R) : R :=
  Rpower 0.5 (0.5 * back / (front + back)).

Definition StereoPanDownmix_handle (self : StereoPanDownmix) (position : vec3)
  : outcome (option (list R)) :=
  let downmix := stereo_downmix in
  pv ← PointSourcePannerDownmix_handle (stereo_psp self) position;
  match pv with
  | None => Raise TypeError            (* np.dot(downmix, None) *)
  | Some pv =>
      pv_dmix ← matvec downmix pv;
      pv_dmix ← div_norm pv_dmix;
      front ← max_items pv [0; 1; 2]%nat;
      back ← max_items pv [3; 4]%nat;
      if decide (front + back = 0) then NonFinite
      else Ret (Some (map (Rmult (stereo_level front back)) pv_dmix))
  end.

#[global] Instance StereoPanDownmix_RegionHandler : RegionHandler StereoPanDownmix :=
  {| handle := StereoPanDownmix_handle;
     output_channels := λ self, [left_channel self; right_channel self] |}.

(** ** What [configure] returns *)

Inductive Panner : Type :=
  | FullPanner (p : PointSourcePannerDownmix)
  | StereoPanner (p : PointSourcePanner StereoPanDownmix).

Definition Panner_handle (panner : Panner) (position : vec3)
  : outcome (option (list R)) :=
  match panner with
  | FullPanner p => PointSourcePannerDownmix_handle p position
  | StereoPanner p => PointSourcePanner_handle p position
  end.

Definition Panner_num_channels (panner : Panner) : nat :=
  match panner with
  | FullPanner p => pspd_num_channels p
  | StereoPanner p => psp_num_channels p
  end.

(** ** Layouts *)

Record PolarPosition : Type := {
  azimuth : R;
  elevation : R;
  distance : R
}.

Record Channel : Type := {
  name : string;
  polar_position : PolarPosition;
  polar_nominal_position : PolarPosition;
  is_lfe : bool
}.

Record Layout : Type := {
  layout_name : string;
  channels : list Channel
}.

Definition channel_names (layout : Layout) : list string :=
  map name (channels layout).

(** [list.index]: the first position of [x], or [ValueError]. *)
Definition list_index (x : string) (l : list string) : outcome nat :=
  match list_find (λ y, y = x) l with
  | Some (i, _) => Ret i
  | None => Raise ValueError
  end.

(** ** extra_pos_vertical_nominal *)

(** One record of the array [pos]. *)
Record pos_rec : Type := {
  nominal_az : R;
  nominal_el : R;
  real_az : R;
  real_el : R
}.

Definition channel_pos (channel : Channel) : pos_rec :=
  {| nominal_az := azimuth (polar_nominal_position channel);
     nominal_el := elevation (polar_nominal_position channel);
     real_az := azimuth (polar_position channel);
     real_el := elevation (polar_position channel) |}.

(** The masks [(lb <= pos.nominal_el) & (pos.nominal_el <= ub)]. *)
Definition el_between (lb ub : R) (p : pos_rec) : Prop :=
  lb <= nominal_el p ∧ nominal_el p <= ub.

#[global] Instance el_between_dec lb ub p : Decision (el_between lb ub p).
Proof. unfold el_between. apply _. Defined.

Definition mid_mask : pos_rec → Prop := el_between (-10) 10.

(** [zip(np.where(mask)[0], pos[mask])] *)
Definition where_zip (mask : pos_rec → Prop) `{∀ p, Decision (mask p)}
    (pos : list pos_rec) : list (nat * pos_rec) :=
  filter (λ ip, mask ip.2) (imap pair pos).

(** [np.mean] *)
Definition mean (xs : list R) : R := foldr Rplus 0 xs / INR (length xs).

(** The two layers, as (layer_nominal_el, layer_lb, layer_ub). *)
Definition layers : list (R * R * R) := [ (-30, -70, -10); (30, 10, 70) ].

(** The [if np.any(layer)] statement: (az_limit, layer_real_el). *)
Definition layer_limits (layer_nominal_el layer_lb layer_ub : R)
    (pos : list pos_rec) : R * R :=
  match filter (el_between layer_lb layer_ub) pos with
  | [] => (0, layer_nominal_el)
  | p :: ps =>
      let az_range := list_max_R (Rabs (nominal_az p)) (map (λ q, Rabs (nominal_az q)) ps) in
      (az_range + 40, mean (map real_el (p :: ps)))
  end.

Definition extra_epsilon : R := 1e-5.

Definition extra_channel (mid_pos : pos_rec) (layer_real_el layer_nominal_el : R)
  : Channel :=
  {| name := "extra";
     polar_position := {| azimuth := real_az mid_pos;
                          elevation := layer_real_el;
                          distance := 1 |};
     polar_nominal_position := {| azimuth := nominal_az mid_pos;
                                  elevation := layer_nominal_el;
                                  distance := 1 |};
     is_lfe := false |}.

(** [downmix_row = np.zeros(n); downmix_row[mid_channel] = 1] *)
Definition downmix_row (n mid_channel : nat) : list R :=
  <[mid_channel := 1]> (zeros n).

(** The inner loop over the mid-layer channels; the state is
    (extra_channels, downmix). *)
Fixpoint extra_mid_loop (n : nat) (az_limit layer_real_el layer_nominal_el : R)
    (mids : list (nat * pos_rec)) (st : list Channel * list (list R))
  : list Channel * list (list R) :=
  match mids with
  | [] => st
  | (mid_channel, mid_pos) :: mids' =>
      let epsilon := extra_epsilon in
      let st' :=
        if decide (Rabs (nominal_az mid_pos) >= az_limit - epsilon)
        then (st.1 ++ [extra_channel mid_pos layer_real_el layer_nominal_el],
              st.2 ++ [downmix_row n mid_channel])
        else st in
      extra_mid_loop n az_limit layer_real_el layer_nominal_el mids' st'
  end.

(** The outer loop over [layers]. *)
Fixpoint extra_layer_loop (n : nat) (pos : list pos_rec) (ls : list (R * R * R))
    (st : list Channel * list (list R)) : list Channel * list (list R) :=
  match ls with
  | [] => st
  | (layer_nominal_el, layer_lb, layer_ub) :: ls' =>
      let '(az_limit, layer_real_el) :=
        layer_limits layer_nominal_el layer_lb layer_ub pos in
      extra_layer_loop n pos ls'
        (extra_mid_loop n az_limit layer_real_el layer_nominal_el
                        (where_zip mid_mask pos) st)
  end.

(** [np.identity(n)], by rows *)
Definition identity (n : nat) : list (list R) :=
  map (λ i, <[i := 1]> (zeros n)) (seq 0 n).

(** [np.array(rows).T] for rows of length [n] *)
Definition transpose (n : nat) (rows : list (list R)) : list (list R) :=
  map (λ i, map (λ row, default 0 (row !! i)) rows) (seq 0 n).

Definition extra_pos_vertical_nominal (layout : Layout)
  : list Channel * list (list R) :=
  let n := length (channels layout) in
  let pos := map channel_pos (channels layout) in
  let '(extra_channels, downmix) := extra_layer_loop n pos layers ([], identity n) in
  (extra_channels, transpose n downmix).

(** ** The convex hull and its facets *)

(** What the code reads of a [scipy.spatial.ConvexHull]. *)
Record Hull : Type := {
  simplices : list (list nat);
  equations : list (list R)
}.

Definition merge_tolerance : R := 1e-5.

(** The inner [for ... else] of [_convex_hull_facets]: the first facet whose
    equation is close enough takes the triangle, otherwise a new facet is
    appended. *)
Fixpoint merge_simplex (facets : list (list R * gset nat)) (tri : list nat)
    (equation : list R) : list (list R * gset nat) :=
  match facets with
  | [] => [(equation, list_to_set tri)]
  | (facet_eqn, facet_verts) :: facets' =>
      if decide (norm (zip_with Rminus facet_eqn equation) < merge_tolerance)
      then (facet_eqn, facet_verts ∪ list_to_set tri) :: facets'
      else (facet_eqn, facet_verts) :: merge_simplex facets' tri equation
  end.

Definition merge_facets (hull : Hull) : list (gset nat) :=
  map snd (foldl (λ facets te, merge_simplex facets te.1 te.2) []
                 (zip (simplices hull) (equations hull))).

(** [_adjacent_verts]; [set.union()] of no sets at all is a [TypeError]. *)
Definition _adjacent_verts (facets : list (gset nat)) (vert : nat)
  : outcome (gset nat) :=
  match filter (λ facet_verts, vert ∈ facet_verts) facets with
  | [] => Raise TypeError
  | touching => Ret (⋃ (map (λ facet_verts, facet_verts ∖ {[vert]}) touching) ∖ {[vert]})
  end.

(** The virtual apex speakers of [_configure_full]. *)
Definition virtual_positions (layout : Layout) : list vec3 :=
  V3 0 0 (-1) ::
  (if decide ("T+000" ∈ channel_names layout ∨ "UH+180" ∈ channel_names layout)
   then [] else [V3 0 0 1]).

Section Collaborators.

(** [numpy.roots]: the roots of the polynomial with the given coefficients,
    highest degree first, in NumPy's order. *)
Variable roots : list R → list complex.

(** [geom.ngon_vertex_order]: the indices of the given positions in cyclic
    order. *)
Variable ngon_vertex_order : list vec3 → list nat.

(** [scipy.spatial.ConvexHull] *)
Variable ConvexHull : list vec3 → outcome Hull.

(** The Cartesian positions a [Layout] derives from a channel
    ([nominal_positions] and [norm_positions]). *)
Variable nominal_position : Channel → vec3.
Variable norm_position : Channel → vec3.

(** Iteration order of a Python set of ints ([np.fromiter(s, int)]). *)
Variable set_iter : gset nat → list nat.

(** [bs2051.get_layout("0+5+0").without_lfe] *)
Variable bs2051_0_5_0 : Layout.

Definition VirtualNgon_init (output_channels : list nat) (positions : list vec3)
    (centre_position : vec3) (centre_downmix : list R) : outcome VirtualNgon :=
  let n := length output_channels in
  if decide (n = length positions ∧ length positions = length centre_downmix)
  then
    let order := ngon_vertex_order positions in
    regions ← mapM (VirtualNgon_region order positions centre_position n) (seq 0 n);
    Ret {| vn_output_channels := output_channels;
           vn_positions := positions;
           vn_centre_position := centre_position;
           vn_centre_downmix := centre_downmix;
           vn_regions := regions |}
  else Raise AssertionError.

(** [QuadRegion.pan_axis]: the closure [handle] for four ordered positions. *)
Definition pan_axis (spk_positions : list vec3) : outcome (vec3 → option R) :=
  match spk_positions with
  | [a; b; c; d] =>
      let poly := pan_axis_poly a b c d in
      Ret (λ position, pan_axis_loop (roots (map (λ row, dot3 row position) poly)))
  | _ => Raise ValueError
  end.

Definition QuadRegion_init (output_channels : list nat) (positions : list vec3)
  : outcome QuadRegion :=
  if decide (length output_channels = 4%nat ∧ length positions = 4%nat)
  then
    let order := ngon_vertex_order positions in
    ordered ← take_items positions order;
    pan_x ← pan_axis ordered;
    rotated ← take_items ordered [1; 2; 3; 0]%nat;
    pan_y ← pan_axis rotated;
    Ret {| quad_output_channels := output_channels;
           quad_positions := positions;
           quad_order := order;
           quad_pan_x := pan_x;
           quad_pan_y := pan_y |}
  else Raise ValueError.

Definition _convex_hull_facets (positions : list vec3) : outcome (list (gset nat)) :=
  hull ← ConvexHull positions;
  Ret (merge_facets hull).

(** The body of the loop over [virtual_verts]. *)
Definition virtual_ngon_region (positions_real : list vec3)
    (facets : list (gset nat)) (virtual_verts : list nat) (virtual_vert : nat)
  : outcome Region :=
  adjacent ← _adjacent_verts facets virtual_vert;
  let real_verts := set_iter adjacent in
  if decide (list_to_set real_verts ∩ list_to_set virtual_verts = (∅ : gset nat))
  then
    positions ← take_items positions_real real_verts;
    centre_position ← getitem positions_real virtual_vert;
    ngon ← VirtualNgon_init real_verts positions centre_position
             (replicate (length real_verts) (1 / sqrt (INR (length real_verts))));
    Ret (RNgon ngon)
  else Raise AssertionError.

(** The body of the loop over [facets]; [None] is the [continue]. *)
Definition facet_region (positions_real : list vec3) (virtual_verts : list nat)
    (facet_verts : gset nat) : outcome (option Region) :=
  if decide (facet_verts ∩ list_to_set virtual_verts = (∅ : gset nat))
  then
    let facet_verts := set_iter facet_verts in
    if decide (length facet_verts = 3%nat) then
      positions ← take_items positions_real facet_verts;
      t ← Triplet_init facet_verts positions;
      Ret (Some (RTriplet t))
    else if decide (length facet_verts = 4%nat) then
      positions ← take_items positions_real facet_verts;
      q ← QuadRegion_init facet_verts positions;
      Ret (Some (RQuad q))
    else Raise AssertionError
  else Ret None.

Definition _configure_full (layout : Layout) : outcome PointSourcePannerDownmix :=
  let '(extra_channels, downmix) := extra_pos_vertical_nominal layout in
  let layout_extra_channels := channels layout ++ extra_channels in
  let virtual_positions := virtual_positions layout in
  let positions_nominal := map nominal_position layout_extra_channels ++ virtual_positions in
  let positions_real := map norm_position layout_extra_channels ++ virtual_positions in
  let virtual_verts :=
    map (λ k, length layout_extra_channels + k)%nat (seq 0 (length virtual_positions)) in
  facets ← _convex_hull_facets positions_nominal;
  ngons ← mapM (virtual_ngon_region positions_real facets virtual_verts) virtual_verts;
  others ← mapM (facet_region positions_real virtual_verts) facets;
  psp ← PointSourcePanner_init (ngons ++ omap (λ region, region) others) None;
  Ret {| pspd_psp := psp; pspd_downmix := downmix |}.

(** [configure] as [StereoPanDownmix.__attrs_post_init__] calls it.  Were
    the table's layout itself named 0+2+0, the Python would recurse until
    [RecursionError]. *)
Definition configure_0_5_0 (layout : Layout) : outcome PointSourcePannerDownmix :=
  if decide (Exists (λ channel, is_lfe channel = true) (channels layout))
  then Raise AssertionError
  else if decide (layout_name layout = "0+2+0") then Raise RecursionError
  else _configure_full layout.

(** The attrs constructor of [StereoPanDownmix] with [__attrs_post_init__]. *)
Definition StereoPanDownmix_init (left_channel right_channel : nat)
  : outcome StereoPanDownmix :=
  let layout := bs2051_0_5_0 in
  if decide (channel_names layout = ["M+030"; "M-030"; "M+000"; "M+110"; "M-110"])
  then
    psp ← configure_0_5_0 layout;
    Ret {| left_channel := left_channel;
           right_channel := right_channel;
           stereo_psp := psp |}
  else Raise AssertionError.

Definition _configure_stereo (layout : Layout)
  : outcome (PointSourcePanner StereoPanDownmix) :=
  left_channel ← list_index "M+030" (channel_names layout);
  right_channel ← list_index "M-030" (channel_names layout);
  panner ← StereoPanDownmix_init left_channel right_channel;
  PointSourcePanner_init [panner] None.

Definition configure (layout : Layout) : outcome Panner :=
  if decide (Exists (λ channel, is_lfe channel = true) (channels layout))
  then Raise AssertionError
  else if decide (layout_name layout = "0+2+0")
       then StereoPanner <$> _configure_stereo layout
       else FullPanner <$> _configure_full layout.

End Collaborators.

(** ** The algorithms as the specification words them *)


(** ** Concrete regions and panners used in the examples *)

Definition e_x : vec3 := V3 1 0 0.
Definition e_y : vec3 := V3 0 1 0.
Definition e_z : vec3 := V3 0 0 1.

(** [Triplet([0, 1, 2], np.identity(3))] *)
Definition tri_id : Triplet :=
  {| tri_output_channels := [0; 1; 2]%nat;
     tri_positions := M33 e_x e_y e_z;
     tri_basis := inv33 (M33 e_x e_y e_z) |}.


(** [PointSourcePanner([tri_id])] *)
Definition psp_tri_id : PointSourcePanner Triplet :=
  {| psp_regions := [tri_id]; psp_num_channels := 3 |}.

(** A triplet as the constructor builds it. *)
Definition mk_triplet (o0 o1 o2 : nat) (a b c : vec3) : Triplet :=
  {| tri_output_channels := [o0; o1; o2];
     tri_positions := M33 a b c;
     tri_basis := inv33 (M33 a b c) |}.

(** Four loudspeakers on a ring below the listener (elevation about -53
    degrees, azimuths -90, 0, 90 and 180 degrees), at rational points of the
    unit sphere; a square of four upper loudspeakers; the two virtual
    apexes. *)
Definition L0 : vec3 := V3 (3 / 5) 0 (- 4 / 5).
Definition L1 : vec3 := V3 0 (3 / 5) (- 4 / 5).
Definition L2 : vec3 := V3 (- 3 / 5) 0 (- 4 / 5).
Definition L3 : vec3 := V3 0 (- 3 / 5) (- 4 / 5).
Definition U0 : vec3 := V3 (2 / 3) (2 / 3) (1 / 3).
Definition U1 : vec3 := V3 (- 2 / 3) (2 / 3) (1 / 3).
Definition U2 : vec3 := V3 (- 2 / 3) (- 2 / 3) (1 / 3).
Definition U3 : vec3 := V3 (2 / 3) (- 2 / 3) (1 / 3).
Definition nadir : vec3 := V3 0 0 (-1).
Definition zenith : vec3 := V3 0 0 1.

Definition half4 : list R := replicate 4 (1 / sqrt (INR 4)).

(** [VirtualNgon([0, 1, 2, 3], [L0, L1, L2, L3], nadir, half4)], the vertex
    order being [0, 1, 2, 3]. *)
Definition ngon_lower : VirtualNgon :=
  {| vn_output_channels := [0; 1; 2; 3]%nat;
     vn_positions := [L0; L1; L2; L3];
     vn_centre_position := nadir;
     vn_centre_downmix := half4;
     vn_regions := [ mk_triplet 0 1 4 L0 L1 nadir; mk_triplet 1 2 4 L1 L2 nadir;
                     mk_triplet 2 3 4 L2 L3 nadir; mk_triplet 3 0 4 L3 L0 nadir ] |}.

(** The same ring seen from the upper apex. *)
Definition ngon_top : VirtualNgon :=
  {| vn_output_channels := [0; 1; 2; 3]%nat;
     vn_positions := [L0; L1; L2; L3];
     vn_centre_position := zenith;
     vn_centre_downmix := half4;
     vn_regions := [ mk_triplet 0 1 4 L0 L1 zenith; mk_triplet 1 2 4 L1 L2 zenith;
                     mk_triplet 2 3 4 L2 L3 zenith; mk_triplet 3 0 4 L3 L0 zenith ] |}.

(** A layout of the four ring loudspeakers.  All its channels are on the
    lower layer, so it gets no extra channels; with the two apexes its
    convex hull is an octahedron, four triangles around each apex. *)
Definition ring_channel (channel_name : string) (az : R) : Channel :=
  {| name := channel_name;
     polar_position := {| azimuth := az; elevation := -53.13; distance := 1 |};
     polar_nominal_position := {| azimuth := az; elevation := -53.13; distance := 1 |};
     is_lfe := false |}.

Definition layout_ring : Layout :=
  {| layout_name := "ring";
     channels := [ ring_channel "L-090" (-90); ring_channel "L+000" 0;
                   ring_channel "L+090" 90; ring_channel "L+180" 180 ] |}.

(** The Cartesian positions of the channels of [layout_ring]. *)
Definition ring_position (channel : Channel) : vec3 :=
  if decide (name channel = "L-090") then L0
  else if decide (name channel = "L+000") then L1
  else if decide (name channel = "L+090") then L2
  else L3.

(** The hull of the six vertices (channels 0 to 3, then the lower and the
    upper apex) as [scipy.spatial.ConvexHull] reports it: triangles, and
    unit normals with offsets to six decimals. *)
Definition hull_ring : Hull :=
  {| simplices := [ [0; 1; 4]; [1; 2; 4]; [2; 3; 4]; [0; 3; 4];
                    [0; 1; 5]; [1; 2; 5]; [2; 3; 5]; [0; 3; 5] ]%nat;
     equations := [ [0.301511; 0.301511; -0.904534; -0.904534];
                    [-0.301511; 0.301511; -0.904534; -0.904534];
                    [-0.301511; -0.301511; -0.904534; -0.904534];
                    [0.301511; -0.301511; -0.904534; -0.904534];
                    [0.688247; 0.688247; 0.229416; -0.229416];
                    [-0.688247; 0.688247; 0.229416; -0.229416];
                    [-0.688247; -0.688247; 0.229416; -0.229416];
                    [0.688247; -0.688247; 0.229416; -0.229416] ] |}.

Definition facets_ring : list (gset nat) :=
  [ list_to_set [0; 1; 4]; list_to_set [1; 2; 4]; list_to_set [2; 3; 4];
    list_to_set [0; 3; 4]; list_to_set [0; 1; 5]; list_to_set [1; 2; 5];
    list_to_set [2; 3; 5]; list_to_set [0; 3; 5] ]%nat.

(** Small ints come out of a Python set in increasing order. *)
Definition sorted_elements (s : gset nat) : list nat := merge_sort Nat.le (elements s).

(** The positions of [layout_ring] are listed in cyclic order. *)
Definition listed_order (positions : list vec3) : list nat := seq 0 (length positions).

Definition pspd_ring : PointSourcePannerDownmix :=
  {| pspd_psp := {| psp_regions := [RNgon ngon_lower; RNgon ngon_top];
                    psp_num_channels := 4 |};
     pspd_downmix := identity 4 |}.


(** The same four lower loudspeakers listed in another order, as a set of
    vertex indices may be iterated: positions 0 and 1 are opposite, and
    the cyclic vertex order is [0, 2, 1, 3]. *)
Definition ngon_zigzag : VirtualNgon :=
  {| vn_output_channels := [0; 1; 2; 3]%nat;
     vn_positions := [L0; L2; L1; L3];
     vn_centre_position := nadir;
     vn_centre_downmix := half4;
     vn_regions := [ mk_triplet 0 2 4 L0 L1 nadir; mk_triplet 2 1 4 L1 L2 nadir;
                     mk_triplet 1 3 4 L2 L3 nadir; mk_triplet 3 0 4 L3 L0 nadir ] |}.

(** A 0+2+0 panner.  The inner panner has the fifteen channels of 0+5+0
    with its ten extra channels; its first two regions are the rings of
    five around the lower apex (the lower extras, channels 5 to 9) and
    around the upper apex (channels 10 to 14), and its downmix sends every
    extra channel to the real channel it stands above or below. *)
Definition R0 : vec3 := V3 (3 / 5) 0 (- 4 / 5).
Definition R1 : vec3 := V3 (9 / 25) (12 / 25) (- 4 / 5).
Definition R2 : vec3 := V3 (- 12 / 25) (9 / 25) (- 4 / 5).
Definition R3 : vec3 := V3 (- 12 / 25) (- 9 / 25) (- 4 / 5).
Definition R4 : vec3 := V3 (9 / 25) (- 12 / 25) (- 4 / 5).
Definition mirror (a : vec3) : vec3 := V3 (vx a) (vy a) (- vz a).

Definition fifth5 : list R := replicate 5 (1 / sqrt (INR 5)).

Definition ring5 (channels : list nat) (a b c d e centre : vec3) : VirtualNgon :=
  {| vn_output_channels := channels;
     vn_positions := [a; b; c; d; e];
     vn_centre_position := centre;
     vn_centre_downmix := fifth5;
     vn_regions := [ mk_triplet 0 1 5 a b centre; mk_triplet 1 2 5 b c centre;
                     mk_triplet 2 3 5 c d centre; mk_triplet 3 4 5 d e centre;
                     mk_triplet 4 0 5 e a centre ] |}.

Definition downmix_0_5_0 : list (list R) :=
  map (λ i, <[i := 1]> (zeros 5) ++ <[i := 1]> (zeros 5) ++ <[i := 1]> (zeros 5))
      (seq 0 5).

Definition pspd_five : PointSourcePannerDownmix :=
  {| pspd_psp :=
       {| psp_regions :=
            [ RNgon (ring5 [5; 6; 7; 8; 9]%nat R0 R1 R2 R3 R4 nadir);
              RNgon (ring5 [10; 11; 12; 13; 14]%nat (mirror R0) (mirror R1)
                           (mirror R2) (mirror R3) (mirror R4) zenith) ];
          psp_num_channels := 15 |};
     pspd_downmix := downmix_0_5_0 |}.

Definition stereo_example : PointSourcePanner StereoPanDownmix :=
  {| psp_regions := [ {| left_channel := 0; right_channel := 1;
                         stereo_psp := pspd_five |} ];
     psp_num_channels := 2 |}.

(** Entry [i] of an array, for statements about positions known to be in
    range. *)
Definition entry (v : list R) (i : nat) : R := default 0 (v !! i).

(** Section 4.3 of the specification, construction: sub-triplet [i] is on
    the real speakers [order[i]] and [order[i+1 mod n]] and the centre, and
    its output slots are [i, i+1 mod n, n]. *)
Definition VirtualNgon_region_spec (order : list nat) (positions : list vec3)
    (centre_position : vec3) (n i : nat) : outcome Triplet :=
  let j := ((i + 1) mod n)%nat in
  oi ← getitem order i;
  oj ← getitem order j;
  p_i ← getitem positions oi;
  p_j ← getitem positions oj;
  Triplet_init [i; j; n] [p_i; p_j; centre_position].

(** Section 4.3, query: the first sub-triplet that succeeds gives an
    (n+1)-vector [v]; entry [i] of the answer is
    [v[i] + v[n] * centre_downmix[i]] before the L2-normalisation. *)
Fixpoint VirtualNgon_handle_spec (triplets : list Triplet)
    (centre_downmix : list R) (position : vec3) : outcome (option (list R)) :=
  let n := length centre_downmix in
  match triplets with
  | [] => Ret None
  | t :: triplets' =>
      g ← Triplet_handle t position;
      match g with
      | Some g =>
          v ← setitems (zeros (n + 1)) (tri_output_channels t) g;
          w ← div_norm (map (λ i, entry v i + entry v n * entry centre_downmix i)
                            (seq 0 n));
          Ret (Some w)
      | None => VirtualNgon_handle_spec triplets' centre_downmix position
      end
  end.

(** Section 4.2 of the specification: the coefficients of the scalar
    quadratic [P(t) . p] for four ordered vertices, highest degree first. *)
Definition quad_coefficients (a b c d p : vec3) : list R :=
  [ dot3 (cross (vsub b a) (vsub c d)) p;
    dot3 (vadd (cross a (vsub c d)) (cross (vsub b a) d)) p;
    dot3 (cross a d) p ].

(** A root is accepted when its imaginary part is below 1e-10 in magnitude
    and its real part is strictly between -1e-10 and 1 + 1e-10. *)
Definition root_accepted (root : complex) : Prop :=
  Rabs (im root) < 1e-10 ∧ - (1e-10) < re root ∧ re root < 1 + 1e-10.

#[global] Instance root_accepted_dec root : Decision (root_accepted root).
Proof. unfold root_accepted. apply _. Defined.

(** The pan parameter: the real part of the first accepted root, clipped
    to [0, 1]. *)
Definition pan_parameter_spec (roots : list R → list complex) (a b c d p : vec3)
  : option R :=
  match list_find root_accepted (roots (quad_coefficients a b c d p)) with
  | Some (_, root) => Some (clip 0 1 (re root))
  | None => None
  end.

(** The bilinear gains at the ordered vertices. *)
Definition bilinear_gains (x y : R) : list R :=
  [ (1 - x) * (1 - y); x * (1 - y); x * y; (1 - x) * y ].

(** A closed form for the roots of a polynomial of degree at most two, used
    where an example needs a concrete [numpy.roots]. *)
Definition roots_closed_form (coefficients : list R) : list complex :=
  match coefficients with
  | [a; b; c] =>
      if decide (a = 0) then
        if decide (b = 0) then [] else [Cplx (- c / b) 0]
      else
        let disc := b * b - 4 * a * c in
        if decide (0 <= disc)
        then [ Cplx ((- b + sqrt disc) / (2 * a)) 0;
               Cplx ((- b - sqrt disc) / (2 * a)) 0 ]
        else [ Cplx (- b / (2 * a)) (sqrt (- disc) / (2 * a));
               Cplx (- b / (2 * a)) (- sqrt (- disc) / (2 * a)) ]
  | _ => []
  end.

(** [QuadRegion([4, 5, 6, 7], [U0, U1, U2, U3])]: the square of the four
    upper loudspeakers, the vertex order being [0, 1, 2, 3]. *)
Definition quad_upper : QuadRegion :=
  {| quad_output_channels := [4; 5; 6; 7]%nat;
     quad_positions := [U0; U1; U2; U3];
     quad_order := [0; 1; 2; 3]%nat;
     quad_pan_x := λ position,
       pan_axis_loop (roots_closed_form
                        (map (λ row, dot3 row position) (pan_axis_poly U0 U1 U2 U3)));
     quad_pan_y := λ position,
       pan_axis_loop (roots_closed_form
                        (map (λ row, dot3 row position) (pan_axis_poly U1 U2 U3 U0))) |}.

(** Section 4.6, step 1: [az_limit] and the real elevation of the extras of
    one layer.  An empty layer gives 0 and the target elevation; otherwise
    [az_limit] is the largest absolute nominal azimuth on the layer plus 40
    and the elevation is the mean real elevation of the layer. *)
Definition is_layer_limits (layer_nominal_el layer_lb layer_ub : R)
    (pos : list pos_rec) (az_limit layer_real_el : R) : Prop :=
  let on_layer := filter (el_between layer_lb layer_ub) pos in
  (on_layer = [] ∧ az_limit = 0 ∧ layer_real_el = layer_nominal_el)
  ∨ (on_layer ≠ []
     ∧ (∃ q, q ∈ on_layer ∧ Rabs (nominal_az q) + 40 = az_limit)
     ∧ (∀ q, q ∈ on_layer → Rabs (nominal_az q) + 40 <= az_limit)
     ∧ layer_real_el = mean (map real_el on_layer)).

(** The mid-layer channels that get an extra channel for a given limit,
    each with its channel number. *)
Definition selected_mids (az_limit : R) (pos : list pos_rec) : list (nat * pos_rec) :=
  filter (λ ip, Rabs (nominal_az ip.2) >= az_limit - 1e-5) (where_zip mid_mask pos).




Definition panner_regions (panner : Panner) : list Region :=
  match panner with
  | FullPanner p => psp_regions (pspd_psp p)
  | StereoPanner p =>
      flat_map (λ stereo, psp_regions (pspd_psp (stereo_psp stereo))) (psp_regions p)
  end.

(** Sizes and index ranges that the constructors establish. *)
Definition ngon_slots_ok (v : VirtualNgon) : Prop :=
  let n := length (vn_centre_downmix v) in
  length (vn_output_channels v) = n
  ∧ Forall (λ t, ∃ oi oj, tri_output_channels t = [oi; oj; n]
                          ∧ (oi < n)%nat ∧ (oj < n)%nat) (vn_regions v).

Definition quad_slots_ok (q : QuadRegion) : Prop :=
  length (quad_output_channels q) = 4%nat
  ∧ length (quad_order q) = 4%nat
  ∧ Forall (λ o, (o < 4)%nat) (quad_order q).

Definition region_ok (r : Region) : Prop :=
  match r with
  | RTriplet t => length (tri_output_channels t) = 3%nat
  | RNgon v => ngon_slots_ok v
  | RQuad q => quad_slots_ok q
  end.

(** The downmix has one column for each channel of the inner panner. *)
Definition columns_ok (self : PointSourcePannerDownmix) : Prop :=
  Forall (λ row, length row = psp_num_channels (pspd_psp self)) (pspd_downmix self).

(** The acceptance test of [Triplet.handle] on the coordinates [pv]. *)
Definition tolerated (pv : vec3) : Prop :=
  vx pv >= triplet_epsilon ∧ vy pv >= triplet_epsilon ∧ vz pv >= triplet_epsilon.

Definition mat33_rows (m : mat33) : list vec3 := [row0 m; row1 m; row2 m].


(** The pan functions of a quad find the same parameters for [p] and for
    [s * p]. *)
Definition quad_pan_stable (s : R) (p : vec3) (r : Region) : Prop :=
  match r with
  | RQuad q => quad_pan_x q (vscale s p) = quad_pan_x q p
               ∧ quad_pan_y q (vscale s p) = quad_pan_y q p
  | _ => True
  end.


(** [np.polyval]: the value at [t] of the polynomial with the given
    coefficients, highest degree first.  [np.roots] is given such
    coefficients. *)
Definition polyval (coefficients : list R) (t : R) : R :=
  foldl (λ acc c, acc * t + c) 0 coefficients.

(** ** A 0+5+0 table and a 0+2+0 layout for the examples *)

(** A loudspeaker of the middle layer at the given azimuth. *)
Definition mid_channel (channel_name : string) (az : R) : Channel :=
  {| name := channel_name;
     polar_position := {| azimuth := az; elevation := 0; distance := 1 |};
     polar_nominal_position := {| azimuth := az; elevation := 0; distance := 1 |};
     is_lfe := false |}.

Definition layout_five : Layout :=
  {| layout_name := "0+5+0";
     channels := [ mid_channel "M+030" 30; mid_channel "M-030" (-30);
                   mid_channel "M+000" 0; mid_channel "M+110" 110;
                   mid_channel "M-110" (-110) ] |}.

Definition layout_stereo : Layout :=
  {| layout_name := "0+2+0";
     channels := [ mid_channel "M+030" 30; mid_channel "M-030" (-30) ] |}.

(** The Cartesian positions of the five loudspeakers, to six decimals, and
    of their copies 30 degrees below and above. *)
Definition M0 : vec3 := V3 (-0.5) 0.866025 0.
Definition M1 : vec3 := V3 0.5 0.866025 0.
Definition M2 : vec3 := V3 0 1 0.
Definition M3 : vec3 := V3 (-0.939693) (-0.342020) 0.
Definition M4 : vec3 := V3 0.939693 (-0.342020) 0.
Definition lower_of (p : vec3) : vec3 := V3 (0.866025 * vx p) (0.866025 * vy p) (-0.5).
Definition upper_of (p : vec3) : vec3 := V3 (0.866025 * vx p) (0.866025 * vy p) 0.5.

(** The positions that the layout derives from a channel, for the azimuths
    and elevations that occur. *)
Definition five_position (channel : Channel) : vec3 :=
  let az := azimuth (polar_position channel) in
  let el := elevation (polar_position channel) in
  let mid := if decide (az = 30) then M0
             else if decide (az = -30) then M1
             else if decide (az = 0) then M2
             else if decide (az = 110) then M3
             else M4 in
  if decide (el = 0) then mid
  else if decide (el = 30) then upper_of mid
  else lower_of mid.

(** The ten extra channels that the 0+5+0 layout gets, and its seventeen
    vertices. *)
Definition extras_five : list Channel :=
  map (λ channel, extra_channel (channel_pos channel) (-30) (-30)) (channels layout_five)
  ++ map (λ channel, extra_channel (channel_pos channel) 30 30) (channels layout_five).

Definition positions_five : list vec3 :=
  [ M0; M1; M2; M3; M4;
    lower_of M0; lower_of M1; lower_of M2; lower_of M3; lower_of M4;
    upper_of M0; upper_of M1; upper_of M2; upper_of M3; upper_of M4;
    nadir; zenith ].

(** The convex hull of the seventeen vertices: five triangles around each
    apex, and ten trapezia between the layers as two triangles each. *)
Definition hull_five : Hull :=
  {| simplices :=
       [ [8; 5; 15]%nat;
         [5; 7; 15]%nat;
         [7; 6; 15]%nat;
         [6; 9; 15]%nat;
         [9; 8; 15]%nat;
         [13; 10; 16]%nat;
         [10; 12; 16]%nat;
         [12; 11; 16]%nat;
         [11; 14; 16]%nat;
         [14; 13; 16]%nat;
         [3; 0; 8]%nat;
         [0; 8; 5]%nat;
         [0; 2; 5]%nat;
         [2; 5; 7]%nat;
         [2; 1; 7]%nat;
         [1; 7; 6]%nat;
         [1; 4; 6]%nat;
         [4; 6; 9]%nat;
         [4; 3; 9]%nat;
         [3; 9; 8]%nat;
         [3; 0; 13]%nat;
         [0; 13; 10]%nat;
         [0; 2; 10]%nat;
         [2; 10; 12]%nat;
         [2; 1; 12]%nat;
         [1; 12; 11]%nat;
         [1; 4; 11]%nat;
         [4; 11; 14]%nat;
         [4; 3; 14]%nat;
         [3; 14; 13]%nat ];
     equations :=
       [ [(-0.56558); 0.205855; (-0.798588); (-0.798588)];
         [(-0.132789); 0.495572; (-0.858356); (-0.858356)];
         [0.132789; 0.495572; (-0.858356); (-0.858356)];
         [0.56558; 0.205855; (-0.798588); (-0.798588)];
         [0; (-0.860366); (-0.509677); (-0.509677)];
         [(-0.56558); 0.205855; 0.798588; (-0.798588)];
         [(-0.132789); 0.495572; 0.858356; (-0.858356)];
         [0.132789; 0.495572; 0.858356; (-0.858356)];
         [0.56558; 0.205855; 0.798588; (-0.798588)];
         [0; (-0.860366); 0.509677; (-0.509677)];
         [(-0.920501); 0.335035; (-0.20107); (-0.7504)];
         [(-0.920501); 0.335035; (-0.20107); (-0.7504)];
         [(-0.250563); 0.935113; (-0.250563); (-0.935113)];
         [(-0.250563); 0.935113; (-0.250563); (-0.935113)];
         [0.250563; 0.935113; (-0.250563); (-0.935113)];
         [0.250563; 0.935113; (-0.250563); (-0.935113)];
         [0.920501; 0.335035; (-0.20107); (-0.7504)];
         [0.920501; 0.335035; (-0.20107); (-0.7504)];
         [0; (-0.995827); (-0.091262); (-0.340593)];
         [0; (-0.995827); (-0.091262); (-0.340593)];
         [(-0.920501); 0.335035; 0.20107; (-0.7504)];
         [(-0.920501); 0.335035; 0.20107; (-0.7504)];
         [(-0.250563); 0.935113; 0.250563; (-0.935113)];
         [(-0.250563); 0.935113; 0.250563; (-0.935113)];
         [0.250563; 0.935113; 0.250563; (-0.935113)];
         [0.250563; 0.935113; 0.250563; (-0.935113)];
         [0.920501; 0.335035; 0.20107; (-0.7504)];
         [0.920501; 0.335035; 0.20107; (-0.7504)];
         [0; (-0.995827); 0.091262; (-0.340593)];
         [0; (-0.995827); 0.091262; (-0.340593)] ] |}.

Definition facets_five : list (gset nat) :=
  [ list_to_set [8; 5; 15]%nat;
    list_to_set [5; 7; 15]%nat;
    list_to_set [7; 6; 15]%nat;
    list_to_set [6; 9; 15]%nat;
    list_to_set [9; 8; 15]%nat;
    list_to_set [13; 10; 16]%nat;
    list_to_set [10; 12; 16]%nat;
    list_to_set [12; 11; 16]%nat;
    list_to_set [11; 14; 16]%nat;
    list_to_set [14; 13; 16]%nat;
    list_to_set [3; 0; 8]%nat ∪ list_to_set [0; 8; 5]%nat;
    list_to_set [0; 2; 5]%nat ∪ list_to_set [2; 5; 7]%nat;
    list_to_set [2; 1; 7]%nat ∪ list_to_set [1; 7; 6]%nat;
    list_to_set [1; 4; 6]%nat ∪ list_to_set [4; 6; 9]%nat;
    list_to_set [4; 3; 9]%nat ∪ list_to_set [3; 9; 8]%nat;
    list_to_set [3; 0; 13]%nat ∪ list_to_set [0; 13; 10]%nat;
    list_to_set [0; 2; 10]%nat ∪ list_to_set [2; 10; 12]%nat;
    list_to_set [2; 1; 12]%nat ∪ list_to_set [1; 12; 11]%nat;
    list_to_set [1; 4; 11]%nat ∪ list_to_set [4; 11; 14]%nat;
    list_to_set [4; 3; 14]%nat ∪ list_to_set [3; 14; 13]%nat ].

(** The cyclic order of the vertices of the two pentagons and of the
    trapezia, their vertices being listed by increasing index. *)
Definition order_five (positions : list vec3) : list nat :=
  match positions with
  | [_; _; _; _] => [0; 1; 3; 2]%nat
  | [_; _; _; _; _] => [3; 0; 2; 1; 4]%nat
  | _ => seq 0 (length positions)
  end.

Definition ngon_five (channels : list nat) (a b c d e centre : vec3) : VirtualNgon :=
  {| vn_output_channels := channels;
     vn_positions := [a; b; c; d; e];
     vn_centre_position := centre;
     vn_centre_downmix := fifth5;
     vn_regions := [ mk_triplet 3 0 5 d a centre; mk_triplet 0 2 5 a c centre;
                     mk_triplet 2 1 5 c b centre; mk_triplet 1 4 5 b e centre;
                     mk_triplet 4 3 5 e d centre ] |}.

Definition quad_five (channels : list nat) (a b c d : vec3) : QuadRegion :=
  {| quad_output_channels := channels;
     quad_positions := [a; b; c; d];
     quad_order := [0; 1; 3; 2]%nat;
     quad_pan_x := λ position,
       pan_axis_loop (roots_closed_form
                        (map (λ row, dot3 row position) (pan_axis_poly a b d c)));
     quad_pan_y := λ position,
       pan_axis_loop (roots_closed_form
                        (map (λ row, dot3 row position) (pan_axis_poly b d c a))) |}.

(** The panner of the 0+5+0 layout and the panner of the 0+2+0 layout on
    top of it. *)
Definition pspd_050 : PointSourcePannerDownmix :=
  {| pspd_psp :=
       {| psp_regions :=
            [ RNgon (ngon_five [5; 6; 7; 8; 9]%nat (lower_of M0) (lower_of M1) (lower_of M2)
                               (lower_of M3) (lower_of M4) nadir);
              RNgon (ngon_five [10; 11; 12; 13; 14]%nat (upper_of M0) (upper_of M1)
                               (upper_of M2) (upper_of M3) (upper_of M4) zenith);
              RQuad (quad_five [0; 3; 5; 8]%nat M0 M3 (lower_of M0) (lower_of M3));
              RQuad (quad_five [0; 2; 5; 7]%nat M0 M2 (lower_of M0) (lower_of M2));
              RQuad (quad_five [1; 2; 6; 7]%nat M1 M2 (lower_of M1) (lower_of M2));
              RQuad (quad_five [1; 4; 6; 9]%nat M1 M4 (lower_of M1) (lower_of M4));
              RQuad (quad_five [3; 4; 8; 9]%nat M3 M4 (lower_of M3) (lower_of M4));
              RQuad (quad_five [0; 3; 10; 13]%nat M0 M3 (upper_of M0) (upper_of M3));
              RQuad (quad_five [0; 2; 10; 12]%nat M0 M2 (upper_of M0) (upper_of M2));
              RQuad (quad_five [1; 2; 11; 12]%nat M1 M2 (upper_of M1) (upper_of M2));
              RQuad (quad_five [1; 4; 11; 14]%nat M1 M4 (upper_of M1) (upper_of M4));
              RQuad (quad_five [3; 4; 13; 14]%nat M3 M4 (upper_of M3) (upper_of M4)) ];
          psp_num_channels := 15 |};
     pspd_downmix := downmix_0_5_0 |}.

Definition stereo_050 : StereoPanDownmix :=
  {| left_channel := 0; right_channel := 1; stereo_psp := pspd_050 |}.

Definition panner_stereo : PointSourcePanner StereoPanDownmix :=
  {| psp_regions := [stereo_050]; psp_num_channels := 2 |}.

(** * Properties *)

(** ** Outcomes *)

Lemma bind_Ret {A B} (f : A → outcome B) (a : A) : (Ret a ≫= f) = f a.
Proof. reflexivity. Qed.

Lemma bind_inv_Ret {A B} (f : A → outcome B) (m : outcome A) (b : B) :
  (m ≫= f) = Ret b → ∃ a, m = Ret a ∧ f a = Ret b.
Proof. destruct m as [a| |e]; simpl; [eauto | discriminate | discriminate]. Qed.

Lemma fmap_inv_Ret {A B} (f : A → B) (m : outcome A) (b : B) :
  f <$> m = Ret b → ∃ a, m = Ret a ∧ b = f a.
Proof.
  destruct m as [a| |e]; simpl; [| discriminate | discriminate].
  intros [= <-]. eauto.
Qed.

(** ** Vectors, matrices and norms *)

Lemma vec3_eq (a b : vec3) : vx a = vx b → vy a = vy b → vz a = vz b → a = b.
Proof. destruct a, b; simpl; intros; subst; reflexivity. Qed.


Lemma inv33_left (m : mat33) (q : vec3) :
  det33 m ≠ 0 → vecmat (vecmat q m) (inv33 m) = q.
Proof.
  destruct m as [[a1 a2 a3] [b1 b2 b3] [c1 c2 c3]], q as [q1 q2 q3].
  unfold det33, dot3, cross; simpl. intros Hd.
  apply vec3_eq; unfold inv33, det33, dot3, cross; simpl; field; exact Hd.
Qed.

(** The coordinates of [p] in the basis are the only [q] with [q . m = p]. *)
Lemma inv33_unique (m : mat33) (p q : vec3) :
  det33 m ≠ 0 → vecmat q m = p → vecmat p (inv33 m) = q.
Proof. intros Hd <-. apply inv33_left, Hd. Qed.

Lemma sum_sq_nonneg (v : list R) : 0 <= sum_sq v.
Proof. induction v as [|x v IH]; simpl; [lra | nra]. Qed.

Lemma norm_nonneg (v : list R) : 0 <= norm v.
Proof. apply sqrt_pos. Qed.

Lemma sum_sq_scale (c : R) (v : list R) :
  sum_sq (map (Rmult c) v) = c * c * sum_sq v.
Proof. induction v as [|x v IH]; simpl; [ring | rewrite IH; ring]. Qed.

Lemma norm_scale (c : R) (v : list R) :
  norm (map (Rmult c) v) = Rabs c * norm v.
Proof.
  unfold norm. rewrite sum_sq_scale.
  rewrite sqrt_mult; [| nra | apply sum_sq_nonneg].
  f_equal. apply sqrt_Rsqr_abs.
Qed.

Lemma map_div_scale (s : R) (v : list R) :
  map (λ x, x / s) v = map (Rmult (/ s)) v.
Proof. apply map_ext. intros x. unfold Rdiv. ring. Qed.

Lemma sum_sq_zero (v : list R) : sum_sq v = 0 → Forall (λ x, x = 0) v.
Proof.
  induction v as [|x v IH]; simpl; intros H; constructor.
  - pose proof (sum_sq_nonneg v). nra.
  - apply IH. pose proof (sum_sq_nonneg v). nra.
Qed.

Lemma norm_zero (v : list R) : norm v = 0 → Forall (λ x, x = 0) v.
Proof.
  unfold norm. intros H. apply sum_sq_zero.
  apply sqrt_eq_0; [apply sum_sq_nonneg | exact H].
Qed.

Lemma norm_of_zeros (v : list R) : Forall (λ x, x = 0) v → norm v = 0.
Proof.
  intros H. unfold norm. replace (sum_sq v) with 0; [apply sqrt_0 |].
  induction H as [|x v -> _ IH]; simpl; [reflexivity | rewrite <- IH; ring].
Qed.

Lemma abs_le_norm (v : list R) (x : R) : x ∈ v → Rabs x <= norm v.
Proof.
  intros Hin. unfold norm. rewrite <- sqrt_Rsqr_abs.
  apply sqrt_le_1_alt. unfold Rsqr.
  induction Hin as [x v | x y v _ IH]; simpl.
  - pose proof (sum_sq_nonneg v). lra.
  - nra.
Qed.

(** Dividing by a non-zero norm gives a vector of norm one. *)
Lemma div_norm_Ret (v g : list R) :
  div_norm v = Ret g → norm v ≠ 0 ∧ g = map (λ x, x / norm v) v ∧ norm g = 1.
Proof.
  unfold div_norm, div_by. destruct (decide (norm v = 0)) as [|Hn]; [discriminate |].
  intros [= <-]. split; [exact Hn |]. split; [reflexivity |].
  rewrite map_div_scale, norm_scale.
  pose proof (norm_nonneg v) as Hp.
  rewrite Rabs_right.
  - field. exact Hn.
  - apply Rle_ge. left. apply Rinv_0_lt_compat. lra.
Qed.

Lemma div_norm_nonzero (v : list R) :
  norm v ≠ 0 → div_norm v = Ret (map (λ x, x / norm v) v).
Proof. intros Hn. unfold div_norm, div_by. rewrite decide_False by exact Hn. reflexivity. Qed.

Lemma div_norm_zero (v : list R) : norm v = 0 → div_norm v = NonFinite.
Proof. intros Hn. unfold div_norm, div_by. rewrite decide_True by exact Hn. reflexivity. Qed.

Lemma div_norm_not_raise (v : list R) (e : exn) : div_norm v ≠ Raise e.
Proof. unfold div_norm, div_by. destruct (decide _); discriminate. Qed.

Lemma div_norm_length (v g : list R) : div_norm v = Ret g → length g = length v.
Proof. intros H. apply div_norm_Ret in H as (_ & -> & _). apply length_map. Qed.

Lemma clip_range (x : R) : 0 <= clip 0 1 x <= 1.
Proof.
  unfold clip, Rmin, Rmax.
  destruct (Rle_dec x 0), (Rle_dec _ 1); lra.
Qed.



(** ** Triplet *)

Lemma Triplet_init_Ret (oc : list nat) (positions : list vec3) (t : Triplet) :
  Triplet_init oc positions = Ret t →
  ∃ a b c, positions = [a; b; c] ∧ length oc = 3%nat
    ∧ det33 (M33 a b c) ≠ 0
    ∧ t = {| tri_output_channels := oc;
             tri_positions := M33 a b c;
             tri_basis := inv33 (M33 a b c) |}.
Proof.
  unfold Triplet_init.
  destruct oc as [|o0 [|o1 [|o2 [|]]]]; try discriminate;
    destruct positions as [|a [|b [|c [|]]]]; try discriminate.
  unfold linalg_inv. destruct (decide (det33 (M33 a b c) = 0)) as [|Hd]; [discriminate |].
  simpl. intros [= <-]. exists a, b, c. auto.
Qed.

Lemma Triplet_init_ok (o0 o1 o2 : nat) (a b c : vec3) :
  det33 (M33 a b c) ≠ 0 →
  Triplet_init [o0; o1; o2] [a; b; c]
  = Ret {| tri_output_channels := [o0; o1; o2];
           tri_positions := M33 a b c;
           tri_basis := inv33 (M33 a b c) |}.
Proof.
  intros Hd. unfold Triplet_init, linalg_inv.
  rewrite decide_False by exact Hd. reflexivity.
Qed.

Lemma Triplet_handle_rejected (t : Triplet) (p : vec3) :
  ¬ tolerated (vecmat p (tri_basis t)) → Triplet_handle t p = Ret None.
Proof.
  intros Hn. unfold Triplet_handle.
  destruct (bool_decide _ && bool_decide _ && bool_decide _) eqn:E; [| reflexivity].
  exfalso. apply Hn.
  apply andb_prop in E as [E E3]. apply andb_prop in E as [E1 E2].
  apply bool_decide_eq_true_1 in E1, E2, E3. repeat split; assumption.
Qed.

Lemma Triplet_handle_tolerated (t : Triplet) (p : vec3) :
  tolerated (vecmat p (tri_basis t)) →
  Triplet_handle t p
  = (pv ← div_norm (vec3_list (vecmat p (tri_basis t))); Ret (Some (map (clip 0 1) pv))).
Proof.
  intros (H1 & H2 & H3). unfold Triplet_handle.
  rewrite !bool_decide_eq_true_2 by assumption. reflexivity.
Qed.

Lemma Triplet_handle_not_raise (t : Triplet) (p : vec3) (e : exn) :
  Triplet_handle t p ≠ Raise e.
Proof.
  unfold Triplet_handle. destruct (_ && _); [| discriminate].
  unfold div_norm, div_by. destruct (decide _); discriminate.
Qed.

Lemma Triplet_handle_Some (t : Triplet) (p : vec3) (g : list R) :
  Triplet_handle t p = Ret (Some g) →
  tolerated (vecmat p (tri_basis t))
  ∧ norm (vec3_list (vecmat p (tri_basis t))) ≠ 0
  ∧ g = map (clip 0 1)
          (map (λ x, x / norm (vec3_list (vecmat p (tri_basis t))))
               (vec3_list (vecmat p (tri_basis t)))).
Proof.
  intros H.
  destruct (decide (tolerated (vecmat p (tri_basis t)))) as [Ht|Hn].
  - rewrite Triplet_handle_tolerated in H by exact Ht.
    apply bind_inv_Ret in H as (pv & Hdiv & [= <-]).
    apply div_norm_Ret in Hdiv as (Hn & -> & _). auto.
  - rewrite Triplet_handle_rejected in H by exact Hn. discriminate.
Qed.

Lemma lincomb_rows (g0 g1 g2 : R) (m : mat33) :
  lincomb [g0; g1; g2] (mat33_rows m) = vecmat (V3 g0 g1 g2) m.
Proof.
  destruct m as [[a1 a2 a3] [b1 b2 b3] [c1 c2 c3]].
  apply vec3_eq; unfold lincomb, vecmat, vadd, vscale, vzero; simpl; ring.
Qed.



Lemma vecmat_zero (m : mat33) : vecmat vzero m = vzero.
Proof.
  destruct m as [[a1 a2 a3] [b1 b2 b3] [c1 c2 c3]].
  apply vec3_eq; unfold vecmat, vadd, vscale, vzero; simpl; ring.
Qed.



Lemma det33_identity : det33 (M33 e_x e_y e_z) ≠ 0.
Proof. unfold det33, dot3, cross, e_x, e_y, e_z; simpl. lra. Qed.


Lemma tri_id_coordinates (p : vec3) : vecmat p (tri_basis tri_id) = p.
Proof.
  apply inv33_unique; [apply det33_identity |].
  destruct p as [p1 p2 p3].
  apply vec3_eq; unfold vecmat, vadd, vscale, e_x, e_y, e_z; simpl; ring.
Qed.


Ltac clip_eval :=
  unfold clip, Rmin, Rmax; repeat (destruct (Rle_dec _ _)); lra.

(** Equality of two arrays that were returned, entry by entry. *)
Ltac entrywise :=
  repeat match goal with
  | |- Ret _ = Ret _ => apply (f_equal Ret)
  | |- Some _ = Some _ => apply (f_equal Some)
  | |- _ :: _ = _ :: _ => apply (f_equal2 cons)
  | |- [] = [] => reflexivity
  end.




(** ** Index arrays *)

Lemma mapM_Ret {A B} (f : A → outcome B) (l : list A) (ys : list B) :
  mapM f l = Ret ys → Forall2 (λ x y, f x = Ret y) l ys.
Proof.
  revert ys. induction l as [|x l IH]; simpl; intros ys H.
  - injection H as <-. constructor.
  - apply bind_inv_Ret in H as (y & Hy & H).
    apply bind_inv_Ret in H as (k & Hk & [= <-]).
    constructor; [exact Hy | apply IH, Hk].
Qed.

Lemma mapM_Ret_2 {A B} (f : A → outcome B) (l : list A) (ys : list B) :
  Forall2 (λ x y, f x = Ret y) l ys → mapM f l = Ret ys.
Proof.
  induction 1 as [|x y l ys Hxy _ IH]; simpl; [reflexivity |].
  rewrite Hxy; simpl. rewrite IH; reflexivity.
Qed.

Lemma foldl_max_ge (x : nat) (xs : list nat) :
  (x <= foldl Nat.max x xs)%nat ∧ Forall (λ y, (y <= foldl Nat.max x xs)%nat) xs.
Proof.
  revert x. induction xs as [|y xs IH]; intros x; simpl.
  - split; [lia | constructor].
  - destruct (IH (Nat.max x y)) as [H1 H2]. split; [lia |].
    constructor; [lia | exact H2].
Qed.

Lemma max_nat_Ret (l : list nat) (m : nat) :
  max_nat l = Ret m → Forall (λ y, (y <= m)%nat) l.
Proof.
  destruct l as [|x xs]; simpl; [discriminate |]. intros [= <-].
  destruct (foldl_max_ge x xs) as [H1 H2]. constructor; assumption.
Qed.

Lemma setitem_length (out out' : list R) (i : nat) (x : R) :
  setitem out i x = Ret out' → length out' = length out.
Proof.
  unfold setitem. destruct (decide _); [| discriminate].
  intros [= <-]. apply length_insert.
Qed.

Lemma setitems_zip_in_range (out : list R) (idx : list nat) (vals : list R) :
  Forall (λ i, (i < length out)%nat) idx →
  ∃ out', setitems_zip out idx vals = Ret out'
    ∧ length out' = length out
    ∧ (∀ c, c ∉ take (length vals) idx → out' !! c = out !! c)
    ∧ (∀ i c, idx !! i = Some c → (i < length vals)%nat →
              (∀ j, (i < j)%nat → (j < length vals)%nat → idx !! j ≠ Some c) →
              out' !! c = vals !! i).
Proof.
  revert out vals. induction idx as [|i0 idx IH]; intros out vals Hr.
  { exists out. simpl. split; [reflexivity |]. split; [reflexivity |].
    split; [intros c _; reflexivity | intros ? ? [=]]. }
  destruct vals as [|x vals].
  { exists out. simpl. split; [reflexivity |]. split; [reflexivity |].
    split; [intros c _; reflexivity | intros ? ? ? Hlt; simpl in Hlt; lia]. }
  inversion Hr as [|? ? Hi0 Hr']; subst.
  simpl. unfold setitem. rewrite decide_True by exact Hi0. simpl.
  destruct (IH (<[i0 := x]> out) vals) as (out' & Hz & Hlen & Hout & Hin).
  { rewrite length_insert. exact Hr'. }
  exists out'. split; [exact Hz |]. split; [rewrite Hlen; apply length_insert |]. split.
  - intros c Hc. rewrite not_elem_of_cons in Hc. destruct Hc as [Hne Hc].
    rewrite Hout by exact Hc. apply list_lookup_insert_ne. congruence.
  - intros i c Hic Hlt Hlast. destruct i as [|i]; simpl in *.
    + injection Hic as ->.
      rewrite Hout.
      * apply list_lookup_insert_eq. exact Hi0.
      * intros Hel. apply elem_of_take in Hel as (j & Hj & Hjlt).
        apply (Hlast (S j)); [lia | lia | exact Hj].
    + apply Hin; [exact Hic | lia |].
      intros j Hj Hjlt. apply (Hlast (S j)); lia.
Qed.

(** The assignment [out[idx] = vals] of matching lengths with every index in
    range: what each entry of the result is. *)
Lemma setitems_in_range (out : list R) (idx : list nat) (vals : list R) :
  length vals = length idx →
  Forall (λ i, (i < length out)%nat) idx →
  ∃ out', setitems out idx vals = Ret out'
    ∧ length out' = length out
    ∧ (∀ c, c ∉ idx → out' !! c = out !! c)
    ∧ (∀ i c, idx !! i = Some c → (∀ j, (i < j)%nat → idx !! j ≠ Some c) →
              out' !! c = vals !! i).
Proof.
  intros Hlen Hr. unfold setitems. rewrite decide_True by exact Hlen.
  destruct (setitems_zip_in_range out idx vals Hr) as (out' & Hz & Hl & Hout & Hin).
  exists out'. split; [exact Hz |]. split; [exact Hl |]. split.
  - intros c Hc. apply Hout. rewrite Hlen, firstn_all. exact Hc.
  - intros i c Hic Hlast. apply Hin; [exact Hic | |].
    + rewrite Hlen. apply lookup_lt_Some in Hic. exact Hic.
    + intros j Hj _. apply Hlast, Hj.
Qed.

Lemma setitems_length (out out' : list R) (idx : list nat) (vals : list R) :
  setitems out idx vals = Ret out' → length out' = length out.
Proof.
  assert (Hz : ∀ idx vals out out',
             setitems_zip out idx vals = Ret out' → length out' = length out).
  { clear. induction idx as [|i idx IH]; intros vals out out'; simpl.
    - intros [= <-]. reflexivity.
    - destruct vals as [|x vals]; [intros [= <-]; reflexivity |].
      intros H. apply bind_inv_Ret in H as (o & Ho & H).
      apply IH in H. apply setitem_length in Ho. congruence. }
  unfold setitems. destruct (decide _); [apply Hz |].
  destruct vals as [|x [|]]; try discriminate. apply Hz.
Qed.

Lemma zeros_lookup (n c : nat) : (c < n)%nat → zeros n !! c = Some 0.
Proof. intros H. unfold zeros. apply lookup_replicate_2, H. Qed.

Lemma zeros_length (n : nat) : length (zeros n) = n.
Proof. apply length_replicate. Qed.

(** ** handle_remap *)

Section remap.
Context {A : Type} `{RegionHandler A}.

Lemma handle_remap_None (r : A) (p : vec3) (n : nat) :
  handle_remap r p n = Ret None ↔ handle r p = Ret None.
Proof.
  unfold handle_remap. split.
  - intros Hr. destruct (handle r p) as [[pv|]| |e]; simpl in Hr;
      try discriminate; [| reflexivity].
    destruct (setitems _ _ _); discriminate.
  - intros ->. reflexivity.
Qed.

Lemma handle_remap_NonFinite (r : A) (p : vec3) (n : nat) :
  handle r p = NonFinite → handle_remap r p n = NonFinite.
Proof. unfold handle_remap. intros ->. reflexivity. Qed.

Lemma handle_remap_Some (r : A) (p : vec3) (n : nat) (out : list R) :
  handle_remap r p n = Ret (Some out) →
  ∃ pv, handle r p = Ret (Some pv)
      ∧ setitems (zeros n) (output_channels r) pv = Ret out.
Proof.
  unfold handle_remap. intros Hr.
  destruct (handle r p) as [[pv|]| |e]; simpl in Hr; try discriminate.
  exists pv. split; [reflexivity |].
  destruct (setitems _ _ _); simpl in Hr; congruence.
Qed.

(** A successful region whose channels are in range: the gains go to the
    output channels of the region, everything else is zero. *)
Lemma handle_remap_placed (r : A) (p : vec3) (n : nat) (pv : list R) :
  handle r p = Ret (Some pv) →
  length pv = length (output_channels r) →
  Forall (λ c, (c < n)%nat) (output_channels r) →
  ∃ out, handle_remap r p n = Ret (Some out)
    ∧ length out = n
    ∧ (∀ c, c ∉ output_channels r → (c < n)%nat → out !! c = Some 0)
    ∧ (∀ i c, output_channels r !! i = Some c →
              (∀ j, (i < j)%nat → output_channels r !! j ≠ Some c) →
              out !! c = pv !! i).
Proof.
  intros Hh Hlen Hr. unfold handle_remap. rewrite Hh; simpl.
  destruct (setitems_in_range (zeros n) (output_channels r) pv Hlen)
    as (out & -> & Hl & Hout & Hin).
  { rewrite zeros_length. exact Hr. }
  exists out. split; [reflexivity |]. rewrite zeros_length in Hl.
  split; [exact Hl |]. split; [| exact Hin].
  intros c Hc Hlt. rewrite Hout by exact Hc. apply zeros_lookup, Hlt.
Qed.
End remap.

(** ** PointSourcePanner *)

Section panner.
Context {A : Type} `{RegionHandler A}.

Lemma PointSourcePanner_loop_None (regions : list A) (n : nat) (p : vec3) :
  PointSourcePanner_handle_loop regions n p = Ret None
  ↔ Forall (λ r, handle r p = Ret None) regions.
Proof.
  induction regions as [|r regions IH]; simpl.
  - split; [constructor | reflexivity].
  - split.
    + intros Hl. destruct (handle_remap r p n) as [[out|]| |e] eqn:E;
        simpl in Hl; try discriminate.
      constructor; [apply (handle_remap_None r p n), E | apply IH, Hl].
    + intros Hall. inversion Hall as [|? ? Hr Hrest]; subst.
      apply (handle_remap_None r p n) in Hr. rewrite Hr; simpl.
      apply IH, Hrest.
Qed.

(** The regions before the first one that answers are skipped. *)
Lemma PointSourcePanner_loop_skip (before : list A) (r : A) (after : list A)
    (n : nat) (p : vec3) :
  Forall (λ r, handle r p = Ret None) before →
  PointSourcePanner_handle_loop (before ++ r :: after) n p
  = PointSourcePanner_handle_loop (r :: after) n p.
Proof.
  induction 1 as [|r0 before Hr0 _ IH]; [reflexivity |].
  simpl app. cbn [PointSourcePanner_handle_loop].
  apply (handle_remap_None r0 p n) in Hr0. rewrite Hr0. simpl. exact IH.
Qed.

Lemma _num_required_channels_bound (regions : list A) (m : nat) :
  _num_required_channels regions = Ret m →
  Forall (λ r, Forall (λ c, (c < m)%nat) (output_channels r)) regions.
Proof.
  unfold _num_required_channels. intros Hm.
  apply bind_inv_Ret in Hm as (ms & Hms & Hm).
  apply bind_inv_Ret in Hm as (mx & Hmx & [= <-]).
  apply mapM_Ret in Hms. apply max_nat_Ret in Hmx.
  induction Hms as [|r k regions ms Hr _ IH]; [constructor |].
  inversion Hmx as [|? ? Hk Hmx']; subst.
  constructor; [| apply IH, Hmx'].
  apply max_nat_Ret in Hr. eapply Forall_impl; [exact Hr |].
  simpl. intros c Hc. lia.
Qed.

Lemma PointSourcePanner_init_Ret (regions : list A) (num_channels : option nat)
    (panner : PointSourcePanner A) :
  PointSourcePanner_init regions num_channels = Ret panner →
  psp_regions panner = regions
  ∧ Forall (λ r, Forall (λ c, (c < psp_num_channels panner)%nat) (output_channels r))
           regions.
Proof.
  unfold PointSourcePanner_init. intros Hi.
  apply bind_inv_Ret in Hi as (required & Hreq & Hi).
  apply _num_required_channels_bound in Hreq.
  destruct num_channels as [n|].
  - destruct (decide (required <= n)%nat) as [Hle|]; [| discriminate].
    injection Hi as <-. simpl. split; [reflexivity |].
    eapply Forall_impl; [exact Hreq |]. simpl. intros r Hr.
    eapply Forall_impl; [exact Hr |]. simpl. intros c Hc. lia.
  - injection Hi as <-. simpl. auto.
Qed.

(** C5.  A panner built by the constructor returns [None] exactly when
    every region returns [None]; otherwise the regions before the first
    one that answers are skipped and, that region returning gains [pv] of
    the size of its output channels, the panner returns a vector of length
    [num_channels] that is zero outside those channels and holds [pv[i]]
    at channel [output_channels[i]]. *)
Theorem PointSourcePanner_handle_dispatch (regions : list A)
    (num_channels : option nat) (panner : PointSourcePanner A) (p : vec3) :
  PointSourcePanner_init regions num_channels = Ret panner →
  (PointSourcePanner_handle panner p = Ret None
   ↔ Forall (λ r, handle r p = Ret None) (psp_regions panner))
  ∧ ∀ before region after pv,
      psp_regions panner = before ++ region :: after →
      Forall (λ r, handle r p = Ret None) before →
      handle region p = Ret (Some pv) →
      length pv = length (output_channels region) →
      ∃ out, PointSourcePanner_handle panner p = Ret (Some out)
        ∧ length out = psp_num_channels panner
        ∧ (∀ c, c ∉ output_channels region → (c < psp_num_channels panner)%nat →
                out !! c = Some 0)
        ∧ (∀ i c, output_channels region !! i = Some c →
                  (∀ j, (i < j)%nat → output_channels region !! j ≠ Some c) →
                  out !! c = pv !! i).
Proof.
  intros Hinit. apply PointSourcePanner_init_Ret in Hinit as [Hregs Hbound].
  split; [apply PointSourcePanner_loop_None |].
  intros before region after pv Hsplit Hbefore Hregion Hlen.
  unfold PointSourcePanner_handle. rewrite Hsplit.
  rewrite PointSourcePanner_loop_skip by exact Hbefore.
  rewrite <- Hregs, Hsplit in Hbound.
  apply Forall_app in Hbound as [_ Hbound].
  inversion Hbound as [|? ? Hr _]; subst.
  destruct (handle_remap_placed region p (psp_num_channels panner) pv Hregion Hlen Hr)
    as (out & Hout & Hprops).
  exists out. simpl. rewrite Hout. simpl. split; [reflexivity | exact Hprops].
Qed.
End panner.

(** ** VirtualNgon *)

Lemma getitem_Ret {A} (a : list A) (i : nat) (x : A) :
  getitem a i = Ret x ↔ a !! i = Some x.
Proof.
  unfold getitem. destruct (a !! i); split; intros Hx; try discriminate;
    congruence.
Qed.

Lemma VirtualNgon_region_Ret (order : list nat) (positions : list vec3)
    (centre : vec3) (n i : nat) (t : Triplet) :
  VirtualNgon_region order positions centre n i = Ret t →
  ∃ oi oj p_i p_j,
    order !! i = Some oi ∧ order !! ((i + 1) mod n)%nat = Some oj
    ∧ positions !! oi = Some p_i ∧ positions !! oj = Some p_j
    ∧ det33 (M33 p_i p_j centre) ≠ 0
    ∧ t = mk_triplet oi oj n p_i p_j centre.
Proof.
  unfold VirtualNgon_region. intros Hr.
  apply bind_inv_Ret in Hr as (oi & Hoi & Hr).
  apply bind_inv_Ret in Hr as (oj & Hoj & Hr).
  apply bind_inv_Ret in Hr as (p_i & Hpi & Hr).
  apply bind_inv_Ret in Hr as (p_j & Hpj & Hr).
  apply getitem_Ret in Hoi, Hoj, Hpi, Hpj.
  apply Triplet_init_Ret in Hr as (a & b & c & [= <- <- <-] & _ & Hd & ->).
  exists oi, oj, p_i, p_j. auto 10.
Qed.

Lemma VirtualNgon_init_Ret (nvo : list vec3 → list nat) (oc : list nat)
    (positions : list vec3) (centre : vec3) (cd : list R) (ngon : VirtualNgon) :
  VirtualNgon_init nvo oc positions centre cd = Ret ngon →
  length oc = length positions ∧ length positions = length cd
  ∧ vn_output_channels ngon = oc ∧ vn_centre_downmix ngon = cd
  ∧ vn_positions ngon = positions ∧ vn_centre_position ngon = centre
  ∧ Forall2 (λ i t, VirtualNgon_region (nvo positions) positions centre (length oc) i = Ret t)
            (seq 0 (length oc)) (vn_regions ngon).
Proof.
  unfold VirtualNgon_init.
  destruct (decide _) as [[H1 H2]|]; [| discriminate].
  intros Hi. apply bind_inv_Ret in Hi as (regions & Hregions & [= <-]).
  apply mapM_Ret in Hregions. simpl. auto 10.
Qed.

Lemma VirtualNgon_loop_None (regions : list Triplet) (cd : list R) (p : vec3) :
  VirtualNgon_handle_loop regions cd p = Ret None
  ↔ Forall (λ t, Triplet_handle t p = Ret None) regions.
Proof.
  induction regions as [|r regions IH]; simpl.
  - split; [constructor | reflexivity].
  - split.
    + intros Hl. destruct (handle_remap r p (length cd + 1)) as [[out|]| |e] eqn:E;
        simpl in Hl; try discriminate.
      * destruct (div_norm _); discriminate.
      * constructor; [| apply IH, Hl].
        change (handle r p = Ret None).
        apply (handle_remap_None r p (length cd + 1)), E.
    + intros Hall. inversion Hall as [|? ? Hr Hrest]; subst.
      change (handle r p = Ret None) in Hr.
      apply (handle_remap_None r p (length cd + 1)) in Hr. rewrite Hr; simpl.
      apply IH, Hrest.
Qed.

Lemma VirtualNgon_loop_skip (before : list Triplet) (t : Triplet)
    (after : list Triplet) (cd : list R) (p : vec3) :
  Forall (λ t, Triplet_handle t p = Ret None) before →
  VirtualNgon_handle_loop (before ++ t :: after) cd p
  = VirtualNgon_handle_loop (t :: after) cd p.
Proof.
  induction 1 as [|r0 before Hr0 _ IH]; [reflexivity |].
  simpl app. cbn [VirtualNgon_handle_loop].
  change (handle r0 p = Ret None) in Hr0.
  apply (handle_remap_None r0 p (length cd + 1)) in Hr0. rewrite Hr0. simpl. exact IH.
Qed.

Lemma entry_lookup (v : list R) (i : nat) (x : R) : v !! i = Some x → entry v i = x.
Proof. unfold entry. intros ->. reflexivity. Qed.

(** Folding the virtual channel back, entry by entry. *)
Lemma fold_centre_entries (cd v : list R) :
  length v = S (length cd) →
  fold_centre cd v
  = map (λ i, entry v i + entry v (length cd) * entry cd i) (seq 0 (length cd)).
Proof.
  intros Hl. unfold fold_centre. apply list_eq. intros i.
  rewrite lookup_zip_with.
  change (map ?f (seq 0 (length cd))) with (f <$> seq 0 (length cd)).
  change (map (Rmult (default 0 (last v))) cd) with (Rmult (default 0 (last v)) <$> cd).
  rewrite !list_lookup_fmap.
  rewrite last_lookup, Hl. simpl pred.
  replace (S (length cd) - 1)%nat with (length cd) by lia.
  destruct (decide (i < length cd)%nat) as [Hi|Hi].
  - rewrite lookup_take_lt by exact Hi.
    rewrite lookup_seq_lt by exact Hi.
    destruct (lookup_lt_is_Some_2 v i) as [x Hx]; [lia |].
    destruct (lookup_lt_is_Some_2 cd i) as [y Hy]; [lia |].
    rewrite Hx, Hy. simpl. unfold entry. rewrite Hx, Hy. reflexivity.
  - rewrite lookup_take_ge by lia.
    rewrite lookup_seq_ge by lia. reflexivity.
Qed.

(** The loop of [VirtualNgon.handle] computes what section 4.3 describes,
    for sub-triplets whose output slots are in range. *)
Lemma VirtualNgon_loop_spec (regions : list Triplet) (cd : list R) (p : vec3) :
  Forall (λ t, ∃ oi oj, tri_output_channels t = [oi; oj; length cd]
                        ∧ (oi < length cd)%nat ∧ (oj < length cd)%nat) regions →
  VirtualNgon_handle_loop regions cd p = VirtualNgon_handle_spec regions cd p.
Proof.
  induction 1 as [|t regions (oi & oj & Hoc & Hoi & Hoj) _ IH]; [reflexivity |].
  cbn [VirtualNgon_handle_loop VirtualNgon_handle_spec].
  unfold handle_remap. cbn [handle output_channels Triplet_RegionHandler].
  destruct (Triplet_handle t p) as [[g|]| |e] eqn:E; simpl; try reflexivity; [| exact IH].
  destruct (setitems (zeros (length cd + 1)) (tri_output_channels t) g)
    as [v| |e] eqn:Ev; simpl; try reflexivity.
  rewrite fold_centre_entries; [reflexivity |].
  apply setitems_length in Ev. rewrite Ev, zeros_length. lia.
Qed.

(** C4, as amended.  A VirtualNgon built by the constructor has one
    sub-triplet per [i < n], on the positions [order[i]], [order[i+1 mod n]]
    and the centre, with output slots [order[i], order[i+1 mod n], n], where
    [order] is the cyclic vertex order; [handle] tries them in order and, on
    the first success with (n+1)-vector [v], returns the L2-normalisation of
    the n-vector with entries [v[i] + v[n] * centre_downmix[i]]; it returns
    [None] exactly when every sub-triplet does. *)
Theorem VirtualNgon_handle_contract (nvo : list vec3 → list nat) (oc : list nat)
    (positions : list vec3) (centre : vec3) (cd : list R) (ngon : VirtualNgon)
    (p : vec3) :
  VirtualNgon_init nvo oc positions centre cd = Ret ngon →
  let n := length oc in
  Forall2 (λ i t, ∃ oi oj p_i p_j,
             nvo positions !! i = Some oi
             ∧ nvo positions !! ((i + 1) mod n)%nat = Some oj
             ∧ positions !! oi = Some p_i ∧ positions !! oj = Some p_j
             ∧ t = mk_triplet oi oj n p_i p_j centre)
          (seq 0 n) (vn_regions ngon)
  ∧ VirtualNgon_handle ngon p = VirtualNgon_handle_spec (vn_regions ngon) cd p
  ∧ (VirtualNgon_handle ngon p = Ret None
     ↔ Forall (λ t, Triplet_handle t p = Ret None) (vn_regions ngon)).
Proof.
  intros Hinit n.
  apply VirtualNgon_init_Ret in Hinit as (Hn1 & Hn2 & _ & Hcd & _ & _ & Hregions).
  assert (Hshape : Forall2 (λ i t, ∃ oi oj p_i p_j,
             nvo positions !! i = Some oi
             ∧ nvo positions !! ((i + 1) mod n)%nat = Some oj
             ∧ positions !! oi = Some p_i ∧ positions !! oj = Some p_j
             ∧ t = mk_triplet oi oj n p_i p_j centre)
          (seq 0 n) (vn_regions ngon)).
  { eapply Forall2_impl; [exact Hregions |]. simpl. intros i t Ht.
    apply VirtualNgon_region_Ret in Ht as (oi & oj & p_i & p_j & H1 & H2 & H3 & H4 & _ & ->).
    exists oi, oj, p_i, p_j. auto. }
  split; [exact Hshape |]. unfold VirtualNgon_handle. rewrite Hcd. split.
  - apply VirtualNgon_loop_spec.
    eapply Forall2_Forall_r; [exact Hshape |].
    apply Forall_true. intros i t (oi & oj & p_i & p_j & _ & _ & H3 & H4 & ->).
    apply lookup_lt_Some in H3, H4. exists oi, oj. simpl.
    replace (length cd) with n by (unfold n; congruence).
    unfold n. rewrite Hn1. auto.
  - apply VirtualNgon_loop_None.
Qed.

(** ** Evaluating a triplet at a given position *)

Lemma mk_triplet_coords (o0 o1 o2 : nat) (a b c p q : vec3) :
  det33 (M33 a b c) ≠ 0 → vecmat q (M33 a b c) = p →
  vecmat p (tri_basis (mk_triplet o0 o1 o2 a b c)) = q.
Proof. intros Hd Hq. simpl. apply inv33_unique; assumption. Qed.

Lemma Triplet_handle_accept (t : Triplet) (p q : vec3) (n : R) :
  vecmat p (tri_basis t) = q → tolerated q → norm (vec3_list q) = n → n ≠ 0 →
  Triplet_handle t p = Ret (Some (map (clip 0 1) (map (λ x, x / n) (vec3_list q)))).
Proof.
  intros Hq Ht Hn Hn0. rewrite Triplet_handle_tolerated by (rewrite Hq; exact Ht).
  rewrite Hq, div_norm_nonzero by (rewrite Hn; exact Hn0). rewrite Hn. reflexivity.
Qed.


(** No triplet checks for the zero position: its coordinates are all zero,
    they pass the test, and the division by their norm is a division by
    zero. *)
Lemma Triplet_handle_zero (t : Triplet) : Triplet_handle t vzero = NonFinite.
Proof.
  rewrite Triplet_handle_tolerated.
  - rewrite vecmat_zero. rewrite div_norm_zero; [reflexivity |].
    apply norm_of_zeros. repeat constructor.
  - rewrite vecmat_zero. unfold tolerated, triplet_epsilon, vzero; simpl. lra.
Qed.

Ltac det_nonzero :=
  unfold det33, dot3, cross, L0, L1, L2, L3, U0, U1, U2, U3, R0, R1, R2, R3, R4,
    mirror, nadir, zenith; simpl; lra.

Ltac vec3_calc :=
  apply vec3_eq;
  unfold vecmat, vadd, vscale, L0, L1, L2, L3, U0, U1, U2, U3, R0, R1, R2, R3, R4,
    mirror, nadir, zenith; simpl; lra.

(** The norm of an array whose squares sum to [x * x]. *)
Ltac norm_is x :=
  unfold norm, sum_sq; simpl;
  match goal with |- sqrt ?s = _ => replace s with (x * x) by lra end;
  apply sqrt_square; lra.

Lemma sqrt_INR_4 : sqrt (INR 4) = 2.
Proof. replace (INR 4) with (2 * 2) by (simpl; lra). apply sqrt_square. lra. Qed.

Lemma half4_eq : half4 = [1 / 2; 1 / 2; 1 / 2; 1 / 2].
Proof. unfold half4. rewrite sqrt_INR_4. reflexivity. Qed.

(** One step of the loop of [VirtualNgon.handle]. *)
Lemma VirtualNgon_loop_accept (t : Triplet) (rest : list Triplet) (cd : list R)
    (p : vec3) (g v w : list R) (n : R) :
  Triplet_handle t p = Ret (Some g) →
  setitems (zeros (length cd + 1)) (tri_output_channels t) g = Ret v →
  fold_centre cd v = w → norm w = n → n ≠ 0 →
  VirtualNgon_handle_loop (t :: rest) cd p = Ret (Some (map (λ x, x / n) w)).
Proof.
  intros Hg Hv Hw Hn Hn0. cbn [VirtualNgon_handle_loop]. unfold handle_remap.
  cbn [handle output_channels Triplet_RegionHandler].
  rewrite Hg, bind_Ret, Hv, !bind_Ret, Hw.
  rewrite div_norm_nonzero by (rewrite Hn; exact Hn0). rewrite Hn. reflexivity.
Qed.


Lemma VirtualNgon_spec_accept (t : Triplet) (rest : list Triplet) (cd : list R)
    (p : vec3) (g v w : list R) (n : R) :
  Triplet_handle t p = Ret (Some g) →
  setitems (zeros (length cd + 1)) (tri_output_channels t) g = Ret v →
  map (λ i, entry v i + entry v (length cd) * entry cd i) (seq 0 (length cd)) = w →
  norm w = n → n ≠ 0 →
  VirtualNgon_handle_spec (t :: rest) cd p = Ret (Some (map (λ x, x / n) w)).
Proof.
  intros Hg Hv Hw Hn Hn0. cbn [VirtualNgon_handle_spec].
  rewrite Hg, bind_Ret, Hv, !bind_Ret, Hw.
  rewrite div_norm_nonzero by (rewrite Hn; exact Hn0). rewrite Hn. reflexivity.
Qed.

Lemma ngon_zigzag_init :
  VirtualNgon_init (λ _, [0; 2; 1; 3]%nat) [0; 1; 2; 3]%nat [L0; L2; L1; L3] nadir half4
  = Ret ngon_zigzag.
Proof.
  unfold VirtualNgon_init. rewrite decide_True by (simpl; lia).
  erewrite mapM_Ret_2; [reflexivity |].
  repeat constructor; unfold VirtualNgon_region; simpl;
    apply Triplet_init_ok; det_nonzero.
Qed.

Lemma VirtualNgon_handle_contract_witness :
  VirtualNgon_handle ngon_zigzag L1
  = VirtualNgon_handle_spec (vn_regions ngon_zigzag) half4 L1.
Proof.
  exact (proj1 (proj2 (VirtualNgon_handle_contract _ _ _ _ _ _ L1 ngon_zigzag_init))).
Defined.

(** C4, as stated, fails when the vertex order is not the identity.  The
    four lower loudspeakers are listed as [L0, L2, L1, L3], so the cyclic
    order is [0, 2, 1, 3].  For the position of the loudspeaker at index 2
    the code returns [0, 0, 1, 0]; with output slots [i, i+1 mod n, n] the
    first sub-triplet would put the gain at index 1, the opposite
    loudspeaker. *)
Lemma VirtualNgon_slots_counterexample :
  VirtualNgon_init (λ _, [0; 2; 1; 3]%nat) [0; 1; 2; 3]%nat [L0; L2; L1; L3] nadir half4
  = Ret ngon_zigzag
  ∧ mapM (VirtualNgon_region_spec [0; 2; 1; 3]%nat [L0; L2; L1; L3] nadir 4)
         (seq 0 4) = Ret (vn_regions ngon_lower)
  ∧ VirtualNgon_handle ngon_zigzag L1 = Ret (Some [0; 0; 1; 0])
  ∧ VirtualNgon_handle_spec (vn_regions ngon_lower) half4 L1 = Ret (Some [0; 1; 0; 0]).
Proof.
  assert (Hq : ∀ o0 o1 o2, Triplet_handle (mk_triplet o0 o1 o2 L0 L1 nadir) L1
                           = Ret (Some [0; 1; 0])).
  { intros o0 o1 o2.
    rewrite (Triplet_handle_accept _ L1 e_y 1).
    - unfold vec3_list, e_y; simpl. entrywise; clip_eval.
    - apply mk_triplet_coords; [det_nonzero | unfold e_y; vec3_calc].
    - unfold tolerated, triplet_epsilon, e_y; simpl. lra.
    - unfold e_y, vec3_list; simpl. norm_is 1.
    - lra. }
  split; [exact ngon_zigzag_init |]. split; [| split].
  - apply mapM_Ret_2.
    repeat constructor; unfold VirtualNgon_region_spec; simpl;
      apply Triplet_init_ok; det_nonzero.
  - unfold VirtualNgon_handle, ngon_zigzag. cbn [vn_regions vn_centre_downmix].
    rewrite half4_eq.
    rewrite (VirtualNgon_loop_accept _ _ _ L1 [0; 1; 0] [0; 0; 1; 0; 0] [0; 0; 1; 0] 1).
    + simpl. entrywise; lra.
    + apply Hq.
    + reflexivity.
    + unfold fold_centre; simpl. entrywise; lra.
    + norm_is 1.
    + lra.
  - cbn [ngon_lower vn_regions]. rewrite half4_eq.
    rewrite (VirtualNgon_spec_accept _ _ _ L1 [0; 1; 0] [0; 1; 0; 0; 0] [0; 1; 0; 0] 1).
    + simpl. entrywise; lra.
    + apply Hq.
    + reflexivity.
    + unfold entry; simpl. entrywise; lra.
    + norm_is 1.
    + lra.
Qed.

(** ** QuadRegion *)

(** The loop of the pan function returns the first accepted root. *)
Lemma pan_axis_loop_first (rs : list complex) :
  pan_axis_loop rs
  = match list_find root_accepted rs with
    | Some (_, root) => Some (clip 0 1 (re root))
    | None => None
    end.
Proof.
  induction rs as [|root rs IH]; [reflexivity |].
  cbn [pan_axis_loop list_find].
  destruct (decide (root_accepted root)) as [Ha|Hn].
  - destruct Ha as (H1 & H2 & H3).
    unfold quad_epsillon. rewrite !bool_decide_eq_true_2 by assumption. reflexivity.
  - rewrite IH. destruct (list_find root_accepted rs) as [[k r]|]; simpl.
    + destruct (bool_decide _ && (bool_decide _ && bool_decide _)) eqn:E; [| reflexivity].
      exfalso. apply Hn.
      apply andb_prop in E as [E1 E]. apply andb_prop in E as [E2 E3].
      apply bool_decide_eq_true_1 in E1, E2, E3. repeat split; assumption.
    + destruct (bool_decide _ && (bool_decide _ && bool_decide _)) eqn:E; [| reflexivity].
      exfalso. apply Hn.
      apply andb_prop in E as [E1 E]. apply andb_prop in E as [E2 E3].
      apply bool_decide_eq_true_1 in E1, E2, E3. repeat split; assumption.
Qed.

Lemma pan_axis_loop_range (rs : list complex) (t : R) :
  pan_axis_loop rs = Some t → 0 <= t <= 1.
Proof.
  rewrite pan_axis_loop_first.
  destruct (list_find _ _) as [[k r]|]; [| discriminate].
  intros [= <-]. apply clip_range.
Qed.

Lemma pan_axis_Ret (roots : list R → list complex) (spk : list vec3)
    (f : vec3 → option R) :
  pan_axis roots spk = Ret f →
  ∃ a b c d, spk = [a; b; c; d] ∧ ∀ p, f p = pan_parameter_spec roots a b c d p.
Proof.
  unfold pan_axis.
  destruct spk as [|a [|b [|c [|d [|]]]]]; try discriminate.
  intros [= <-]. exists a, b, c, d. split; [reflexivity |].
  intros p. unfold pan_parameter_spec. apply pan_axis_loop_first.
Qed.

Lemma take_items_Ret {A} (a : list A) (idx : list nat) (xs : list A) :
  take_items a idx = Ret xs → Forall2 (λ i x, a !! i = Some x) idx xs.
Proof.
  intros Hx. apply mapM_Ret in Hx.
  eapply Forall2_impl; [exact Hx |]. simpl. intros i x. apply getitem_Ret.
Qed.

Lemma lincomb_zeros (w : list R) (positions : list vec3) :
  Forall (λ x, x = 0) w → lincomb w positions = vzero.
Proof.
  intros Hw. revert positions. induction Hw as [|x w -> _ IH]; intros positions.
  - reflexivity.
  - destruct positions as [|q positions]; [reflexivity |].
    unfold lincomb in *. simpl. rewrite IH.
    destruct q as [q1 q2 q3]. apply vec3_eq; unfold vadd, vscale, vzero; simpl; ring.
Qed.

Lemma dot3_zero_l (p : vec3) : dot3 vzero p = 0.
Proof. unfold dot3, vzero; simpl. ring. Qed.

Lemma QuadRegion_init_Ret (roots : list R → list complex)
    (nvo : list vec3 → list nat) (oc : list nat) (positions : list vec3)
    (q : QuadRegion) :
  QuadRegion_init roots nvo oc positions = Ret q →
  ∃ o0 o1 o2 o3 a b c d,
    quad_order q = [o0; o1; o2; o3] ∧ nvo positions = [o0; o1; o2; o3]
    ∧ positions !! o0 = Some a ∧ positions !! o1 = Some b
    ∧ positions !! o2 = Some c ∧ positions !! o3 = Some d
    ∧ length oc = 4%nat ∧ length positions = 4%nat
    ∧ quad_output_channels q = oc ∧ quad_positions q = positions
    ∧ (∀ p, quad_pan_x q p = pan_parameter_spec roots a b c d p)
    ∧ (∀ p, quad_pan_y q p = pan_parameter_spec roots b c d a p).
Proof.
  unfold QuadRegion_init.
  destruct (decide _) as [[Hoc Hpos]|]; [| discriminate].
  intros Hi.
  apply bind_inv_Ret in Hi as (ordered & Hordered & Hi).
  apply bind_inv_Ret in Hi as (pan_x & Hx & Hi).
  apply bind_inv_Ret in Hi as (rotated & Hrot & Hi).
  apply bind_inv_Ret in Hi as (pan_y & Hy & [= <-]).
  apply pan_axis_Ret in Hx as (a & b & c & d & -> & Hx).
  apply take_items_Ret in Hordered as Hord.
  destruct (nvo positions) as [|o0 [|o1 [|o2 [|o3 [|]]]]] eqn:Hnvo;
    try (apply Forall2_length in Hord; discriminate).
  inversion Hord as [|? ? ? ? Ha Hord1]; subst.
  inversion Hord1 as [|? ? ? ? Hb Hord2]; subst.
  inversion Hord2 as [|? ? ? ? Hc Hord3]; subst.
  inversion Hord3 as [|? ? ? ? Hd _]; subst.
  simpl in Hrot. injection Hrot as <-.
  apply pan_axis_Ret in Hy as (a' & b' & c' & d' & [= <- <- <- <-] & Hy).
  exists o0, o1, o2, o3, a, b, c, d. cbn. auto 15.
Qed.

(** C3.  For a quad built by the constructor, with ordered vertices
    [a, b, c, d] (the positions at the four indices of the vertex order):
    the pan functions are the first accepted root of the quadratic
    [P(t) . p] for [a, b, c, d] and for the rotation [b, c, d, a], clipped to
    [0, 1]; [handle] returns [None] when either is missing; otherwise the
    bilinear gains are placed at the ordered indices, the result is [None]
    when [g . positions . p <= 0] and the L2-normalised gains when it is
    positive (the norm is then not zero). *)
Theorem QuadRegion_handle_contract (roots : list R → list complex)
    (nvo : list vec3 → list nat) (oc : list nat) (positions : list vec3)
    (q : QuadRegion) (p : vec3) :
  QuadRegion_init roots nvo oc positions = Ret q →
  ∃ o0 o1 o2 o3 a b c d,
    quad_order q = [o0; o1; o2; o3] ∧ nvo positions = [o0; o1; o2; o3]
    ∧ positions !! o0 = Some a ∧ positions !! o1 = Some b
    ∧ positions !! o2 = Some c ∧ positions !! o3 = Some d
    ∧ quad_pan_x q p = pan_parameter_spec roots a b c d p
    ∧ quad_pan_y q p = pan_parameter_spec roots b c d a p
    ∧ (quad_pan_x q p = None ∨ quad_pan_y q p = None →
       QuadRegion_handle q p = Ret None)
    ∧ ∀ x y, quad_pan_x q p = Some x → quad_pan_y q p = Some y →
        0 <= x <= 1 ∧ 0 <= y <= 1
        ∧ ∃ g, setitems (zeros 4) [o0; o1; o2; o3] (bilinear_gains x y) = Ret g
          ∧ length g = 4%nat
          ∧ (∀ k ch, [o0; o1; o2; o3] !! k = Some ch →
                     (∀ j, (k < j)%nat → [o0; o1; o2; o3] !! j ≠ Some ch) →
                     g !! ch = bilinear_gains x y !! k)
          ∧ (dot3 (lincomb g positions) p <= 0 → QuadRegion_handle q p = Ret None)
          ∧ (0 < dot3 (lincomb g positions) p →
             norm g ≠ 0
             ∧ QuadRegion_handle q p = Ret (Some (map (λ v, v / norm g) g))).
Proof.
  intros Hinit.
  apply QuadRegion_init_Ret in Hinit
    as (o0 & o1 & o2 & o3 & a & b & c & d & Hord & Hnvo & Ha & Hb & Hc & Hd
        & Hoc & Hpos & _ & Hqpos & Hx & Hy).
  exists o0, o1, o2, o3, a, b, c, d.
  split; [exact Hord |]. split; [exact Hnvo |].
  do 4 (split; [assumption |]).
  split; [apply Hx |]. split; [apply Hy |]. split.
  - unfold QuadRegion_handle.
    intros [-> | ->]; [reflexivity |]. destruct (quad_pan_x q p); reflexivity.
  - intros x y Hpx Hpy.
    assert (Hxr : 0 <= x <= 1).
    { rewrite Hx in Hpx. unfold pan_parameter_spec in Hpx.
      destruct (list_find _ _) as [[k r]|]; [| discriminate].
      injection Hpx as <-. apply clip_range. }
    assert (Hyr : 0 <= y <= 1).
    { rewrite Hy in Hpy. unfold pan_parameter_spec in Hpy.
      destruct (list_find _ _) as [[k r]|]; [| discriminate].
      injection Hpy as <-. apply clip_range. }
    split; [exact Hxr |]. split; [exact Hyr |].
    destruct (setitems_in_range (zeros 4) [o0; o1; o2; o3] (bilinear_gains x y))
      as (g & Hg & Hlen & _ & Hentries).
    { reflexivity. }
    { rewrite zeros_length.
      apply lookup_lt_Some in Ha, Hb, Hc, Hd. rewrite Hpos in Ha, Hb, Hc, Hd.
      repeat (apply Forall_cons_2; [assumption |]). apply Forall_nil_2. }
    exists g. split; [exact Hg |]. rewrite zeros_length in Hlen.
    split; [exact Hlen |]. split; [exact Hentries |].
    unfold QuadRegion_handle. rewrite Hpx, Hpy, Hord, Hqpos.
    fold (bilinear_gains x y). rewrite Hg, bind_Ret. split.
    + intros Hle. rewrite bool_decide_eq_true_2 by exact Hle. reflexivity.
    + intros Hlt. rewrite bool_decide_eq_false_2 by lra.
      assert (Hn : norm g ≠ 0).
      { intros Hz. apply norm_zero in Hz.
        rewrite (lincomb_zeros g positions Hz), dot3_zero_l in Hlt. lra. }
      split; [exact Hn |]. rewrite div_norm_nonzero by exact Hn. reflexivity.
Qed.

Lemma quad_upper_init :
  QuadRegion_init roots_closed_form (λ _, [0; 1; 2; 3]%nat) [4; 5; 6; 7]%nat
                  [U0; U1; U2; U3] = Ret quad_upper.
Proof. reflexivity. Qed.

Lemma QuadRegion_handle_contract_witness :
  QuadRegion_init roots_closed_form (λ _, [0; 1; 2; 3]%nat) [4; 5; 6; 7]%nat
                  [U0; U1; U2; U3] = Ret quad_upper
  ∧ ∃ a b c d, quad_pan_x quad_upper zenith
               = pan_parameter_spec roots_closed_form a b c d zenith.
Proof.
  split; [exact quad_upper_init |].
  destruct (QuadRegion_handle_contract _ _ _ _ _ zenith quad_upper_init)
    as (o0 & o1 & o2 & o3 & a & b & c & d & _ & _ & _ & _ & _ & _ & Hx & _).
  exists a, b, c, d. exact Hx.
Defined.

(** The square of upper loudspeakers at the zenith: both pan parameters are
    1/2 and the four gains are equal. *)
Example quad_upper_zenith :
  QuadRegion_handle quad_upper zenith = Ret (Some [1 / 2; 1 / 2; 1 / 2; 1 / 2]).
Proof.
  assert (Hroots : ∀ c1 c2 c3, c1 = 0 → c2 = 16 / 9 → c3 = - 8 / 9 →
            pan_axis_loop (roots_closed_form [c1; c2; c3]) = Some (1 / 2)).
  { intros c1 c2 c3 -> -> ->. unfold roots_closed_form.
    rewrite decide_True by reflexivity. rewrite decide_False by lra.
    cbn [pan_axis_loop re im]. unfold quad_epsillon.
    rewrite Rabs_R0.
    rewrite !bool_decide_eq_true_2 by lra. simpl. f_equal. clip_eval. }
  unfold QuadRegion_handle. cbn [quad_pan_x quad_pan_y quad_upper quad_order quad_positions].
  unfold pan_axis_poly. cbn [map].
  rewrite !Hroots;
    try (unfold dot3, cross, vadd, vsub, U0, U1, U2, U3, zenith; simpl; lra).
  replace [(1 - 1 / 2) * (1 - 1 / 2); 1 / 2 * (1 - 1 / 2); 1 / 2 * (1 / 2);
           (1 - 1 / 2) * (1 / 2)] with [1 / 4; 1 / 4; 1 / 4; 1 / 4]
    by (entrywise; lra).
  change (setitems (zeros 4) [0; 1; 2; 3]%nat [1 / 4; 1 / 4; 1 / 4; 1 / 4])
    with (Ret [1 / 4; 1 / 4; 1 / 4; 1 / 4]).
  rewrite bind_Ret.
  rewrite bool_decide_eq_false_2
    by (unfold lincomb, dot3, vadd, vscale, vzero, U0, U1, U2, U3, zenith; simpl; lra).
  assert (Hn : norm [1 / 4; 1 / 4; 1 / 4; 1 / 4] = 1 / 2) by norm_is (1 / 2).
  rewrite div_norm_nonzero by (rewrite Hn; lra). rewrite Hn. simpl.
  entrywise; lra.
Qed.

Lemma PointSourcePanner_handle_dispatch_witness :
  PointSourcePanner_init [tri_id] None = Ret psp_tri_id
  ∧ (PointSourcePanner_handle psp_tri_id e_x = Ret None
     ↔ Forall (λ r, handle r e_x = Ret None) (psp_regions psp_tri_id)).
Proof.
  assert (H : PointSourcePanner_init [tri_id] None = Ret psp_tri_id) by reflexivity.
  split; [exact H |].
  exact (proj1 (PointSourcePanner_handle_dispatch [tri_id] None psp_tri_id e_x H)).
Defined.

(** ** extra_pos_vertical_nominal *)

Lemma list_max_R_spec (x : R) (xs : list R) :
  list_max_R x xs ∈ x :: xs ∧ Forall (λ y, y <= list_max_R x xs) (x :: xs).
Proof.
  unfold list_max_R. revert x. induction xs as [|y xs IH]; intros x; simpl.
  - split; [left | repeat constructor; lra].
  - destruct (IH (Rmax x y)) as [Hin Hall].
    inversion Hall as [|? ? Hm Hrest]; subst. split.
    + apply elem_of_cons in Hin as [-> | Hin].
      * unfold Rmax. destruct (Rle_dec x y); [right; left | left].
      * right; right. exact Hin.
    + pose proof (Rmax_l x y). pose proof (Rmax_r x y).
      constructor; [lra |]. constructor; [lra | exact Hrest].
Qed.

Lemma layer_limits_spec (layer_nominal_el layer_lb layer_ub : R) (pos : list pos_rec) :
  is_layer_limits layer_nominal_el layer_lb layer_ub pos
    (layer_limits layer_nominal_el layer_lb layer_ub pos).1
    (layer_limits layer_nominal_el layer_lb layer_ub pos).2.
Proof.
  unfold is_layer_limits, layer_limits.
  destruct (filter (el_between layer_lb layer_ub) pos) as [|q qs]; [left; auto |].
  right. simpl. split; [discriminate |].
  destruct (list_max_R_spec (Rabs (nominal_az q)) (map (λ q0, Rabs (nominal_az q0)) qs))
    as [Hin Hall].
  split; [| split; [| reflexivity]].
  - apply elem_of_cons in Hin as [Hq | Hin].
    + exists q. split; [left | rewrite Hq; reflexivity].
    + apply list_elem_of_fmap in Hin as (q' & Hq' & Hin').
      exists q'. split; [right; exact Hin' | rewrite Hq'; reflexivity].
  - intros q' Hq'. apply Rplus_le_compat_r.
    inversion Hall as [|? ? Hh Ht]; subst.
    apply elem_of_cons in Hq' as [-> | Hq']; [exact Hh |].
    rewrite Forall_forall in Ht. apply Ht.
    apply list_elem_of_fmap. exists q'. auto.
Qed.

(** The inner loop appends, in order, one extra channel and one downmix row
    for each selected mid-layer channel. *)
Lemma extra_mid_loop_spec (n : nat) (az_limit layer_real_el layer_nominal_el : R)
    (mids : list (nat * pos_rec)) (st : list Channel * list (list R)) :
  extra_mid_loop n az_limit layer_real_el layer_nominal_el mids st
  = (st.1 ++ map (λ ip, extra_channel ip.2 layer_real_el layer_nominal_el)
                 (filter (λ ip, Rabs (nominal_az ip.2) >= az_limit - 1e-5) mids),
     st.2 ++ map (λ ip, downmix_row n ip.1)
                 (filter (λ ip, Rabs (nominal_az ip.2) >= az_limit - 1e-5) mids)).
Proof.
  revert st. induction mids as [|[c q] mids IH]; intros [extras rows].
  - simpl. rewrite !app_nil_r. reflexivity.
  - cbn [extra_mid_loop]. rewrite IH. unfold extra_epsilon.
    rewrite filter_cons. simpl.
    destruct (decide (Rabs (nominal_az q) >= az_limit - 1e-5)); simpl.
    + rewrite <- !app_assoc. reflexivity.
    + reflexivity.
Qed.

Lemma where_zip_elem (mask : pos_rec → Prop) `{∀ q, Decision (mask q)}
    (pos : list pos_rec) (i : nat) (q : pos_rec) :
  (i, q) ∈ where_zip mask pos ↔ pos !! i = Some q ∧ mask q.
Proof.
  unfold where_zip. rewrite list_elem_of_filter. simpl.
  rewrite elem_of_lookup_imap. split.
  - intros (Hm & j & y & [= -> ->] & Hl). auto.
  - intros (Hl & Hm). split; [exact Hm |]. exists i, q. auto.
Qed.




Lemma transpose_shape (n : nat) (rows : list (list R)) :
  length (transpose n rows) = n
  ∧ Forall (λ row, length row = length rows) (transpose n rows).
Proof.
  unfold transpose. split.
  - rewrite length_map, length_seq. reflexivity.
  - apply Forall_forall. intros row Hrow.
    apply list_elem_of_fmap in Hrow as (i & -> & _). apply length_map.
Qed.


(** ** The configuration *)

Lemma _adjacent_verts_spec (facets : list (gset nat)) (vert : nat) (adjacent : gset nat) :
  _adjacent_verts facets vert = Ret adjacent →
  ∀ x, x ∈ adjacent ↔ x ≠ vert ∧ ∃ facet, facet ∈ facets ∧ vert ∈ facet ∧ x ∈ facet.
Proof.
  unfold _adjacent_verts.
  destruct (filter (λ fv, vert ∈ fv) facets) as [|f fs] eqn:Ef; [discriminate |].
  intros [= <-] x.
  change (f ∖ {[vert]} ∪ ⋃ map (λ fv : gset nat, fv ∖ {[vert]}) fs)
    with (⋃ map (λ fv : gset nat, fv ∖ {[vert]}) (f :: fs)).
  rewrite <- Ef. clear Ef f fs.
  rewrite elem_of_difference, elem_of_union_list, not_elem_of_singleton. split.
  - intros [(X & HX & Hx) Hne]. split; [exact Hne |].
    apply list_elem_of_fmap in HX as (facet & -> & Hf).
    apply list_elem_of_filter in Hf as [Hv Hf].
    exists facet. rewrite elem_of_difference in Hx. tauto.
  - intros [Hne (facet & Hf & Hv & Hx)]. split; [| exact Hne].
    exists (facet ∖ {[vert]}). split.
    + apply list_elem_of_fmap. exists facet. split; [reflexivity |].
      apply list_elem_of_filter. auto.
    + rewrite elem_of_difference, not_elem_of_singleton. auto.
Qed.

Lemma virtual_ngon_region_Ret (nvo : list vec3 → list nat) (set_iter : gset nat → list nat)
    (positions_real : list vec3) (facets : list (gset nat)) (virtual_verts : list nat)
    (virtual_vert : nat) (region : Region) :
  virtual_ngon_region nvo set_iter positions_real facets virtual_verts virtual_vert
  = Ret region →
  ∃ adjacent positions centre ngon,
    _adjacent_verts facets virtual_vert = Ret adjacent
    ∧ list_to_set (set_iter adjacent) ∩ list_to_set virtual_verts = (∅ : gset nat)
    ∧ take_items positions_real (set_iter adjacent) = Ret positions
    ∧ positions_real !! virtual_vert = Some centre
    ∧ VirtualNgon_init nvo (set_iter adjacent) positions centre
        (replicate (length (set_iter adjacent))
                   (1 / sqrt (INR (length (set_iter adjacent))))) = Ret ngon
    ∧ region = RNgon ngon.
Proof.
  unfold virtual_ngon_region. intros Hr.
  apply bind_inv_Ret in Hr as (adjacent & Hadj & Hr).
  destruct (decide _) as [Hdisj|]; [| discriminate].
  apply bind_inv_Ret in Hr as (positions & Hpos & Hr).
  apply bind_inv_Ret in Hr as (centre & Hc & Hr).
  apply bind_inv_Ret in Hr as (ngon & Hngon & [= <-]).
  apply getitem_Ret in Hc.
  exists adjacent, positions, centre, ngon. auto 10.
Qed.

Lemma _configure_full_Ret (roots : list R → list complex) (nvo : list vec3 → list nat)
    (ConvexHull : list vec3 → outcome Hull) (nominal_position norm_position : Channel → vec3)
    (set_iter : gset nat → list nat) (layout : Layout) (pspd : PointSourcePannerDownmix) :
  _configure_full roots nvo ConvexHull nominal_position norm_position set_iter layout
  = Ret pspd →
  let extras := (extra_pos_vertical_nominal layout).1 in
  let all_channels := channels layout ++ extras in
  let positions_real := map norm_position all_channels ++ virtual_positions layout in
  let virtual_verts :=
    map (λ k, length all_channels + k)%nat (seq 0 (length (virtual_positions layout))) in
  ∃ facets ngons others,
    _convex_hull_facets ConvexHull
      (map nominal_position all_channels ++ virtual_positions layout) = Ret facets
    ∧ mapM (virtual_ngon_region nvo set_iter positions_real facets virtual_verts)
           virtual_verts = Ret ngons
    ∧ mapM (facet_region roots nvo set_iter positions_real virtual_verts) facets
      = Ret others
    ∧ PointSourcePanner_init (ngons ++ omap (λ region, region) others) None
      = Ret (pspd_psp pspd)
    ∧ pspd_downmix pspd = (extra_pos_vertical_nominal layout).2.
Proof.
  unfold _configure_full.
  destruct (extra_pos_vertical_nominal layout) as [extras downmix].
  cbn [fst snd]. intros Hc.
  apply bind_inv_Ret in Hc as (facets & Hf & Hc).
  apply bind_inv_Ret in Hc as (ngons & Hn & Hc).
  apply bind_inv_Ret in Hc as (others & Ho & Hc).
  apply bind_inv_Ret in Hc as (psp & Hp & [= <-]).
  exists facets, ngons, others. auto.
Qed.

Lemma virtual_positions_spec (layout : Layout) :
  virtual_positions layout !! 0%nat = Some (V3 0 0 (-1))
  ∧ (V3 0 0 1 ∈ virtual_positions layout
     ↔ ¬ ("T+000" ∈ channel_names layout ∨ "UH+180" ∈ channel_names layout))
  ∧ (∀ v, v ∈ virtual_positions layout → v = V3 0 0 (-1) ∨ v = V3 0 0 1).
Proof.
  unfold virtual_positions. split; [reflexivity |].
  destruct (decide _) as [Hin|Hnot]; split.
  - split; [| tauto]. intros Hel. apply elem_of_cons in Hel as [Heq | Hel].
    + injection Heq. lra.
    + apply elem_of_nil in Hel as [].
  - intros v Hv. apply elem_of_cons in Hv as [-> | Hv]; [auto |].
    apply elem_of_nil in Hv as [].
  - split; [intros _; exact Hnot |]. intros _. right. left.
  - intros v Hv. apply elem_of_cons in Hv as [-> | Hv]; [auto |].
    apply elem_of_cons in Hv as [-> | Hv]; [auto |].
    apply elem_of_nil in Hv as [].
Qed.

(** C6.  For a layout not named 0+2+0 on which [configure] succeeds, with
    Python sets iterated without repetition: no channel is an LFE; the first
    virtual apex is (0, 0, -1), and (0, 0, 1) is one exactly when neither
    T+000 nor UH+180 is a channel name; the k-th region of the panner is a
    VirtualNgon for the k-th apex, centred on it, whose output channels are
    the vertices that share a hull facet with the apex (all of them real
    channels) and whose centre_downmix holds 1/sqrt(n) n times, n being the
    number of those vertices. *)
Theorem configure_virtual_apexes (roots : list R → list complex)
    (nvo : list vec3 → list nat) (ConvexHull : list vec3 → outcome Hull)
    (nominal_position norm_position : Channel → vec3)
    (set_iter : gset nat → list nat) (bs2051_0_5_0 layout : Layout) (panner : Panner) :
  (∀ s, set_iter s ≡ₚ elements s) →
  layout_name layout ≠ "0+2+0" →
  configure roots nvo ConvexHull nominal_position norm_position set_iter bs2051_0_5_0
            layout = Ret panner →
  let all_channels := channels layout ++ (extra_pos_vertical_nominal layout).1 in
  let N := length all_channels in
  Forall (λ channel, is_lfe channel = false) (channels layout)
  ∧ virtual_positions layout !! 0%nat = Some (V3 0 0 (-1))
  ∧ (V3 0 0 1 ∈ virtual_positions layout
     ↔ ¬ ("T+000" ∈ channel_names layout ∨ "UH+180" ∈ channel_names layout))
  ∧ ∃ pspd facets,
      panner = FullPanner pspd
      ∧ _convex_hull_facets ConvexHull
          (map nominal_position all_channels ++ virtual_positions layout) = Ret facets
      ∧ ∀ k apex, virtual_positions layout !! k = Some apex →
          ∃ (ngon : VirtualNgon) (adjacent : gset nat),
            psp_regions (pspd_psp pspd) !! k = Some (RNgon ngon)
            ∧ (∀ x, x ∈ adjacent
                    ↔ x ≠ (N + k)%nat
                      ∧ ∃ facet, facet ∈ facets ∧ (N + k)%nat ∈ facet ∧ x ∈ facet)
            ∧ (∀ x, x ∈ adjacent → (x < N)%nat)
            ∧ (∀ x, x ∈ vn_output_channels ngon ↔ x ∈ adjacent)
            ∧ length (vn_output_channels ngon) = size adjacent
            ∧ vn_centre_position ngon = apex
            ∧ vn_centre_downmix ngon
              = replicate (size adjacent) (1 / sqrt (INR (size adjacent))).
Proof.
  intros Hiter Hname Hconf all_channels N. unfold configure in Hconf.
  destruct (decide (Exists _ _)) as [|Hlfe]; [discriminate |].
  rewrite decide_False in Hconf by exact Hname.
  apply fmap_inv_Ret in Hconf as (pspd & Hfull & ->).
  split.
  { apply Forall_forall. intros channel Hin.
    destruct (is_lfe channel) eqn:E; [| reflexivity].
    exfalso. apply Hlfe, Exists_exists. eauto. }
  destruct (virtual_positions_spec layout) as (Hnadir & Hzenith & _).
  split; [exact Hnadir |]. split; [exact Hzenith |].
  apply _configure_full_Ret in Hfull as (facets & ngons & others & Hf & Hn & _ & Hp & _).
  cbn zeta in Hf, Hn. fold all_channels in Hf, Hn. fold N in Hn.
  exists pspd, facets. split; [reflexivity |]. split; [exact Hf |].
  intros k apex Hk.
  apply PointSourcePanner_init_Ret in Hp as [Hregions _].
  apply mapM_Ret in Hn.
  assert (Hkv : map (λ k0, (N + k0)%nat) (seq 0 (length (virtual_positions layout))) !! k
                = Some (N + k)%nat).
  { change (map ?f ?l) with (f <$> l).
    rewrite list_lookup_fmap, lookup_seq_lt by (apply lookup_lt_Some in Hk; exact Hk).
    reflexivity. }
  destruct (Forall2_lookup_l _ _ _ _ _ Hn Hkv) as (region & Hregion & Hr).
  apply virtual_ngon_region_Ret in Hr
    as (adjacent & positions & centre & ngon & Hadj & Hdisj & Hpos & Hc & Hinit & ->).
  apply VirtualNgon_init_Ret in Hinit as (_ & _ & Hoc & Hcd & _ & Hcen & _).
  assert (Hmem : ∀ x, x ∈ set_iter adjacent ↔ x ∈ adjacent).
  { intros x. rewrite (Hiter adjacent). apply elem_of_elements. }
  assert (Hlen : length (set_iter adjacent) = size adjacent).
  { rewrite (Hiter adjacent). reflexivity. }
  exists ngon, adjacent. split; [| split; [| split; [| split; [| split; [| split]]]]].
  - rewrite Hregions. apply lookup_app_l_Some. exact Hregion.
  - apply _adjacent_verts_spec, Hadj.
  - intros x Hx. apply Hmem in Hx.
    destruct (decide (x < N)%nat) as [Hlt|Hge]; [exact Hlt | exfalso].
    apply take_items_Ret in Hpos.
    apply list_elem_of_lookup in Hx as (i & Hi).
    destruct (Forall2_lookup_l _ _ _ _ _ Hpos Hi) as (q & _ & Hq).
    apply lookup_lt_Some in Hq. rewrite length_app, length_map in Hq. fold N in Hq.
    assert (Hin : x ∈ (list_to_set (set_iter adjacent)
                        ∩ list_to_set (map (λ k0, (N + k0)%nat)
                             (seq 0 (length (virtual_positions layout)))) : gset nat)).
    { rewrite elem_of_intersection, !elem_of_list_to_set. split.
      - apply list_elem_of_lookup. eauto.
      - apply list_elem_of_fmap. exists (x - N)%nat. split; [lia |].
        apply elem_of_seq. lia. }
    rewrite Hdisj in Hin. apply elem_of_empty in Hin as [].
  - intros x. rewrite Hoc. apply Hmem.
  - rewrite Hoc. exact Hlen.
  - rewrite Hcen.
    rewrite lookup_app_r in Hc by (rewrite length_map; fold N; lia).
    rewrite length_map in Hc. fold N in Hc.
    replace (N + k - N)%nat with k in Hc by lia. congruence.
  - rewrite Hcd, Hlen. reflexivity.
Qed.

(** ** The ring layout, configured *)

Lemma extra_layer_loop_no_mid (n : nat) (pos : list pos_rec) (ls : list (R * R * R))
    (st : list Channel * list (list R)) :
  where_zip mid_mask pos = [] → extra_layer_loop n pos ls st = st.
Proof.
  intros Hmid. revert st. induction ls as [|[[nominal lb] ub] ls IH]; intros st.
  - reflexivity.
  - cbn [extra_layer_loop]. destruct (layer_limits nominal lb ub pos) as [az el].
    rewrite Hmid. cbn [extra_mid_loop]. apply IH.
Qed.

Lemma extra_pos_ring : extra_pos_vertical_nominal layout_ring = ([], identity 4).
Proof.
  unfold extra_pos_vertical_nominal.
  rewrite extra_layer_loop_no_mid; [reflexivity |].
  unfold where_zip. cbn [layout_ring channels map imap].
  repeat (rewrite filter_cons_False
            by (unfold mid_mask, el_between, channel_pos, ring_channel; simpl; lra)).
  reflexivity.
Qed.

Lemma virtual_positions_ring : virtual_positions layout_ring = [nadir; zenith].
Proof.
  unfold virtual_positions. rewrite decide_False; [reflexivity |].
  unfold channel_names, layout_ring, ring_channel; simpl.
  rewrite !elem_of_cons, !elem_of_nil. intuition discriminate.
Qed.

(** Two plane equations that differ by the tolerance or more in one entry
    are not merged. *)
Lemma far_apart (a b : list R) (k : nat) (x y : R) :
  a !! k = Some x → b !! k = Some y → merge_tolerance <= Rabs (x - y) →
  ¬ norm (zip_with Rminus a b) < merge_tolerance.
Proof.
  intros Ha Hb Hfar Hclose.
  assert (Hin : x - y ∈ zip_with Rminus a b).
  { apply list_elem_of_lookup. exists k. rewrite lookup_zip_with, Ha, Hb. reflexivity. }
  apply abs_le_norm in Hin. lra.
Qed.

Ltac far_bound :=
  unfold merge_tolerance, Rabs; destruct (Rcase_abs _); lra.

Ltac far :=
  first [ eapply (far_apart _ _ 0); [reflexivity | reflexivity | far_bound]
        | eapply (far_apart _ _ 1); [reflexivity | reflexivity | far_bound]
        | eapply (far_apart _ _ 2); [reflexivity | reflexivity | far_bound] ].

Lemma merge_facets_ring : merge_facets hull_ring = facets_ring.
Proof.
  unfold merge_facets, hull_ring. cbn [simplices equations zip zip_with foldl fst snd].
  repeat (cbn [merge_simplex fst snd]; rewrite ?decide_False by far).
  reflexivity.
Qed.

Lemma sqrt_INR_4_half : 1 / sqrt (INR 4) = 1 / 2.
Proof. rewrite sqrt_INR_4. reflexivity. Qed.

Lemma ngon_lower_init :
  VirtualNgon_init listed_order [0; 1; 2; 3]%nat [L0; L1; L2; L3] nadir half4
  = Ret ngon_lower.
Proof.
  unfold VirtualNgon_init. rewrite decide_True by (simpl; lia).
  erewrite mapM_Ret_2; [reflexivity |].
  repeat constructor; unfold VirtualNgon_region; simpl;
    apply Triplet_init_ok; det_nonzero.
Qed.

Lemma ngon_top_init :
  VirtualNgon_init listed_order [0; 1; 2; 3]%nat [L0; L1; L2; L3] zenith half4
  = Ret ngon_top.
Proof.
  unfold VirtualNgon_init. rewrite decide_True by (simpl; lia).
  erewrite mapM_Ret_2; [reflexivity |].
  repeat constructor; unfold VirtualNgon_region; simpl;
    apply Triplet_init_ok; det_nonzero.
Qed.

Lemma adjacent_ring (vert : nat) :
  vert = 4%nat ∨ vert = 5%nat →
  _adjacent_verts facets_ring vert = Ret (list_to_set [0; 1; 2; 3]%nat).
Proof. intros [-> | ->]; vm_compute; reflexivity. Qed.

Lemma sorted_elements_ring : sorted_elements (list_to_set [0; 1; 2; 3]%nat) = [0; 1; 2; 3]%nat.
Proof. vm_compute. reflexivity. Qed.

Lemma virtual_ngon_region_ring (vert : nat) (centre : vec3) (ngon : VirtualNgon) :
  vert = 4%nat ∨ vert = 5%nat →
  [L0; L1; L2; L3; nadir; zenith] !! vert = Some centre →
  VirtualNgon_init listed_order [0; 1; 2; 3]%nat [L0; L1; L2; L3] centre half4 = Ret ngon →
  virtual_ngon_region listed_order sorted_elements [L0; L1; L2; L3; nadir; zenith]
                      facets_ring [4; 5]%nat vert = Ret (RNgon ngon).
Proof.
  intros Hv Hc Hinit. unfold virtual_ngon_region.
  rewrite (adjacent_ring vert Hv), bind_Ret, sorted_elements_ring.
  rewrite decide_True by (vm_compute; reflexivity).
  change (take_items [L0; L1; L2; L3; nadir; zenith] [0; 1; 2; 3]%nat)
    with (Ret [L0; L1; L2; L3]).
  rewrite bind_Ret. unfold getitem. rewrite Hc, bind_Ret.
  change (replicate (length [0; 1; 2; 3]%nat) (1 / sqrt (INR (length [0; 1; 2; 3]%nat))))
    with half4.
  rewrite Hinit. reflexivity.
Qed.

Lemma facet_region_ring (facet : gset nat) :
  facet ∈ facets_ring →
  facet_region roots_closed_form listed_order sorted_elements
               [L0; L1; L2; L3; nadir; zenith] [4; 5]%nat facet = Ret None.
Proof.
  intros Hin. unfold facet_region. rewrite decide_False; [reflexivity |].
  unfold facets_ring in Hin. rewrite !elem_of_cons, elem_of_nil in Hin.
  intros Hempty.
  assert (Hsize : size (facet ∩ list_to_set [4; 5]%nat) = 0%nat)
    by (rewrite Hempty; reflexivity).
  clear Hempty.
  destruct Hin as [-> | [-> | [-> | [-> | [-> | [-> | [-> | [-> | []]]]]]]]];
    vm_compute in Hsize; discriminate.
Qed.

(** [configure] on the ring layout, with the collaborators above. *)
Lemma configure_ring :
  configure roots_closed_form listed_order (λ _, Ret hull_ring) ring_position
            ring_position sorted_elements layout_ring layout_ring
  = Ret (FullPanner pspd_ring).
Proof.
  unfold configure.
  rewrite decide_False
    by (unfold layout_ring, ring_channel; cbn [channels];
        rewrite !Exists_cons, Exists_nil; simpl; intuition discriminate).
  rewrite decide_False by discriminate.
  unfold _configure_full. rewrite extra_pos_ring, virtual_positions_ring.
  unfold _convex_hull_facets. rewrite bind_Ret, merge_facets_ring, bind_Ret.
  change (map ring_position (channels layout_ring ++ []) ++ [nadir; zenith])
    with [L0; L1; L2; L3; nadir; zenith].
  change (map (λ k, (length (channels layout_ring ++ []) + k)%nat)
              (seq 0 (length [nadir; zenith]))) with [4; 5]%nat.
  cbn [mapM].
  rewrite (virtual_ngon_region_ring 4 nadir ngon_lower (or_introl eq_refl) eq_refl
             ngon_lower_init).
  rewrite (virtual_ngon_region_ring 5 zenith ngon_top (or_intror eq_refl) eq_refl
             ngon_top_init).
  rewrite !bind_Ret.
  erewrite (mapM_Ret_2 _ facets_ring (replicate 8 None)).
  - reflexivity.
  - unfold facets_ring at 1. simpl replicate.
    repeat (apply List.Forall2_cons;
            [apply facet_region_ring; unfold facets_ring;
             rewrite !elem_of_cons; tauto |]).
    apply List.Forall2_nil.
Qed.

Lemma configure_virtual_apexes_witness :
  configure roots_closed_form listed_order (λ _, Ret hull_ring) ring_position
            ring_position sorted_elements layout_ring layout_ring
  = Ret (FullPanner pspd_ring)
  ∧ virtual_positions layout_ring !! 0%nat = Some (V3 0 0 (-1)).
Proof.
  split; [exact configure_ring |].
  refine (proj1 (proj2 (configure_virtual_apexes _ _ _ _ _ sorted_elements _ layout_ring _
                          _ _ configure_ring))).
  - intros s. unfold sorted_elements. apply merge_sort_Permutation.
  - discriminate.
Defined.

(** ** Evaluating a panner at a given position *)

Lemma PointSourcePanner_loop_accept {A} `{RegionHandler A} (r : A) (rest : list A)
    (n : nat) (p : vec3) (pv out : list R) :
  handle r p = Ret (Some pv) →
  setitems (zeros n) (output_channels r) pv = Ret out →
  PointSourcePanner_handle_loop (r :: rest) n p = Ret (Some out).
Proof.
  intros Hpv Hout. cbn [PointSourcePanner_handle_loop]. unfold handle_remap.
  rewrite Hpv, bind_Ret, Hout. reflexivity.
Qed.

Lemma PointSourcePannerDownmix_handle_eval (self : PointSourcePannerDownmix)
    (p : vec3) (pv d : list R) (n : R) :
  PointSourcePanner_handle (pspd_psp self) p = Ret (Some pv) →
  matvec (pspd_downmix self) pv = Ret d → norm d = n → n ≠ 0 →
  PointSourcePannerDownmix_handle self p = Ret (Some (map (λ x, x / n) d)).
Proof.
  intros Hpv Hd Hn Hn0. unfold PointSourcePannerDownmix_handle.
  rewrite Hpv, bind_Ret, Hd, bind_Ret.
  rewrite div_norm_nonzero by (rewrite Hn; exact Hn0). rewrite Hn. reflexivity.
Qed.

Lemma matvec_identity_4 (a b c d : R) :
  matvec (identity 4) [a; b; c; d] = Ret [a; b; c; d].
Proof.
  unfold matvec. rewrite decide_True by (repeat constructor).
  unfold identity, dot; simpl. entrywise; lra.
Qed.

(** The ring panner with a ring of gains that already has norm one. *)
Lemma pspd_ring_eval (p : vec3) (a b c d : R) :
  VirtualNgon_handle ngon_lower p = Ret (Some [a; b; c; d]) →
  norm [a; b; c; d] = 1 →
  PointSourcePannerDownmix_handle pspd_ring p = Ret (Some [a; b; c; d]).
Proof.
  intros Hngon Hnorm.
  rewrite (PointSourcePannerDownmix_handle_eval pspd_ring p [a; b; c; d] [a; b; c; d] 1).
  - simpl. entrywise; lra.
  - unfold PointSourcePanner_handle, pspd_ring. cbn [pspd_psp psp_regions psp_num_channels].
    apply (PointSourcePanner_loop_accept (RNgon ngon_lower) _ 4 p [a; b; c; d]).
    + exact Hngon.
    + reflexivity.
  - apply matvec_identity_4.
  - exact Hnorm.
  - lra.
Qed.

Lemma norm_pos_of_entry (v : list R) (x : R) : x ∈ v → 0 < x → 0 < norm v ∧ x <= norm v.
Proof.
  intros Hin Hx. apply abs_le_norm in Hin. rewrite Rabs_right in Hin by lra. lra.
Qed.

(** At the lower apex the ring answers through its first triangle with the
    centre gain alone, which is shared out equally. *)
Lemma ngon_lower_nadir :
  VirtualNgon_handle ngon_lower nadir = Ret (Some [1 / 2; 1 / 2; 1 / 2; 1 / 2]).
Proof.
  unfold VirtualNgon_handle, ngon_lower. cbn [vn_regions vn_centre_downmix].
  rewrite half4_eq.
  rewrite (VirtualNgon_loop_accept _ _ _ nadir [0; 0; 1] [0; 0; 0; 0; 1]
             [1 / 2; 1 / 2; 1 / 2; 1 / 2] 1).
  - simpl. entrywise; lra.
  - rewrite (Triplet_handle_accept _ nadir e_z 1).
    + unfold vec3_list, e_z; simpl. entrywise; clip_eval.
    + apply mk_triplet_coords; [det_nonzero | unfold e_z; vec3_calc].
    + unfold tolerated, triplet_epsilon, e_z; simpl. lra.
    + unfold e_z, vec3_list; simpl. norm_is 1.
    + lra.
  - reflexivity.
  - unfold fold_centre; simpl. entrywise; lra.
  - norm_is 1.
  - lra.
Qed.

Lemma pspd_ring_nadir :
  Panner_handle (FullPanner pspd_ring) nadir = Ret (Some [1 / 2; 1 / 2; 1 / 2; 1 / 2]).
Proof. apply pspd_ring_eval; [exact ngon_lower_nadir | norm_is 1]. Qed.

Lemma VirtualNgon_loop_NonFinite (t : Triplet) (rest : list Triplet) (cd : list R)
    (p : vec3) :
  Triplet_handle t p = NonFinite → VirtualNgon_handle_loop (t :: rest) cd p = NonFinite.
Proof.
  intros Ht. cbn [VirtualNgon_handle_loop]. unfold handle_remap.
  cbn [handle Triplet_RegionHandler]. rewrite Ht. reflexivity.
Qed.

Lemma PointSourcePanner_loop_NonFinite {A} `{RegionHandler A} (r : A) (rest : list A)
    (n : nat) (p : vec3) :
  handle r p = NonFinite → PointSourcePanner_handle_loop (r :: rest) n p = NonFinite.
Proof.
  intros Hr. cbn [PointSourcePanner_handle_loop]. unfold handle_remap.
  rewrite Hr. reflexivity.
Qed.

(** No zero-check on the way: in a panner whose first region is a
    VirtualNgon with at least one triangle, the zero position reaches the
    division by the norm in that triangle. *)
Lemma first_ngon_zero (pspd : PointSourcePannerDownmix) (ngon : VirtualNgon)
    (t : Triplet) (ts : list Triplet) (rest : list Region) :
  psp_regions (pspd_psp pspd) = RNgon ngon :: rest →
  vn_regions ngon = t :: ts →
  PointSourcePannerDownmix_handle pspd vzero = NonFinite.
Proof.
  intros Hregions Hts.
  unfold PointSourcePannerDownmix_handle, PointSourcePanner_handle.
  rewrite Hregions.
  rewrite PointSourcePanner_loop_NonFinite; [reflexivity |].
  cbn [handle Region_RegionHandler VirtualNgon_RegionHandler].
  unfold VirtualNgon_handle. rewrite Hts.
  apply VirtualNgon_loop_NonFinite, Triplet_handle_zero.
Qed.

(** The same for every panner that [_configure_full] returns, whatever the
    hull: its first region is the VirtualNgon of the lower apex, and as soon
    as that region has an output channel the zero position is divided by its
    zero norm there. *)
Lemma _configure_full_zero (roots : list R → list complex) (nvo : list vec3 → list nat)
    (ConvexHull : list vec3 → outcome Hull) (nominal_position norm_position : Channel → vec3)
    (set_iter : gset nat → list nat) (layout : Layout) (pspd : PointSourcePannerDownmix) :
  _configure_full roots nvo ConvexHull nominal_position norm_position set_iter layout
  = Ret pspd →
  (∀ r, psp_regions (pspd_psp pspd) !! 0%nat = Some r → output_channels r ≠ []) →
  PointSourcePannerDownmix_handle pspd vzero = NonFinite.
Proof.
  intros Hc Hfirst. apply _configure_full_Ret in Hc. cbv zeta in Hc.
  destruct Hc as (facets & ngons & others & _ & Hn & _ & Hp & _).
  apply PointSourcePanner_init_Ret in Hp as [Hregions _].
  apply mapM_Ret in Hn. unfold virtual_positions in Hn at 2.
  cbn [length seq map] in Hn.
  inversion Hn as [|v r0 vs ngons' Hr0 _ Ev Engons]; subst.
  apply virtual_ngon_region_Ret in Hr0
    as (adjacent & positions & centre & ngon & _ & _ & _ & _ & Hngon & ->).
  cbn [app] in Hregions.
  specialize (Hfirst (RNgon ngon)). rewrite Hregions in Hfirst.
  specialize (Hfirst eq_refl).
  cbn [output_channels Region_RegionHandler VirtualNgon_RegionHandler] in Hfirst.
  apply VirtualNgon_init_Ret in Hngon as (_ & _ & Hoc & _ & _ & _ & Hts).
  rewrite Hoc in Hfirst.
  destruct (set_iter adjacent) as [|c cs]; [congruence |].
  cbn [length seq] in Hts.
  inversion Hts as [|i t ks ts Ht _ Ei Ets]; subst.
  eapply first_ngon_zero; [exact Hregions | symmetry; eassumption].
Qed.

Lemma pspd_ring_zero : Panner_handle (FullPanner pspd_ring) vzero = NonFinite.
Proof.
  cbn [Panner_handle]. eapply first_ngon_zero; unfold pspd_ring; reflexivity.
Qed.

(** ** The ring panner on a short position and on three times it *)










(** ** Scaling the position *)





Lemma dot3_scale_r (a p : vec3) (s : R) : dot3 a (vscale s p) = s * dot3 a p.
Proof. unfold dot3, vscale; simpl. ring. Qed.




(** A quad built by the constructor has stable pan functions when
    [numpy.roots] returns the same roots for proportional coefficients. *)
Lemma QuadRegion_init_pan_stable (roots : list R → list complex)
    (nvo : list vec3 → list nat) (oc : list nat) (positions : list vec3)
    (q : QuadRegion) (p : vec3) (s : R) :
  (∀ coefficients, roots (map (Rmult s) coefficients) = roots coefficients) →
  QuadRegion_init roots nvo oc positions = Ret q →
  quad_pan_stable s p (RQuad q).
Proof.
  intros Hroots Hinit.
  assert (Hc : ∀ a b c d, quad_coefficients a b c d (vscale s p)
                          = map (Rmult s) (quad_coefficients a b c d p)).
  { intros a b c d. unfold quad_coefficients. simpl. rewrite !dot3_scale_r. reflexivity. }
  apply QuadRegion_init_Ret in Hinit
    as (o0 & o1 & o2 & o3 & a & b & c & d & _ & _ & _ & _ & _ & _ & _ & _ & _ & _
        & Hx & Hy).
  split.
  - rewrite !Hx. unfold pan_parameter_spec. rewrite Hc, Hroots. reflexivity.
  - rewrite !Hy. unfold pan_parameter_spec. rewrite Hc, Hroots. reflexivity.
Qed.


(** ** Exceptions at query time *)

Lemma Triplet_handle_length (t : Triplet) (p : vec3) (g : list R) :
  Triplet_handle t p = Ret (Some g) → length g = 3%nat.
Proof.
  intros Hg. apply Triplet_handle_Some in Hg as (_ & _ & ->).
  rewrite !length_map. reflexivity.
Qed.

Lemma setitems_not_raise (out : list R) (idx : list nat) (vals : list R) (e : exn) :
  length vals = length idx → Forall (λ i, (i < length out)%nat) idx →
  setitems out idx vals ≠ Raise e.
Proof.
  intros Hlen Hr. destruct (setitems_in_range out idx vals Hlen Hr) as (o & -> & _).
  discriminate.
Qed.

Lemma VirtualNgon_handle_ok (v : VirtualNgon) (p : vec3) :
  ngon_slots_ok v →
  (∀ e, VirtualNgon_handle v p ≠ Raise e)
  ∧ (∀ g, VirtualNgon_handle v p = Ret (Some g) → length g = length (vn_output_channels v)).
Proof.
  intros [Hoc Hall]. unfold VirtualNgon_handle. rewrite Hoc.
  induction Hall as [|t ts (oi & oj & Ht & Hoi & Hoj) _ IH].
  - split; [discriminate | discriminate].
  - cbn [VirtualNgon_handle_loop]. unfold handle_remap.
    cbn [handle output_channels Triplet_RegionHandler].
    destruct (Triplet_handle t p) as [[g|]| |e] eqn:Eg; simpl.
    + apply Triplet_handle_length in Eg.
      destruct (setitems_in_range (zeros (length (vn_centre_downmix v) + 1))
                  (tri_output_channels t) g) as (out & -> & Hlen & _).
      { rewrite Ht, Eg. reflexivity. }
      { rewrite Ht, zeros_length. repeat (apply Forall_cons_2; [lia |]). apply Forall_nil_2. }
      simpl. rewrite zeros_length in Hlen.
      destruct (div_norm (fold_centre (vn_centre_downmix v) out)) as [w| |e] eqn:Ew; simpl.
      * split; [discriminate |]. intros g' [= <-].
        apply div_norm_length in Ew. rewrite Ew. unfold fold_centre.
        rewrite length_zip_with, length_take, length_map, Hlen. lia.
      * split; discriminate.
      * exfalso. exact (div_norm_not_raise _ _ Ew).
    + exact IH.
    + split; discriminate.
    + exfalso. exact (Triplet_handle_not_raise _ _ _ Eg).
Qed.

Lemma QuadRegion_handle_ok (q : QuadRegion) (p : vec3) :
  quad_slots_ok q →
  (∀ e, QuadRegion_handle q p ≠ Raise e)
  ∧ (∀ g, QuadRegion_handle q p = Ret (Some g) → length g = length (quad_output_channels q)).
Proof.
  intros (Hoc & Hlen & Hr). unfold QuadRegion_handle. rewrite Hoc.
  destruct (quad_pan_x q p) as [x|]; [| split; discriminate].
  destruct (quad_pan_y q p) as [y|]; [| split; discriminate].
  destruct (setitems_in_range (zeros 4) (quad_order q)
              [(1 - x) * (1 - y); x * (1 - y); x * y; (1 - x) * y])
    as (out & -> & Hout & _).
  { rewrite Hlen. reflexivity. }
  { rewrite zeros_length. exact Hr. }
  rewrite bind_Ret. rewrite zeros_length in Hout.
  destruct (bool_decide _); [split; discriminate |].
  destruct (div_norm out) as [w| |e] eqn:Ew; simpl.
  - split; [discriminate |]. intros g [= <-].
    apply div_norm_length in Ew. congruence.
  - split; discriminate.
  - exfalso. exact (div_norm_not_raise _ _ Ew).
Qed.

Lemma Region_handle_ok (r : Region) (p : vec3) :
  region_ok r →
  (∀ e, handle r p ≠ Raise e)
  ∧ (∀ g, handle r p = Ret (Some g) → length g = length (output_channels r)).
Proof.
  destruct r as [t|v|q]; cbn [region_ok handle output_channels Region_RegionHandler
                              Triplet_RegionHandler VirtualNgon_RegionHandler
                              QuadRegion_RegionHandler].
  - intros Hoc. split; [apply Triplet_handle_not_raise |].
    intros g Hg. apply Triplet_handle_length in Hg. congruence.
  - apply VirtualNgon_handle_ok.
  - apply QuadRegion_handle_ok.
Qed.

Lemma PointSourcePanner_loop_ok (regions : list Region) (n : nat) (p : vec3) :
  Forall region_ok regions →
  Forall (λ r, Forall (λ c, (c < n)%nat) (output_channels r)) regions →
  (∀ e, PointSourcePanner_handle_loop regions n p ≠ Raise e)
  ∧ (∀ out, PointSourcePanner_handle_loop regions n p = Ret (Some out) → length out = n).
Proof.
  intros Hok Hr. induction Hok as [|r regions Hrok _ IH]; cbn [PointSourcePanner_handle_loop].
  - split; discriminate.
  - inversion Hr as [|? ? Hrr Hrest]; subst. specialize (IH Hrest).
    destruct (Region_handle_ok r p Hrok) as [Hnr Hlen].
    unfold handle_remap.
    destruct (handle r p) as [[g|]| |e] eqn:Eg; cbn [mbind outcome_mbind outcome_bind].
    + destruct (setitems_in_range (zeros n) (output_channels r) g) as (out & -> & Hout & _).
      { apply Hlen. reflexivity. }
      { rewrite zeros_length. exact Hrr. }
      cbn [mbind outcome_mbind outcome_bind]. rewrite zeros_length in Hout.
      split; [discriminate |].
      intros out' [= <-]. exact Hout.
    + exact IH.
    + split; discriminate.
    + exfalso. exact (Hnr e eq_refl).
Qed.

Lemma matvec_ok (m : list (list R)) (v : list R) :
  Forall (λ row, length row = length v) m → matvec m v = Ret (map (λ row, dot row v) m).
Proof. intros Hm. unfold matvec. rewrite decide_True by exact Hm. reflexivity. Qed.

(** A downmix panner with well-sized regions never raises, and what it
    returns has one entry per row of the downmix. *)
Lemma PointSourcePannerDownmix_handle_ok (self : PointSourcePannerDownmix) (p : vec3) :
  Forall region_ok (psp_regions (pspd_psp self)) →
  Forall (λ r, Forall (λ c, (c < psp_num_channels (pspd_psp self))%nat) (output_channels r))
         (psp_regions (pspd_psp self)) →
  columns_ok self →
  (∀ e, PointSourcePannerDownmix_handle self p ≠ Raise e)
  ∧ (∀ g, PointSourcePannerDownmix_handle self p = Ret (Some g) →
          length g = length (pspd_downmix self)).
Proof.
  intros Hok Hr Hcols.
  destruct (PointSourcePanner_loop_ok _ _ p Hok Hr) as [Hnr Hlen].
  unfold PointSourcePannerDownmix_handle, PointSourcePanner_handle.
  destruct (PointSourcePanner_handle_loop _ _ p) as [[pv|]| |e] eqn:Epv; simpl.
  - rewrite matvec_ok.
    2:{ unfold columns_ok in Hcols. rewrite (Hlen pv eq_refl). exact Hcols. }
    simpl.
    destruct (div_norm _) as [w| |e] eqn:Ew; simpl.
    + split; [discriminate |]. intros g [= <-].
      apply div_norm_length in Ew. rewrite Ew, length_map. reflexivity.
    + split; discriminate.
    + exfalso. exact (div_norm_not_raise _ _ Ew).
  - split; discriminate.
  - split; discriminate.
  - exfalso. exact (Hnr e eq_refl).
Qed.

(** ** What the constructors establish *)

Lemma VirtualNgon_init_slots_ok (nvo : list vec3 → list nat) (oc : list nat)
    (positions : list vec3) (centre : vec3) (cd : list R) (ngon : VirtualNgon) :
  VirtualNgon_init nvo oc positions centre cd = Ret ngon → ngon_slots_ok ngon.
Proof.
  intros Hinit.
  apply VirtualNgon_init_Ret in Hinit as (Hn1 & Hn2 & Hoc & Hcd & _ & _ & Hregions).
  unfold ngon_slots_ok. rewrite Hoc, Hcd. split; [congruence |].
  eapply Forall2_Forall_r; [exact Hregions |].
  apply Forall_true. intros i t Ht.
  apply VirtualNgon_region_Ret in Ht as (oi & oj & p_i & p_j & _ & _ & H3 & H4 & _ & ->).
  apply lookup_lt_Some in H3, H4. exists oi, oj. simpl.
  replace (length cd) with (length oc) by congruence.
  rewrite Hn1. auto.
Qed.

Lemma QuadRegion_init_slots_ok (roots : list R → list complex)
    (nvo : list vec3 → list nat) (oc : list nat) (positions : list vec3)
    (q : QuadRegion) :
  QuadRegion_init roots nvo oc positions = Ret q → quad_slots_ok q.
Proof.
  intros Hinit.
  apply QuadRegion_init_Ret in Hinit
    as (o0 & o1 & o2 & o3 & a & b & c & d & Hord & _ & Ha & Hb & Hc & Hd
        & Hoc & Hpos & Hqoc & _).
  unfold quad_slots_ok. rewrite Hqoc, Hord. split; [exact Hoc |]. split; [reflexivity |].
  apply lookup_lt_Some in Ha, Hb, Hc, Hd. rewrite Hpos in Ha, Hb, Hc, Hd.
  repeat (apply Forall_cons_2; [assumption |]). apply Forall_nil_2.
Qed.

Lemma facet_region_ok (roots : list R → list complex) (nvo : list vec3 → list nat)
    (set_iter : gset nat → list nat) (positions_real : list vec3)
    (virtual_verts : list nat) (facet : gset nat) (r : Region) :
  facet_region roots nvo set_iter positions_real virtual_verts facet = Ret (Some r) →
  region_ok r.
Proof.
  unfold facet_region. destruct (decide _); [| discriminate].
  destruct (decide (length (set_iter facet) = 3%nat)) as [H3|].
  - intros Hr. apply bind_inv_Ret in Hr as (positions & _ & Hr).
    apply bind_inv_Ret in Hr as (t & Ht & [= <-]).
    apply Triplet_init_Ret in Ht as (a & b & c & _ & Hlen & _ & ->). exact Hlen.
  - destruct (decide (length (set_iter facet) = 4%nat)); [| discriminate].
    intros Hr. apply bind_inv_Ret in Hr as (positions & _ & Hr).
    apply bind_inv_Ret in Hr as (q & Hq & [= <-]).
    apply QuadRegion_init_slots_ok in Hq. exact Hq.
Qed.

Lemma _configure_full_ok (roots : list R → list complex) (nvo : list vec3 → list nat)
    (ConvexHull : list vec3 → outcome Hull) (nominal_position norm_position : Channel → vec3)
    (set_iter : gset nat → list nat) (layout : Layout) (pspd : PointSourcePannerDownmix) :
  _configure_full roots nvo ConvexHull nominal_position norm_position set_iter layout
  = Ret pspd →
  Forall region_ok (psp_regions (pspd_psp pspd))
  ∧ Forall (λ r, Forall (λ c, (c < psp_num_channels (pspd_psp pspd))%nat)
                        (output_channels r)) (psp_regions (pspd_psp pspd))
  ∧ length (pspd_downmix pspd) = length (channels layout).
Proof.
  intros Hc.
  apply _configure_full_Ret in Hc as (facets & ngons & others & _ & Hn & Ho & Hp & Hd).
  apply PointSourcePanner_init_Ret in Hp as [Hregions Hbound].
  rewrite Hregions. split; [| split; [exact Hbound |]].
  - apply Forall_app. split.
    + apply mapM_Ret in Hn. eapply Forall2_Forall_r; [exact Hn |].
      apply Forall_true. intros v r Hr.
      apply virtual_ngon_region_Ret in Hr as (? & ? & ? & ngon & _ & _ & _ & _ & Hi & ->).
      apply VirtualNgon_init_slots_ok in Hi. exact Hi.
    + apply mapM_Ret in Ho. apply Forall_forall. intros r Hr.
      apply list_elem_of_omap in Hr as (o & Hin & ->).
      apply list_elem_of_lookup in Hin as (i & Hi).
      destruct (Forall2_lookup_r _ _ _ _ _ Ho Hi) as (facet & _ & Hf).
      eapply facet_region_ok. exact Hf.
  - rewrite Hd.
    assert (Hshape : ∀ l, length (extra_pos_vertical_nominal l).2 = length (channels l)).
    { intros l. unfold extra_pos_vertical_nominal.
      destruct (extra_layer_loop _ _ _ _) as [ex dm]. cbn [snd].
      apply transpose_shape. }
    apply Hshape.
Qed.

Lemma list_index_Ret (x : string) (l : list string) (i : nat) :
  list_index x l = Ret i → l !! i = Some x.
Proof.
  unfold list_index. destruct (list_find _ l) as [[j y]|] eqn:E; [| discriminate].
  intros [= <-]. apply list_find_Some in E as (Hl & -> & _). exact Hl.
Qed.

Lemma _configure_stereo_Ret (roots : list R → list complex) (nvo : list vec3 → list nat)
    (ConvexHull : list vec3 → outcome Hull) (nominal_position norm_position : Channel → vec3)
    (set_iter : gset nat → list nat) (bs2051_0_5_0 layout : Layout)
    (panner : PointSourcePanner StereoPanDownmix) :
  _configure_stereo roots nvo ConvexHull nominal_position norm_position set_iter
                    bs2051_0_5_0 layout = Ret panner →
  ∃ stereo,
    PointSourcePanner_init [stereo] None = Ret panner
    ∧ left_channel stereo ≠ right_channel stereo
    ∧ length (channels bs2051_0_5_0) = 5%nat
    ∧ _configure_full roots nvo ConvexHull nominal_position norm_position set_iter
                      bs2051_0_5_0 = Ret (stereo_psp stereo).
Proof.
  unfold _configure_stereo. intros Hc.
  apply bind_inv_Ret in Hc as (l & Hl & Hc).
  apply bind_inv_Ret in Hc as (r & Hr & Hc).
  apply bind_inv_Ret in Hc as (stereo & Hs & Hc).
  apply list_index_Ret in Hl, Hr.
  unfold StereoPanDownmix_init in Hs.
  destruct (decide _) as [Hnames|]; [| discriminate].
  apply bind_inv_Ret in Hs as (psp & Hpsp & [= <-]).
  unfold configure_0_5_0 in Hpsp.
  destruct (decide (Exists _ _)); [discriminate |].
  destruct (decide (layout_name _ = _)); [discriminate |].
  eexists. split; [exact Hc |]. cbn [left_channel right_channel stereo_psp].
  split; [| split; [| exact Hpsp]].
  - intros ->. rewrite Hl in Hr. discriminate.
  - unfold channel_names in Hnames. apply (f_equal length) in Hnames.
    rewrite length_map in Hnames. exact Hnames.
Qed.

(** ** StereoPanDownmix *)

Lemma stereo_level_pos (front back : R) : 0 < stereo_level front back.
Proof. unfold stereo_level, Rpower. apply exp_pos. Qed.

Lemma matvec_Ret (m : list (list R)) (v d : list R) :
  matvec m v = Ret d → d = map (λ row, dot row v) m.
Proof. unfold matvec. destruct (decide _); [| discriminate]. intros [= <-]. reflexivity. Qed.

Lemma StereoPanDownmix_handle_inner_None (self : StereoPanDownmix) (p : vec3) :
  PointSourcePannerDownmix_handle (stereo_psp self) p = Ret None →
  StereoPanDownmix_handle self p = Raise TypeError.
Proof. intros Hi. unfold StereoPanDownmix_handle. rewrite Hi. reflexivity. Qed.

Lemma StereoPanDownmix_handle_Some (self : StereoPanDownmix) (p : vec3) (g : list R) :
  StereoPanDownmix_handle self p = Ret (Some g) →
  ∃ pv front back,
    PointSourcePannerDownmix_handle (stereo_psp self) p = Ret (Some pv)
    ∧ max_items pv [0; 1; 2]%nat = Ret front
    ∧ max_items pv [3; 4]%nat = Ret back
    ∧ front + back ≠ 0
    ∧ length g = 2%nat
    ∧ norm g = stereo_level front back.
Proof.
  unfold StereoPanDownmix_handle. intros Hh.
  apply bind_inv_Ret in Hh as ([pv|] & Hpv & Hh); [| discriminate].
  apply bind_inv_Ret in Hh as (d & Hd & Hh).
  apply bind_inv_Ret in Hh as (w & Hw & Hh).
  apply bind_inv_Ret in Hh as (front & Hf & Hh).
  apply bind_inv_Ret in Hh as (back & Hb & Hh).
  destruct (decide (front + back = 0)) as [|Hne]; [discriminate |].
  injection Hh as <-.
  exists pv, front, back. do 4 (split; [assumption |]).
  apply matvec_Ret in Hd. apply div_norm_Ret in Hw as (_ & Hwd & Hnw). split.
  - rewrite length_map, Hwd, length_map, Hd, length_map. reflexivity.
  - rewrite norm_scale, Hnw.
    rewrite Rabs_right by (apply Rle_ge; left; apply stereo_level_pos). ring.
Qed.

Lemma StereoPanDownmix_handle_not_None (self : StereoPanDownmix) (p : vec3) :
  StereoPanDownmix_handle self p ≠ Ret None.
Proof.
  unfold StereoPanDownmix_handle. intros Hh.
  apply bind_inv_Ret in Hh as ([pv|] & Hpv & Hh); [| discriminate].
  apply bind_inv_Ret in Hh as (d & Hd & Hh).
  apply bind_inv_Ret in Hh as (w & Hw & Hh).
  apply bind_inv_Ret in Hh as (front & Hf & Hh).
  apply bind_inv_Ret in Hh as (back & Hb & Hh).
  destruct (decide (front + back = 0)); discriminate.
Qed.

(** With five inner gains nothing in [StereoPanDownmix.handle] raises. *)
Lemma StereoPanDownmix_handle_five (self : StereoPanDownmix) (p : vec3) (pv : list R) :
  PointSourcePannerDownmix_handle (stereo_psp self) p = Ret (Some pv) →
  length pv = 5%nat →
  ∀ e, StereoPanDownmix_handle self p ≠ Raise e.
Proof.
  intros Hpv Hlen e. unfold StereoPanDownmix_handle. rewrite Hpv, bind_Ret.
  destruct pv as [|a [|b [|c [|d [|e' [|]]]]]]; try discriminate.
  rewrite matvec_ok by (unfold stereo_downmix; repeat constructor).
  rewrite bind_Ret.
  destruct (div_norm _) as [w| |e2] eqn:Ew; cbn [mbind outcome_mbind outcome_bind].
  - unfold max_items, take_items. cbn.
    destruct (decide _); discriminate.
  - discriminate.
  - exfalso. exact (div_norm_not_raise _ _ Ew).
Qed.

(** The stereo panner places the two gains at the left and right channels. *)
Lemma stereo_panner_place (self : StereoPanDownmix) (panner : PointSourcePanner StereoPanDownmix)
    (p : vec3) :
  PointSourcePanner_init [self] None = Ret panner →
  (left_channel self < psp_num_channels panner)%nat
  ∧ (right_channel self < psp_num_channels panner)%nat
  ∧ PointSourcePanner_handle panner p
    = (g ← StereoPanDownmix_handle self p;
       match g with
       | Some g => out ← setitems (zeros (psp_num_channels panner))
                                  [left_channel self; right_channel self] g;
                   Ret (Some out)
       | None => Ret None
       end).
Proof.
  intros Hinit. apply PointSourcePanner_init_Ret in Hinit as [Hregions Hbound].
  inversion Hbound as [|? ? Hb _]; subst.
  cbn [output_channels StereoPanDownmix_RegionHandler] in Hb.
  inversion Hb as [|? ? Hl Hb']; subst. inversion Hb' as [|? ? Hr _]; subst.
  split; [exact Hl |]. split; [exact Hr |].
  unfold PointSourcePanner_handle. rewrite Hregions.
  cbn [PointSourcePanner_handle_loop]. unfold handle_remap.
  cbn [handle output_channels StereoPanDownmix_RegionHandler].
  destruct (StereoPanDownmix_handle self p) as [[g|]| |e];
    cbn [mbind outcome_mbind outcome_bind]; try reflexivity.
  destruct (setitems _ _ _); reflexivity.
Qed.

(** C10.  For a panner holding a single StereoPanDownmix, as
    [_configure_stereo] builds it: the region never returns [None], and
    raises [TypeError] when the inner panner returns [None]; the panner
    never returns [None] either; and when the panner returns a vector, the
    region has returned two gains, which sit at the left and the right
    channel of an otherwise zero vector of length [num_channels]. *)
Theorem StereoPanDownmix_never_None (self : StereoPanDownmix)
    (panner : PointSourcePanner StereoPanDownmix) (p : vec3) :
  PointSourcePanner_init [self] None = Ret panner →
  StereoPanDownmix_handle self p ≠ Ret None
  ∧ (PointSourcePannerDownmix_handle (stereo_psp self) p = Ret None →
     StereoPanDownmix_handle self p = Raise TypeError)
  ∧ PointSourcePanner_handle panner p ≠ Ret None
  ∧ ∀ out, PointSourcePanner_handle panner p = Ret (Some out) →
      ∃ g0 g1,
        StereoPanDownmix_handle self p = Ret (Some [g0; g1])
        ∧ (left_channel self < psp_num_channels panner)%nat
        ∧ (right_channel self < psp_num_channels panner)%nat
        ∧ out = <[right_channel self := g1]>
                  (<[left_channel self := g0]> (zeros (psp_num_channels panner))).
Proof.
  intros Hinit.
  destruct (stereo_panner_place self panner p Hinit) as (Hl & Hr & Hh).
  split; [apply StereoPanDownmix_handle_not_None |].
  split; [apply StereoPanDownmix_handle_inner_None |].
  rewrite Hh.
  destruct (StereoPanDownmix_handle self p) as [[g|]| |e] eqn:Eg;
    cbn [mbind outcome_mbind outcome_bind].
  - destruct (StereoPanDownmix_handle_Some _ _ _ Eg) as (_ & _ & _ & _ & _ & _ & _ & Hlen & _).
    destruct g as [|g0 [|g1 [|]]]; try discriminate.
    unfold setitems. rewrite decide_True by reflexivity.
    cbn [setitems_zip]. unfold setitem.
    rewrite decide_True by (rewrite zeros_length; exact Hl).
    cbn [mbind outcome_mbind outcome_bind].
    rewrite decide_True by (rewrite length_insert, zeros_length; exact Hr).
    cbn [mbind outcome_mbind outcome_bind].
    split; [discriminate |]. intros out [= <-].
    exists g0, g1. auto.
  - exfalso. exact (StereoPanDownmix_handle_not_None _ _ Eg).
  - split; discriminate.
  - split; discriminate.
Qed.

Lemma stereo_example_init :
  PointSourcePanner_init [ {| left_channel := 0; right_channel := 1;
                              stereo_psp := pspd_five |} ] None = Ret stereo_example.
Proof. reflexivity. Qed.

Lemma StereoPanDownmix_never_None_witness :
  PointSourcePanner_init [ {| left_channel := 0; right_channel := 1;
                              stereo_psp := pspd_five |} ] None = Ret stereo_example
  ∧ PointSourcePanner_handle stereo_example nadir ≠ Ret None.
Proof.
  split; [exact stereo_example_init |].
  exact (proj1 (proj2 (proj2 (StereoPanDownmix_never_None _ _ nadir stereo_example_init)))).
Defined.

Lemma sum_sq_insert (v : list R) (i : nat) (x : R) :
  (i < length v)%nat →
  sum_sq (<[i := x]> v) = sum_sq v - entry v i * entry v i + x * x.
Proof.
  revert i. induction v as [|y v IH]; intros i Hi; simpl in Hi; [lia |].
  destruct i as [|i]; simpl.
  - unfold entry; simpl. ring.
  - rewrite IH by lia. unfold entry; simpl. ring.
Qed.

Lemma sum_sq_zeros (n : nat) : sum_sq (zeros n) = 0.
Proof.
  unfold zeros. induction n as [|n IH]; simpl; [reflexivity | rewrite IH; ring].
Qed.

Lemma norm_two_placed (n l r : nat) (g0 g1 : R) :
  l ≠ r → (l < n)%nat → (r < n)%nat →
  norm (<[r := g1]> (<[l := g0]> (zeros n))) = norm [g0; g1].
Proof.
  intros Hne Hl Hr. unfold norm. f_equal.
  rewrite sum_sq_insert by (rewrite length_insert, zeros_length; exact Hr).
  rewrite sum_sq_insert by (rewrite zeros_length; exact Hl).
  rewrite sum_sq_zeros. unfold entry.
  rewrite list_lookup_insert_ne by exact Hne.
  rewrite !zeros_lookup by assumption. simpl. ring.
Qed.

Lemma PointSourcePannerDownmix_handle_norm (self : PointSourcePannerDownmix)
    (p : vec3) (g : list R) :
  PointSourcePannerDownmix_handle self p = Ret (Some g) → norm g = 1.
Proof.
  unfold PointSourcePannerDownmix_handle. intros Hh.
  apply bind_inv_Ret in Hh as ([pv|] & _ & Hh); [| discriminate].
  apply bind_inv_Ret in Hh as (d & _ & Hh).
  apply bind_inv_Ret in Hh as (w & Hw & [= <-]).
  apply div_norm_Ret in Hw as (_ & _ & Hn). exact Hn.
Qed.

(** The norm of what a panner with one StereoPanDownmix returns. *)
Lemma stereo_panner_norm (stereo : StereoPanDownmix)
    (psp : PointSourcePanner StereoPanDownmix) (p : vec3) (g : list R) :
  PointSourcePanner_init [stereo] None = Ret psp →
  left_channel stereo ≠ right_channel stereo →
  PointSourcePanner_handle psp p = Ret (Some g) →
  ∃ pv front back,
    PointSourcePannerDownmix_handle (stereo_psp stereo) p = Ret (Some pv)
    ∧ max_items pv [0; 1; 2]%nat = Ret front
    ∧ max_items pv [3; 4]%nat = Ret back
    ∧ front + back ≠ 0
    ∧ norm g = stereo_level front back.
Proof.
  intros Hinit Hne Hh.
  destruct (stereo_panner_place stereo psp p Hinit) as (Hl & Hr & Hplace).
  rewrite Hplace in Hh.
  apply bind_inv_Ret in Hh as ([g'|] & Hg' & Hh); [| discriminate].
  apply bind_inv_Ret in Hh as (out & Hout & [= <-]).
  destruct (StereoPanDownmix_handle_Some _ _ _ Hg')
    as (pv & front & back & Hpv & Hf & Hb & Hfb & Hlen & Hnorm).
  exists pv, front, back. do 4 (split; [assumption |]).
  destruct g' as [|g0 [|g1 [|]]]; try discriminate.
  unfold setitems in Hout. rewrite decide_True in Hout by reflexivity.
  cbn [setitems_zip] in Hout. unfold setitem in Hout.
  rewrite decide_True in Hout by (rewrite zeros_length; exact Hl).
  cbn [mbind outcome_mbind outcome_bind] in Hout.
  rewrite decide_True in Hout by (rewrite length_insert, zeros_length; exact Hr).
  cbn [mbind outcome_mbind outcome_bind] in Hout. injection Hout as <-.
  rewrite norm_two_placed by assumption. exact Hnorm.
Qed.

(** C1, as amended.  A panner that [configure] returns for a layout not
    named 0+2+0 returns gains of L2 norm 1.  For 0+2+0 the norm of the
    gains is the level factor [0.5 ** (0.5 * back / (front + back))], where
    [front] and [back] are the largest of the first three and of the last
    two gains of the inner 0+5+0 panner. *)
Theorem configure_handle_norm (roots : list R → list complex)
    (nvo : list vec3 → list nat) (ConvexHull : list vec3 → outcome Hull)
    (nominal_position norm_position : Channel → vec3)
    (set_iter : gset nat → list nat) (bs2051_0_5_0 layout : Layout) (panner : Panner)
    (p : vec3) (g : list R) :
  configure roots nvo ConvexHull nominal_position norm_position set_iter bs2051_0_5_0
            layout = Ret panner →
  Panner_handle panner p = Ret (Some g) →
  match panner with
  | FullPanner _ => layout_name layout ≠ "0+2+0" ∧ norm g = 1
  | StereoPanner psp =>
      layout_name layout = "0+2+0"
      ∧ ∃ stereo pv front back,
          psp_regions psp = [stereo]
          ∧ PointSourcePannerDownmix_handle (stereo_psp stereo) p = Ret (Some pv)
          ∧ max_items pv [0; 1; 2]%nat = Ret front
          ∧ max_items pv [3; 4]%nat = Ret back
          ∧ front + back ≠ 0
          ∧ norm g = stereo_level front back
  end.
Proof.
  unfold configure. destruct (decide (Exists _ _)); [discriminate |].
  destruct (decide (layout_name layout = "0+2+0")) as [Hname|Hname]; intros Hc Hh.
  - apply fmap_inv_Ret in Hc as (psp & Hc & ->). split; [exact Hname |].
    apply _configure_stereo_Ret in Hc as (stereo & Hinit & Hne & _ & _).
    cbn [Panner_handle] in Hh.
    destruct (stereo_panner_norm stereo psp p g Hinit Hne Hh)
      as (pv & front & back & Hprops).
    apply PointSourcePanner_init_Ret in Hinit as [Hregions _].
    exists stereo, pv, front, back. split; [exact Hregions | exact Hprops].
  - apply fmap_inv_Ret in Hc as (pspd & _ & ->). split; [exact Hname |].
    eapply PointSourcePannerDownmix_handle_norm. exact Hh.
Qed.

Lemma configure_handle_norm_witness :
  configure roots_closed_form listed_order (λ _, Ret hull_ring) ring_position
            ring_position sorted_elements layout_ring layout_ring
  = Ret (FullPanner pspd_ring)
  ∧ Panner_handle (FullPanner pspd_ring) nadir = Ret (Some [1 / 2; 1 / 2; 1 / 2; 1 / 2])
  ∧ norm [1 / 2; 1 / 2; 1 / 2; 1 / 2] = 1.
Proof.
  split; [exact configure_ring |]. split; [exact pspd_ring_nadir |].
  exact (proj2 (configure_handle_norm _ _ _ _ _ _ _ _ _ nadir _ configure_ring
                  pspd_ring_nadir)).
Defined.

(** C9, as amended.  A panner that [configure] returns for a layout not
    named 0+2+0, whose downmix has one column per channel of the inner
    panner, never raises.  The 0+2+0 panner does not raise whenever its
    inner 0+5+0 panner returns something other than [None]. *)
Theorem configure_handle_no_raise (roots : list R → list complex)
    (nvo : list vec3 → list nat) (ConvexHull : list vec3 → outcome Hull)
    (nominal_position norm_position : Channel → vec3)
    (set_iter : gset nat → list nat) (bs2051_0_5_0 layout : Layout) (panner : Panner)
    (p : vec3) :
  configure roots nvo ConvexHull nominal_position norm_position set_iter bs2051_0_5_0
            layout = Ret panner →
  match panner with
  | FullPanner pspd => columns_ok pspd → ∀ e, Panner_handle panner p ≠ Raise e
  | StereoPanner psp =>
      ∃ stereo,
        psp_regions psp = [stereo]
        ∧ (columns_ok (stereo_psp stereo) →
           PointSourcePannerDownmix_handle (stereo_psp stereo) p ≠ Ret None →
           ∀ e, Panner_handle panner p ≠ Raise e)
  end.
Proof.
  unfold configure. destruct (decide (Exists _ _)); [discriminate |].
  destruct (decide (layout_name layout = "0+2+0")) as [Hname|Hname]; intros Hc.
  - apply fmap_inv_Ret in Hc as (psp & Hc & ->).
    apply _configure_stereo_Ret in Hc as (stereo & Hinit & _ & H5 & Hfull).
    destruct (stereo_panner_place stereo psp p Hinit) as (Hl & Hr & Hplace).
    apply PointSourcePanner_init_Ret in Hinit as [Hregions _].
    exists stereo. split; [exact Hregions |]. intros Hcols.
    apply _configure_full_ok in Hfull as (Hok & Hbound & Hrows).
    destruct (PointSourcePannerDownmix_handle_ok _ p Hok Hbound Hcols) as [Hnr Hlen].
    cbn [Panner_handle]. rewrite Hplace.
    intros Hsome e.
    destruct (PointSourcePannerDownmix_handle (stereo_psp stereo) p)
      as [[pv|]| |e'] eqn:Epv.
    + assert (H5' : length pv = 5%nat) by (rewrite (Hlen pv eq_refl), Hrows; exact H5).
      pose proof (StereoPanDownmix_handle_five stereo p pv Epv H5') as Hst.
      destruct (StereoPanDownmix_handle stereo p) as [[g|]| |e2] eqn:Eg;
        cbn [mbind outcome_mbind outcome_bind]; try discriminate.
      * destruct (StereoPanDownmix_handle_Some _ _ _ Eg)
          as (_ & _ & _ & _ & _ & _ & _ & Hg2 & _).
        destruct (setitems_in_range (zeros (psp_num_channels psp))
                    [left_channel stereo; right_channel stereo] g)
          as (out & -> & _).
        { rewrite Hg2. reflexivity. }
        { rewrite zeros_length.
          repeat (apply Forall_cons_2; [assumption |]). apply Forall_nil_2. }
        discriminate.
      * exfalso. exact (Hst e2 eq_refl).
    + congruence.
    + unfold StereoPanDownmix_handle. rewrite Epv. discriminate.
    + exfalso. exact (Hnr e' eq_refl).
  - apply fmap_inv_Ret in Hc as (pspd & Hfull & ->). intros Hcols.
    apply _configure_full_ok in Hfull as (Hok & Hbound & _).
    apply (PointSourcePannerDownmix_handle_ok _ p Hok Hbound Hcols).
Qed.

Lemma columns_ok_ring : columns_ok pspd_ring.
Proof. unfold columns_ok, pspd_ring, identity; simpl. repeat constructor. Qed.

Lemma configure_handle_no_raise_witness :
  configure roots_closed_form listed_order (λ _, Ret hull_ring) ring_position
            ring_position sorted_elements layout_ring layout_ring
  = Ret (FullPanner pspd_ring)
  ∧ columns_ok pspd_ring
  ∧ ∀ e, Panner_handle (FullPanner pspd_ring) nadir ≠ Raise e.
Proof.
  split; [exact configure_ring |]. split; [exact columns_ok_ring |].
  exact (configure_handle_no_raise _ _ _ _ _ _ _ _ _ nadir configure_ring columns_ok_ring).
Defined.

(** C9, as stated, fails at the zero position, which is finite: the ring
    layout is configured, and on (0, 0, 0) the first triangle of its first
    region divides by a zero norm, so that the panner returns an array of
    non-finite values. *)
Lemma zero_norm_division_counterexample :
  configure roots_closed_form listed_order (λ _, Ret hull_ring) ring_position
            ring_position sorted_elements layout_ring layout_ring
  = Ret (FullPanner pspd_ring)
  ∧ Triplet_handle (mk_triplet 0 1 4 L0 L1 nadir) vzero = NonFinite
  ∧ Panner_handle (FullPanner pspd_ring) vzero = NonFinite.
Proof.
  split; [exact configure_ring |].
  split; [apply Triplet_handle_zero | exact pspd_ring_zero].
Qed.





(** ** The 0+2+0 panner at the lower apex *)

Lemma fifth_facts : 0 < 1 / sqrt (INR 5) ∧ (1 / sqrt (INR 5)) * (1 / sqrt (INR 5)) = 1 / 5.
Proof.
  assert (H5 : INR 5 = 5) by (simpl; lra).
  assert (Hs : 0 < sqrt (INR 5)) by (apply sqrt_lt_R0; lra).
  split.
  - apply Rdiv_lt_0_compat; lra.
  - replace (1 / sqrt (INR 5) * (1 / sqrt (INR 5)))
      with (1 / (sqrt (INR 5) * sqrt (INR 5))) by (field; lra).
    rewrite sqrt_sqrt by lra. rewrite H5. reflexivity.
Qed.

Lemma pspd_five_nadir :
  PointSourcePannerDownmix_handle pspd_five nadir
  = Ret (Some (replicate 5 (1 / sqrt (INR 5)))).
Proof.
  destruct fifth_facts as [Hpos Hsq]. set (s := 1 / sqrt (INR 5)) in *.
  assert (Hnorm : norm [s; s; s; s; s] = 1).
  { unfold norm, sum_sq; simpl.
    replace (_ + _) with (1 * 1) by lra. apply sqrt_square. lra. }
  assert (Hngon : VirtualNgon_handle (ring5 [5; 6; 7; 8; 9]%nat R0 R1 R2 R3 R4 nadir) nadir
                  = Ret (Some [s; s; s; s; s])).
  { unfold VirtualNgon_handle, ring5. cbn [vn_regions vn_centre_downmix].
    change fifth5 with [s; s; s; s; s].
    rewrite (VirtualNgon_loop_accept _ _ _ nadir [0; 0; 1] [0; 0; 0; 0; 0; 1]
               [s; s; s; s; s] 1).
    - simpl. entrywise; lra.
    - rewrite (Triplet_handle_accept _ nadir e_z 1).
      + unfold vec3_list, e_z; simpl. entrywise; clip_eval.
      + apply mk_triplet_coords; [det_nonzero | unfold e_z; vec3_calc].
      + unfold tolerated, triplet_epsilon, e_z; simpl. lra.
      + unfold e_z, vec3_list; simpl. norm_is 1.
      + lra.
    - reflexivity.
    - unfold fold_centre; simpl. entrywise; lra.
    - exact Hnorm.
    - lra. }
  rewrite (PointSourcePannerDownmix_handle_eval pspd_five nadir
             [0; 0; 0; 0; 0; s; s; s; s; s; 0; 0; 0; 0; 0] [s; s; s; s; s] 1).
  - simpl. entrywise; lra.
  - unfold PointSourcePanner_handle, pspd_five.
    cbn [pspd_psp psp_regions psp_num_channels].
    apply (PointSourcePanner_loop_accept (RNgon _) _ 15 nadir [s; s; s; s; s]).
    + exact Hngon.
    + reflexivity.
  - rewrite matvec_ok by (unfold pspd_five, downmix_0_5_0; simpl; repeat constructor).
    unfold pspd_five, downmix_0_5_0, dot; simpl. entrywise; lra.
  - exact Hnorm.
  - lra.
Qed.

Lemma Rmax_same (x : R) : Rmax x x = x.
Proof. unfold Rmax. destruct (Rle_dec x x); reflexivity. Qed.

Lemma stereo_level_quarter (x : R) : x ≠ 0 → stereo_level x x = Rpower 0.5 0.25.
Proof.
  intros Hx. unfold stereo_level. f_equal.
  replace 0.5 with (1 / 2) by lra. replace 0.25 with (1 / 4) by lra. field. lra.
Qed.

Lemma quarter_power_below_one : Rpower 0.5 0.25 < 1 - 1e-9.
Proof.
  set (y := Rpower 0.5 0.25).
  assert (Hy : 0 < y) by (unfold y, Rpower; apply exp_pos).
  assert (H4 : y * (y * (y * (y * 1))) = 0.5).
  { change (y * (y * (y * (y * 1)))) with (y ^ 4).
    rewrite <- Rpower_pow by exact Hy. unfold y. rewrite Rpower_mult.
    replace (0.25 * INR 4) with 1 by (simpl; lra).
    apply Rpower_1. lra. }
  destruct (Rlt_dec y (1 - 1e-9)) as [Hlt|Hge]; [exact Hlt | exfalso].
  assert (H1 : 0.9 <= y) by lra.
  assert (H2 : 0.81 <= y * y) by nra.
  assert (H3 : 0.6 <= (y * y) * (y * y)) by nra.
  lra.
Qed.

(** C1, as stated, fails for 0+2+0.  On the unit direction (0, 0, -1) the
    inner panner shares the gain equally among its five channels, so the
    front and back maxima are equal and the two stereo gains are scaled by
    0.5 ** 0.25, about 0.84, after their normalisation. *)
Lemma stereo_norm_counterexample :
  PointSourcePanner_init [ {| left_channel := 0; right_channel := 1;
                              stereo_psp := pspd_five |} ] None = Ret stereo_example
  ∧ norm (vec3_list nadir) = 1
  ∧ PointSourcePannerDownmix_handle pspd_five nadir
    = Ret (Some (replicate 5 (1 / sqrt (INR 5))))
  ∧ ∃ g, Panner_handle (StereoPanner stereo_example) nadir = Ret (Some g)
         ∧ norm g = Rpower 0.5 0.25
         ∧ Rpower 0.5 0.25 < 1 - 1e-9.
Proof.
  split; [exact stereo_example_init |].
  split; [unfold nadir, vec3_list; simpl; norm_is 1 |].
  split; [exact pspd_five_nadir |].
  destruct fifth_facts as [Hpos Hsq]. set (s := 1 / sqrt (INR 5)) in *.
  set (stereo := {| left_channel := 0%nat; right_channel := 1%nat; stereo_psp := pspd_five |}).
  assert (Hfive : PointSourcePannerDownmix_handle pspd_five nadir
                  = Ret (Some [s; s; s; s; s])) by exact pspd_five_nadir.
  assert (Hd : ∃ d0 d1, matvec stereo_downmix [s; s; s; s; s] = Ret [d0; d1] ∧ 0 < d0).
  { eexists _, _. split.
    - rewrite matvec_ok by (unfold stereo_downmix; repeat constructor). reflexivity.
    - unfold dot; simpl.
      assert (0 <= sqrt 3 * s) by (apply Rmult_le_pos; [apply sqrt_pos | lra]).
      assert (0 <= sqrt 0.5 * s) by (apply Rmult_le_pos; [apply sqrt_pos | lra]).
      lra. }
  destruct Hd as (d0 & d1 & Hd & Hd0).
  assert (Hn : 0 < norm [d0; d1]) by (apply (norm_pos_of_entry _ d0); [left | exact Hd0]).
  assert (Hst : ∃ g, StereoPanDownmix_handle stereo nadir = Ret (Some g)).
  { unfold StereoPanDownmix_handle. cbv zeta. cbn [stereo stereo_psp].
    rewrite Hfive, bind_Ret.
    rewrite Hd, bind_Ret. rewrite div_norm_nonzero by lra. rewrite bind_Ret.
    unfold max_items, take_items. cbn [mapM getitem lookup list_lookup mbind outcome_mbind
                                        outcome_bind mret outcome_mret].
    unfold list_max_R. cbn [foldl]. rewrite !Rmax_same.
    rewrite decide_False by lra. eauto. }
  destruct Hst as (g & Hg).
  destruct (stereo_panner_place stereo stereo_example nadir stereo_example_init)
    as (Hl & Hr & Hplace).
  destruct (StereoPanDownmix_handle_Some _ _ _ Hg) as (_ & _ & _ & _ & _ & _ & _ & Hlen & _).
  destruct g as [|g0 [|g1 [|]]]; try discriminate.
  exists [g0; g1].
  assert (Hout : Panner_handle (StereoPanner stereo_example) nadir = Ret (Some [g0; g1])).
  { cbn [Panner_handle]. rewrite Hplace, Hg. reflexivity. }
  split; [exact Hout |]. split; [| exact quarter_power_below_one].
  destruct (stereo_panner_norm stereo stereo_example nadir [g0; g1] stereo_example_init)
    as (pv & front & back & Hpv & Hf & Hb & Hfb & Hnorm).
  { discriminate. }
  { exact Hout. }
  cbn [stereo stereo_psp] in Hpv. rewrite Hfive in Hpv. injection Hpv as <-.
  unfold max_items, take_items in Hf, Hb.
  cbn [mapM getitem lookup list_lookup mbind outcome_mbind outcome_bind mret outcome_mret]
    in Hf, Hb.
  unfold list_max_R in Hf, Hb. cbn [foldl] in Hf, Hb.
  repeat rewrite Rmax_same in Hf. repeat rewrite Rmax_same in Hb.
  injection Hf as <-. injection Hb as <-.
  rewrite Hnorm. apply stereo_level_quarter. lra.
Qed.

(** * Further properties of the code *)

(** ** A triplet at its own loudspeakers *)

Lemma vecmat_unit_rows (s : R) (m : mat33) :
  vecmat (V3 s 0 0) m = vscale s (row0 m)
  ∧ vecmat (V3 0 s 0) m = vscale s (row1 m)
  ∧ vecmat (V3 0 0 s) m = vscale s (row2 m).
Proof.
  repeat split; apply vec3_eq; unfold vecmat, vadd, vscale; simpl; ring.
Qed.

Lemma clip_unit (s : R) : 0 < s → clip 0 1 (s / s) = 1 ∧ clip 0 1 (0 / s) = 0.
Proof.
  intros Hs. replace (s / s) with 1 by (field; lra). replace (0 / s) with 0 by (field; lra).
  split; clip_eval.
Qed.

(** The coordinates of a position along one loudspeaker are a multiple of a
    unit vector, which the triplet accepts and normalises. *)
Lemma Triplet_handle_axis (t : Triplet) (p q : vec3) (s : R) :
  0 < s →
  q = V3 s 0 0 ∨ q = V3 0 s 0 ∨ q = V3 0 0 s →
  vecmat p (tri_basis t) = q →
  Triplet_handle t p = Ret (Some (map (λ x, x / s) (vec3_list q))).
Proof.
  intros Hs Hq Hp.
  assert (Htol : tolerated q).
  { unfold tolerated, triplet_epsilon.
    destruct Hq as [-> | [-> | ->]]; simpl; repeat split; lra. }
  assert (Hn : norm (vec3_list q) = s).
  { destruct Hq as [-> | [-> | ->]]; unfold norm, sum_sq, vec3_list; simpl;
      match goal with |- sqrt ?e = _ => replace e with (s * s) by ring end;
      apply sqrt_square; lra. }
  rewrite (Triplet_handle_accept t p q s Hp Htol Hn) by lra.
  destruct (clip_unit s Hs) as [Hone Hzero].
  destruct Hq as [-> | [-> | ->]]; simpl; rewrite Hone, Hzero;
    replace (s / s) with 1 by (field; lra); replace (0 / s) with 0 by (field; lra);
    reflexivity.
Qed.



(** ** A virtual ngon at its centre *)

Lemma insert_zero_zeros (n i : nat) : <[i := 0]> (zeros n) = zeros n.
Proof.
  destruct (decide (i < n)%nat) as [Hi|Hi].
  - apply list_insert_id, zeros_lookup, Hi.
  - apply list_insert_ge. rewrite zeros_length. lia.
Qed.

Lemma map_entry_seq (v : list R) : map (entry v) (seq 0 (length v)) = v.
Proof.
  apply list_eq. intros i.
  change (map ?f ?l) with (f <$> l). rewrite list_lookup_fmap.
  destruct (decide (i < length v)%nat) as [Hi|Hi].
  - rewrite lookup_seq_lt by exact Hi. simpl.
    destruct (lookup_lt_is_Some_2 v i Hi) as [x Hx]. rewrite Hx.
    unfold entry. rewrite Hx. reflexivity.
  - rewrite lookup_seq_ge by lia. rewrite lookup_ge_None_2 by lia. reflexivity.
Qed.

(** Folding a gain of 1 on the virtual centre, and nothing else, into the
    real loudspeakers gives the centre downmix itself. *)
Lemma fold_centre_only (cd : list R) :
  fold_centre cd (<[length cd := 1]> (zeros (length cd + 1))) = cd.
Proof.
  rewrite fold_centre_entries by (rewrite length_insert, zeros_length; lia).
  transitivity (map (entry cd) (seq 0 (length cd))); [| apply map_entry_seq].
  apply map_ext_in. intros i Hi. apply in_seq in Hi.
  unfold entry at 1 2.
  rewrite list_lookup_insert_ne by lia.
  rewrite zeros_lookup by lia.
  rewrite list_lookup_insert_eq by (rewrite zeros_length; lia).
  simpl. ring.
Qed.

(** The first triangle of a virtual ngon, at a positive multiple of the
    centre: all of its gain goes to the virtual loudspeaker and is folded
    into the real ones. *)
Lemma VirtualNgon_loop_centre (oi oj : nat) (p_i p_j centre : vec3)
    (rest : list Triplet) (cd : list R) (s : R) :
  det33 (M33 p_i p_j centre) ≠ 0 →
  (oi < length cd)%nat → (oj < length cd)%nat →
  norm cd ≠ 0 →
  0 < s →
  VirtualNgon_handle_loop (mk_triplet oi oj (length cd) p_i p_j centre :: rest) cd
                          (vscale s centre)
  = Ret (Some (map (λ x, x / norm cd) cd)).
Proof.
  intros Hdet Hoi Hoj Hcd Hs.
  eapply (VirtualNgon_loop_accept _ _ _ _ [0; 0; 1]
            (<[length cd := 1]> (zeros (length cd + 1))) cd).
  - destruct (vecmat_unit_rows s (M33 p_i p_j centre)) as (_ & _ & H2).
    cbn [row2] in H2.
    rewrite (Triplet_handle_axis _ _ (V3 0 0 s) s Hs);
      [| auto | apply mk_triplet_coords; assumption].
    simpl. replace (s / s) with 1 by (field; lra).
    replace (0 / s) with 0 by (field; lra). reflexivity.
  - unfold setitems. cbn [mk_triplet tri_output_channels length].
    rewrite decide_True by reflexivity.
    cbn [setitems_zip]. unfold setitem.
    rewrite decide_True by (rewrite zeros_length; lia).
    rewrite bind_Ret, insert_zero_zeros.
    rewrite decide_True by (rewrite zeros_length; lia).
    rewrite bind_Ret, insert_zero_zeros.
    rewrite decide_True by (rewrite zeros_length; lia).
    rewrite bind_Ret. reflexivity.
  - apply fold_centre_only.
  - reflexivity.
  - exact Hcd.
Qed.




(** ** The polynomials of a quad *)

(** X3.  The quadratic that [pan_axis] hands to [np.roots] for the ordered
    vertices a, b, c, d has at [t] the value of the triple product of
    a + t (b - a), d + t (c - d) and the position.  So for the position
    [pvs.dot(positions)] that [QuadRegion.handle] rebuilds from the pan
    parameters x and y, x is a root of the polynomial of [pan_x] and y a
    root of the polynomial of [pan_y], which is the one of the rotated
    vertices b, c, d, a. *)
Theorem pan_axis_poly_root (a b c d position : vec3) (t x y : R) :
  polyval (map (λ row, dot3 row position) (pan_axis_poly a b c d)) t
  = dot3 (cross (vadd a (vscale t (vsub b a))) (vadd d (vscale t (vsub c d)))) position
  ∧ let p := lincomb [(1 - x) * (1 - y); x * (1 - y); x * y; (1 - x) * y] [a; b; c; d] in
    polyval (map (λ row, dot3 row p) (pan_axis_poly a b c d)) x = 0
    ∧ polyval (map (λ row, dot3 row p) (pan_axis_poly b c d a)) y = 0.
Proof.
  destruct a as [a0 a1 a2], b as [b0 b1 b2], c as [c0 c1 c2], d as [d0 d1 d2],
    position as [p0 p1 p2].
  unfold polyval, pan_axis_poly, lincomb, dot3, cross, vadd, vsub, vscale, vzero.
  cbn [map foldl foldr zip_with vx vy vz].
  split; [ring |]. split; ring.
Qed.

(** ** Output channels out of range *)

Lemma setitems_zip_out_of_range (n : nat) (out : list R) (idx : list nat) (vals : list R) :
  length out = n →
  length vals = length idx →
  Exists (λ c, (n <= c)%nat) idx →
  setitems_zip out idx vals = Raise IndexError.
Proof.
  intros Hout Hlen Hex. revert out vals Hout Hlen.
  induction Hex as [c idx Hc | c idx Hex IH]; intros out vals Hout Hlen;
    (destruct vals as [|x vals]; [discriminate |]); cbn [setitems_zip]; unfold setitem.
  - rewrite decide_False by lia. reflexivity.
  - destruct (decide (c < length out)%nat) as [Hc|Hc]; [| reflexivity].
    rewrite bind_Ret. apply IH.
    + rewrite length_insert. exact Hout.
    + simpl in Hlen. lia.
Qed.

Section remap_range.
Context {A : Type} `{RegionHandler A}.

(** X4.  [handle_remap] with too few channels: when the region returns one
    gain per output channel and one of its output channels is not below
    [nchannels], the assignment [out[self.output_channels] = pv] raises
    [IndexError]. *)
Theorem handle_remap_IndexError (r : A) (p : vec3) (nchannels : nat) (pv : list R) :
  handle r p = Ret (Some pv) →
  length pv = length (output_channels r) →
  Exists (λ c, (nchannels <= c)%nat) (output_channels r) →
  handle_remap r p nchannels = Raise IndexError.
Proof.
  intros Hpv Hlen Hex. unfold handle_remap. rewrite Hpv, bind_Ret.
  unfold setitems. rewrite decide_True by exact Hlen.
  rewrite (setitems_zip_out_of_range nchannels);
    [reflexivity | apply zeros_length | exact Hlen | exact Hex].
Qed.

End remap_range.

Lemma handle_remap_IndexError_witness :
  handle tri_id e_x = Ret (Some [1; 0; 0])
  ∧ handle_remap tri_id e_x 2 = Raise IndexError.
Proof.
  assert (Hh : handle tri_id e_x = Ret (Some [1; 0; 0])).
  { pose proof (Triplet_handle_axis tri_id e_x (V3 1 0 0) 1) as Ha.
    cbn [handle Triplet_RegionHandler]. rewrite Ha.
    - simpl. replace (1 / 1) with 1 by lra. replace (0 / 1) with 0 by lra. reflexivity.
    - lra.
    - auto.
    - apply tri_id_coordinates. }
  split; [exact Hh |].
  apply (handle_remap_IndexError tri_id e_x 2 [1; 0; 0] Hh); [reflexivity |].
  right. right. left. simpl. lia.
Defined.

(** ** The channel count of a PointSourcePanner *)

Lemma foldl_max_elem (x : nat) (xs : list nat) : foldl Nat.max x xs ∈ x :: xs.
Proof.
  revert x. induction xs as [|y xs IH]; intros x; simpl; [left |].
  specialize (IH (Nat.max x y)). apply elem_of_cons in IH as [IH | IH].
  - rewrite IH. destruct (Nat.max_spec x y) as [[_ ->] | [_ ->]]; [right; left | left].
  - right. right. exact IH.
Qed.

Lemma max_nat_spec (l : list nat) :
  match max_nat l with
  | Ret m => m ∈ l ∧ Forall (λ c, (c <= m)%nat) l
  | NonFinite => False
  | Raise e => e = ValueError ∧ l = []
  end.
Proof.
  destruct l as [|x xs]; simpl; [auto |]. split; [apply foldl_max_elem |].
  destruct (foldl_max_ge x xs) as [Hx Hxs]. constructor; assumption.
Qed.

Section panner_init.
Context {A : Type} `{RegionHandler A}.

Lemma region_maxima_spec (regions : list A) :
  match mapM (λ region, max_nat (output_channels region)) regions with
  | Ret ms => Forall2 (λ r m, m ∈ output_channels r
                              ∧ Forall (λ c, (c <= m)%nat) (output_channels r)) regions ms
  | NonFinite => False
  | Raise e => e = ValueError ∧ Exists (λ r, output_channels r = []) regions
  end.
Proof.
  induction regions as [|r regions IH]; cbn [mapM]; [constructor |].
  pose proof (max_nat_spec (output_channels r)) as Hr.
  destruct (max_nat (output_channels r)) as [m| |e]; cbn [mbind outcome_mbind outcome_bind].
  - destruct (mapM _ regions) as [ms| |e]; cbn [mbind outcome_mbind outcome_bind].
    + constructor; assumption.
    + exact IH.
    + destruct IH as [-> IH]. split; [reflexivity | right; exact IH].
  - exact Hr.
  - destruct Hr as [-> Hr]. split; [reflexivity | left; exact Hr].
Qed.

(** What [_num_required_channels] computes, and when it fails. *)
Lemma _num_required_channels_spec (regions : list A) :
  match _num_required_channels regions with
  | Ret required =>
      regions ≠ [] ∧ Forall (λ r, output_channels r ≠ []) regions
      ∧ (∀ r c, r ∈ regions → c ∈ output_channels r → (c < required)%nat)
      ∧ ∃ r c, r ∈ regions ∧ c ∈ output_channels r ∧ required = (c + 1)%nat
  | NonFinite => False
  | Raise e => e = ValueError ∧ (regions = [] ∨ Exists (λ r, output_channels r = []) regions)
  end.
Proof.
  unfold _num_required_channels.
  pose proof (region_maxima_spec regions) as Hms.
  destruct (mapM _ regions) as [ms| |e]; cbn [mbind outcome_mbind outcome_bind].
  - pose proof (max_nat_spec ms) as Hm.
    destruct (max_nat ms) as [m| |e]; cbn [mbind outcome_mbind outcome_bind].
    + destruct Hm as [Hin Hall].
      assert (Hex : ∃ r c, r ∈ regions ∧ c ∈ output_channels r ∧ (m + 1 = c + 1)%nat).
      { apply list_elem_of_lookup in Hin as (i & Hi).
        destruct (Forall2_lookup_r _ _ _ _ _ Hms Hi) as (r & Hr & Hc & _).
        exists r, m. split; [eapply list_elem_of_lookup_2; exact Hr |]. auto. }
      split; [| split; [| split; [| exact Hex]]].
      * destruct Hex as (r & _ & Hr & _). intros ->. apply elem_of_nil in Hr as [].
      * eapply Forall2_Forall_l; [exact Hms |]. apply Forall_true.
        intros r mr [Hmr _] He. rewrite He in Hmr. apply elem_of_nil in Hmr as [].
      * intros r c Hr Hc. apply list_elem_of_lookup in Hr as (i & Hi).
        destruct (Forall2_lookup_l _ _ _ _ _ Hms Hi) as (mr & Hmr & _ & Hle).
        rewrite Forall_forall in Hle, Hall.
        specialize (Hle c Hc). specialize (Hall mr (list_elem_of_lookup_2 _ _ _ Hmr)). lia.
    + exact Hm.
    + destruct Hm as [-> ->]. split; [reflexivity |]. left.
      apply Forall2_nil_inv_r in Hms. exact Hms.
  - exact Hms.
  - destruct Hms as [-> Hms]. auto.
Qed.

(** X5.  A panner built without [num_channels] gets the least number of
    channels that holds every output channel of its regions: all of them
    are below it, and one of them is its predecessor. *)
Theorem PointSourcePanner_init_num_channels (regions : list A)
    (panner : PointSourcePanner A) :
  PointSourcePanner_init regions None = Ret panner →
  psp_regions panner = regions
  ∧ (∀ r c, r ∈ regions → c ∈ output_channels r → (c < psp_num_channels panner)%nat)
  ∧ ∃ r c, r ∈ regions ∧ c ∈ output_channels r ∧ psp_num_channels panner = (c + 1)%nat.
Proof.
  unfold PointSourcePanner_init. intros Hinit.
  pose proof (_num_required_channels_spec regions) as Hreq.
  destruct (_num_required_channels regions) as [required| |e]; [| discriminate | discriminate].
  rewrite bind_Ret in Hinit. injection Hinit as <-. simpl.
  split; [reflexivity | apply Hreq].
Qed.

Lemma not_Exists_empty (regions : list A) :
  Forall (λ r, output_channels r ≠ []) regions →
  ¬ Exists (λ r, output_channels r = []) regions.
Proof. intros Hall Hex. apply Exists_exists in Hex as (r & Hr & He).
       rewrite Forall_forall in Hall. exact (Hall r Hr He). Qed.

(** X6.  The constructor fails in two ways only.  It raises [ValueError]
    exactly when there is no region or a region has no output channel (the
    [max] of nothing), whatever [num_channels] is; it raises
    [AssertionError] exactly when every region has an output channel and
    the given [num_channels] is not above one of them. *)
Theorem PointSourcePanner_init_errors (regions : list A) (num_channels : option nat) :
  (PointSourcePanner_init regions num_channels = Raise ValueError
   ↔ regions = [] ∨ Exists (λ r, output_channels r = []) regions)
  ∧ (PointSourcePanner_init regions num_channels = Raise AssertionError
     ↔ regions ≠ [] ∧ Forall (λ r, output_channels r ≠ []) regions
       ∧ ∃ n, num_channels = Some n
              ∧ Exists (λ r, Exists (λ c, (n <= c)%nat) (output_channels r)) regions)
  ∧ PointSourcePanner_init regions num_channels ≠ NonFinite
  ∧ ∀ e, PointSourcePanner_init regions num_channels = Raise e →
         e = ValueError ∨ e = AssertionError.
Proof.
  unfold PointSourcePanner_init.
  pose proof (_num_required_channels_spec regions) as Hreq.
  destruct (_num_required_channels regions) as [required| |e];
    cbn [mbind outcome_mbind outcome_bind]; [| contradiction |].
  - destruct Hreq as (Hne & Hall & Hbound & r & c & Hr & Hc & ->).
    pose proof (not_Exists_empty regions Hall) as Hnex.
    destruct num_channels as [n|].
    + destruct (decide (c + 1 <= n)%nat) as [Hle|Hgt].
      * split; [split; [discriminate | tauto] |].
        split; [| split; [discriminate | discriminate]].
        split; [discriminate |].
        intros (_ & _ & n' & [= <-] & Hex).
        apply Exists_exists in Hex as (r' & Hr' & Hex).
        apply Exists_exists in Hex as (c' & Hc' & Hle').
        specialize (Hbound r' c' Hr' Hc'). lia.
      * split; [split; [discriminate | tauto] |].
        split; [| split; [discriminate |]].
        -- split; [| reflexivity]. intros _. split; [exact Hne |]. split; [exact Hall |].
           exists n. split; [reflexivity |].
           apply Exists_exists. exists r. split; [exact Hr |].
           apply Exists_exists. exists c. split; [exact Hc | lia].
        -- intros e [= <-]. auto.
    + split; [split; [discriminate | tauto] |].
      split; [| split; [discriminate | discriminate]].
      split; [discriminate |]. intros (_ & _ & n & Hn & _). discriminate.
  - destruct Hreq as [-> Hreq].
    split; [tauto |]. split; [| split; [discriminate |]].
    + split; [discriminate |]. intros (Hne & Hall & _).
      destruct Hreq as [-> | Hex]; [congruence |].
      exfalso. exact (not_Exists_empty regions Hall Hex).
    + intros e [= <-]. auto.
Qed.

End panner_init.

Lemma PointSourcePanner_init_num_channels_witness :
  PointSourcePanner_init [tri_id] None = Ret psp_tri_id
  ∧ ∃ r c, r ∈ [tri_id] ∧ c ∈ output_channels r ∧ psp_num_channels psp_tri_id = (c + 1)%nat.
Proof.
  assert (Hinit : PointSourcePanner_init [tri_id] None = Ret psp_tri_id) by reflexivity.
  split; [exact Hinit |].
  exact (proj2 (proj2 (PointSourcePanner_init_num_channels [tri_id] psp_tri_id Hinit))).
Defined.

(** ** What a PointSourcePanner returns *)

Section panner_handle.
Context {A : Type} `{RegionHandler A}.

Lemma PointSourcePanner_loop_length (regions : list A) (n : nat) (p : vec3) :
  Forall (λ r, Forall (λ c, (c < n)%nat) (output_channels r)) regions →
  (∀ r g, r ∈ regions → handle r p = Ret (Some g) → length g = length (output_channels r)) →
  (∀ out, PointSourcePanner_handle_loop regions n p = Ret (Some out) → length out = n)
  ∧ (∀ e, PointSourcePanner_handle_loop regions n p = Raise e →
          ∃ r, r ∈ regions ∧ handle r p = Raise e).
Proof.
  intros Hbound. induction Hbound as [|r regions Hr _ IH]; intros Hlen;
    cbn [PointSourcePanner_handle_loop].
  - split; discriminate.
  - destruct IH as [IHlen IHraise].
    { intros r' g Hr'. apply Hlen. right. exact Hr'. }
    unfold handle_remap.
    destruct (handle r p) as [[g|]| |e] eqn:Eg; cbn [mbind outcome_mbind outcome_bind].
    + destruct (setitems_in_range (zeros n) (output_channels r) g) as (out & -> & Hout & _).
      { apply (Hlen r g); [left | exact Eg]. }
      { rewrite zeros_length. exact Hr. }
      cbn [mbind outcome_mbind outcome_bind]. rewrite zeros_length in Hout.
      split; [| discriminate]. intros out' [= <-]. exact Hout.
    + split; [exact IHlen |]. intros e He.
      destruct (IHraise e He) as (r' & Hr' & He'). exists r'. split; [right |]; assumption.
    + split; discriminate.
    + split; [discriminate |]. intros e' [= <-]. exists r. split; [left | exact Eg].
Qed.

(** X7.  When every region keeps the RegionHandler contract at [p] (an
    array it returns has the size of its [output_channels]), a constructed
    panner returns arrays of exactly [num_channels] entries, and an
    exception it raises at [p] is one that a region's own [handle] raised:
    the assignment to the output channels cannot fail. *)
Theorem PointSourcePanner_handle_length (regions : list A) (num_channels : option nat)
    (panner : PointSourcePanner A) (p : vec3) :
  PointSourcePanner_init regions num_channels = Ret panner →
  (∀ r g, r ∈ regions → handle r p = Ret (Some g) → length g = length (output_channels r)) →
  (∀ out, PointSourcePanner_handle panner p = Ret (Some out) →
          length out = psp_num_channels panner)
  ∧ (∀ e, PointSourcePanner_handle panner p = Raise e →
          ∃ r, r ∈ regions ∧ handle r p = Raise e).
Proof.
  intros Hinit Hlen.
  apply PointSourcePanner_init_Ret in Hinit as [Hregions Hbound].
  unfold PointSourcePanner_handle. rewrite Hregions.
  apply PointSourcePanner_loop_length; assumption.
Qed.

End panner_handle.

Lemma PointSourcePanner_handle_length_witness :
  PointSourcePanner_init [tri_id] (Some 5%nat)
  = Ret {| psp_regions := [tri_id]; psp_num_channels := 5 |}
  ∧ ∀ out, PointSourcePanner_handle {| psp_regions := [tri_id]; psp_num_channels := 5 |} e_x
           = Ret (Some out) → length out = 5%nat.
Proof.
  assert (Hinit : PointSourcePanner_init [tri_id] (Some 5%nat)
                  = Ret {| psp_regions := [tri_id]; psp_num_channels := 5 |}) by reflexivity.
  split; [exact Hinit |].
  apply (PointSourcePanner_handle_length [tri_id] (Some 5%nat) _ e_x Hinit).
  intros r g Hr Hg. apply list_elem_of_singleton in Hr as ->.
  apply Triplet_handle_length in Hg. exact Hg.
Defined.

(** ** The facets of the hull *)

(** One step of the merge: the facets before it only grow, the new triangle
    lies within one of them, no vertex comes from elsewhere, and at most one
    facet is added. *)
Lemma merge_simplex_spec (facets : list (list R * gset nat)) (tri : list nat)
    (equation : list R) :
  (∀ e s, (e, s) ∈ facets →
     ∃ s', (e, s') ∈ merge_simplex facets tri equation ∧ s ⊆ s')
  ∧ (∃ e s, (e, s) ∈ merge_simplex facets tri equation ∧ list_to_set tri ⊆ s)
  ∧ (∀ e s v, (e, s) ∈ merge_simplex facets tri equation → v ∈ s →
       v ∈ tri ∨ ∃ e0 s0, (e0, s0) ∈ facets ∧ v ∈ s0)
  ∧ (length (merge_simplex facets tri equation) <= S (length facets))%nat.
Proof.
  induction facets as [|[fe fs] facets IH]; cbn [merge_simplex].
  - split; [intros e s Hin; apply elem_of_nil in Hin as [] |].
    split; [exists equation, (list_to_set tri); split; [left | reflexivity] |].
    split; [| simpl; lia].
    intros e s v Hin Hv. apply list_elem_of_singleton in Hin as [= -> ->].
    left. apply elem_of_list_to_set in Hv. exact Hv.
  - destruct IH as (IHmono & (e1 & s1 & Hin1 & Hsub1) & IHsrc & IHlen).
    destruct (decide (norm (zip_with Rminus fe equation) < merge_tolerance)).
    + split; [| split; [| split; [| simpl; lia]]].
      * intros e s Hin. apply elem_of_cons in Hin as [[= -> ->] | Hin].
        -- exists (fs ∪ list_to_set tri). split; [left | apply union_subseteq_l].
        -- exists s. split; [right; exact Hin | reflexivity].
      * exists fe, (fs ∪ list_to_set tri). split; [left | apply union_subseteq_r].
      * intros e s v Hin Hv. apply elem_of_cons in Hin as [[= -> ->] | Hin].
        -- apply elem_of_union in Hv as [Hv | Hv].
           ++ right. exists fe, fs. split; [left | exact Hv].
           ++ left. apply elem_of_list_to_set in Hv. exact Hv.
        -- right. exists e, s. split; [right; exact Hin | exact Hv].
    + split; [| split; [| split; [| simpl; lia]]].
      * intros e s Hin. apply elem_of_cons in Hin as [[= -> ->] | Hin].
        -- exists fs. split; [left | reflexivity].
        -- destruct (IHmono e s Hin) as (s' & Hin' & Hsub).
           exists s'. split; [right; exact Hin' | exact Hsub].
      * exists e1, s1. split; [right; exact Hin1 | exact Hsub1].
      * intros e s v Hin Hv. apply elem_of_cons in Hin as [[= -> ->] | Hin].
        -- right. exists fe, fs. split; [left | exact Hv].
        -- destruct (IHsrc e s v Hin Hv) as [Hl | (e0 & s0 & Hin0 & Hv0)]; [left; exact Hl |].
           right. exists e0, s0. split; [right; exact Hin0 | exact Hv0].
Qed.

(** The invariant of the loop of [_convex_hull_facets]. *)
Lemma merge_loop_spec (pairs : list (list nat * list R)) (facets : list (list R * gset nat)) :
  (∀ e s, (e, s) ∈ facets → ∃ s', (e, s') ∈ foldl (λ fs te, merge_simplex fs te.1 te.2) facets pairs ∧ s ⊆ s')
  ∧ (∀ te, te ∈ pairs → ∃ e s, (e, s) ∈ foldl (λ fs te, merge_simplex fs te.1 te.2) facets pairs ∧ list_to_set te.1 ⊆ s)
  ∧ (∀ e s v, (e, s) ∈ foldl (λ fs te, merge_simplex fs te.1 te.2) facets pairs → v ∈ s →
       (∃ te, te ∈ pairs ∧ v ∈ te.1) ∨ ∃ e0 s0, (e0, s0) ∈ facets ∧ v ∈ s0)
  ∧ (length (foldl (λ fs te, merge_simplex fs te.1 te.2) facets pairs) <= length facets + length pairs)%nat.
Proof.
  revert facets. induction pairs as [|[tri eq0] pairs IH]; intros facets; cbn [foldl].
  - split; [intros e s Hin; exists s; split; [exact Hin | reflexivity] |].
    split; [intros te Hin; apply elem_of_nil in Hin as [] |].
    split; [| simpl; lia]. intros e s v Hin Hv. right. exists e, s. auto.
  - destruct (merge_simplex_spec facets tri eq0) as (Smono & (e1 & s1 & Sin & Ssub) & Ssrc & Slen).
    destruct (IH (merge_simplex facets tri eq0)) as (Imono & Icover & Isrc & Ilen).
    cbn [fst snd].
    split; [| split; [| split; [| simpl; lia]]].
    + intros e s Hin. destruct (Smono e s Hin) as (s' & Hin' & Hsub).
      destruct (Imono e s' Hin') as (s'' & Hin'' & Hsub').
      exists s''. split; [exact Hin'' | etransitivity; eassumption].
    + intros te Hin. apply elem_of_cons in Hin as [-> | Hin]; [| apply Icover, Hin].
      destruct (Imono e1 s1 Sin) as (s' & Hin' & Hsub).
      exists e1, s'. split; [exact Hin' | cbn [fst]; etransitivity; eassumption].
    + intros e s v Hin Hv.
      destruct (Isrc e s v Hin Hv) as [(te & Hte & Hvte) | (e0 & s0 & Hin0 & Hv0)].
      * left. exists te. split; [right; exact Hte | exact Hvte].
      * destruct (Ssrc e0 s0 v Hin0 Hv0) as [Hl | Hr]; [| right; exact Hr].
        left. exists (tri, eq0). split; [left | exact Hl].
Qed.

(** X8.  The facets that [_convex_hull_facets] returns cover the hull and
    nothing else: every triangle of the hull lies within one facet, every
    vertex of a facet is a vertex of a triangle, and there are no more
    facets than triangles. *)
Theorem _convex_hull_facets_cover (ConvexHull : list vec3 → outcome Hull)
    (positions : list vec3) (facets : list (gset nat)) :
  _convex_hull_facets ConvexHull positions = Ret facets →
  ∃ hull,
    ConvexHull positions = Ret hull
    ∧ let triangles := zip (simplices hull) (equations hull) in
      (∀ tri equation, (tri, equation) ∈ triangles →
         ∃ facet, facet ∈ facets ∧ list_to_set tri ⊆ facet)
      ∧ (∀ facet v, facet ∈ facets → v ∈ facet →
           ∃ tri equation, (tri, equation) ∈ triangles ∧ v ∈ tri)
      ∧ (length facets <= length triangles)%nat.
Proof.
  unfold _convex_hull_facets. intros Hf.
  apply bind_inv_Ret in Hf as (hull & Hhull & [= <-]).
  exists hull. split; [exact Hhull |]. cbv zeta. unfold merge_facets.
  set (triangles := zip (simplices hull) (equations hull)).
  destruct (merge_loop_spec triangles []) as (_ & Hcover & Hsrc & Hlen).
  split; [| split].
  - intros tri equation Hin. destruct (Hcover _ Hin) as (e & s & Hes & Hsub).
    exists s. split; [| exact Hsub].
    apply list_elem_of_fmap. exists (e, s). auto.
  - intros facet v Hfacet Hv.
    apply list_elem_of_fmap in Hfacet as ([e s] & -> & Hes).
    destruct (Hsrc e s v Hes Hv) as [([tri equation] & Hte & Hvte) | (? & ? & Hnil & _)].
    + exists tri, equation. auto.
    + apply elem_of_nil in Hnil as [].
  - rewrite length_map. simpl in Hlen. exact Hlen.
Qed.

Lemma _convex_hull_facets_cover_witness :
  _convex_hull_facets (λ _, Ret hull_ring) (map ring_position (channels layout_ring))
  = Ret facets_ring
  ∧ ∃ hull,
      (λ _ : list vec3, Ret hull_ring) (map ring_position (channels layout_ring)) = Ret hull
      ∧ let triangles := zip (simplices hull) (equations hull) in
        (∀ tri equation, (tri, equation) ∈ triangles →
           ∃ facet, facet ∈ facets_ring ∧ list_to_set tri ⊆ facet)
        ∧ (∀ facet v, facet ∈ facets_ring → v ∈ facet →
             ∃ tri equation, (tri, equation) ∈ triangles ∧ v ∈ tri)
        ∧ (length facets_ring <= length triangles)%nat.
Proof.
  assert (Hf : _convex_hull_facets (λ _, Ret hull_ring)
                 (map ring_position (channels layout_ring)) = Ret facets_ring).
  { unfold _convex_hull_facets. rewrite bind_Ret, merge_facets_ring. reflexivity. }
  split; [exact Hf |].
  exact (_convex_hull_facets_cover _ _ _ Hf).
Defined.

(** ** Adjacent vertices *)

Lemma _adjacent_verts_outcome (facets : list (gset nat)) (vert : nat) :
  match _adjacent_verts facets vert with
  | Ret _ => Exists (λ facet, vert ∈ facet) facets
  | NonFinite => False
  | Raise e => e = TypeError ∧ Forall (λ facet, vert ∉ facet) facets
  end.
Proof.
  unfold _adjacent_verts.
  destruct (filter (λ fv, vert ∈ fv) facets) as [|f fs] eqn:Ef.
  - split; [reflexivity |]. apply Forall_forall. intros facet Hin Hv.
    assert (Hf : facet ∈ filter (λ fv, vert ∈ fv) facets)
      by (apply list_elem_of_filter; auto).
    rewrite Ef in Hf. apply elem_of_nil in Hf as [].
  - assert (Hf : f ∈ filter (λ fv, vert ∈ fv) facets) by (rewrite Ef; left).
    apply list_elem_of_filter in Hf as [Hv Hf].
    apply Exists_exists. exists f. auto.
Qed.

(** X9.  [_adjacent_verts] fails exactly when the vertex is on no facet,
    and then with the [TypeError] of [set.union] called without a set. *)
Theorem _adjacent_verts_TypeError (facets : list (gset nat)) (vert : nat) (e : exn) :
  _adjacent_verts facets vert = Raise e
  ↔ e = TypeError ∧ Forall (λ facet, vert ∉ facet) facets.
Proof.
  pose proof (_adjacent_verts_outcome facets vert) as Ho. split.
  - intros He. rewrite He in Ho. exact Ho.
  - intros [-> Hall].
    destruct (_adjacent_verts facets vert) as [adjacent| |e]; [| contradiction |].
    + apply Exists_exists in Ho as (facet & Hin & Hv).
      rewrite Forall_forall in Hall. destruct (Hall facet Hin Hv).
    + destruct Ho as [-> _]. reflexivity.
Qed.

(** X10.  Adjacency is symmetric and irreflexive: a vertex is never
    adjacent to itself, and when [x] is adjacent to [vert] then
    [_adjacent_verts] succeeds on [x] and [vert] is adjacent to [x]. *)
Theorem _adjacent_verts_symmetric (facets : list (gset nat)) (vert x : nat)
    (adjacent : gset nat) :
  _adjacent_verts facets vert = Ret adjacent →
  x ∈ adjacent →
  x ≠ vert
  ∧ ∃ adjacent', _adjacent_verts facets x = Ret adjacent' ∧ vert ∈ adjacent'.
Proof.
  intros Hadj Hx.
  apply (_adjacent_verts_spec facets vert adjacent Hadj) in Hx as [Hne (facet & Hin & Hv & Hx)].
  split; [exact Hne |].
  pose proof (_adjacent_verts_outcome facets x) as Ho.
  destruct (_adjacent_verts facets x) as [adjacent'| |e] eqn:Ex; [| contradiction |].
  - exists adjacent'. split; [reflexivity |].
    apply (_adjacent_verts_spec facets x adjacent' Ex). split; [congruence |].
    exists facet. auto.
  - destruct Ho as [_ Hall]. rewrite Forall_forall in Hall. destruct (Hall facet Hin Hx).
Qed.

Lemma _adjacent_verts_symmetric_witness :
  _adjacent_verts facets_ring 4 = Ret (list_to_set [0; 1; 2; 3]%nat)
  ∧ (2%nat ∈ (list_to_set [0; 1; 2; 3]%nat : gset nat))
  ∧ ∃ adjacent', _adjacent_verts facets_ring 2 = Ret adjacent' ∧ 4%nat ∈ adjacent'.
Proof.
  assert (Hadj : _adjacent_verts facets_ring 4 = Ret (list_to_set [0; 1; 2; 3]%nat))
    by (apply adjacent_ring; left; reflexivity).
  assert (Hx : 2%nat ∈ (list_to_set [0; 1; 2; 3]%nat : gset nat))
    by (apply elem_of_list_to_set; do 2 right; left).
  split; [exact Hadj |]. split; [exact Hx |].
  exact (proj2 (_adjacent_verts_symmetric facets_ring 4 2 _ Hadj Hx)).
Defined.

(** ** The downmix of the extra channels *)

(** The two results of [extra_pos_vertical_nominal], with the loops
    unrolled. *)
Lemma extra_pos_vertical_nominal_eq (layout : Layout) :
  let n := length (channels layout) in
  let pos := map channel_pos (channels layout) in
  let lower := layer_limits (-30) (-70) (-10) pos in
  let upper := layer_limits 30 10 70 pos in
  extra_pos_vertical_nominal layout
  = (map (λ ip, extra_channel ip.2 lower.2 (-30)) (selected_mids lower.1 pos)
     ++ map (λ ip, extra_channel ip.2 upper.2 30) (selected_mids upper.1 pos),
     transpose n (identity n
                  ++ map (λ ip, downmix_row n ip.1)
                         (selected_mids lower.1 pos ++ selected_mids upper.1 pos))).
Proof.
  intros n pos lower upper. unfold extra_pos_vertical_nominal. fold n. fold pos.
  unfold layers. cbn [extra_layer_loop]. fold lower. fold upper.
  destruct lower as [azl ell], upper as [azu elu].
  rewrite !extra_mid_loop_spec. cbn [fst snd]. unfold selected_mids.
  rewrite map_app, <- !app_assoc. reflexivity.
Qed.

(** The downmix has one column for each original and extra channel, and its
    entries are zeros and ones. *)
Lemma extra_pos_vertical_nominal_downmix (layout : Layout) :
  Forall (λ row, length row = (length (channels layout)
                               + length (extra_pos_vertical_nominal layout).1)%nat
                 ∧ Forall (λ x, x = 0 ∨ x = 1) row)
         (extra_pos_vertical_nominal layout).2.
Proof.
  rewrite (extra_pos_vertical_nominal_eq layout). cbn [fst snd].
  set (n := length (channels layout)).
  set (mids := _ ++ _ : list (nat * pos_rec)).
  apply Forall_forall. intros row Hrow. unfold transpose in Hrow.
  apply list_elem_of_fmap in Hrow as (i & -> & _). split.
  - rewrite length_map, !length_app, !length_map. unfold identity, mids.
    rewrite length_map, length_seq, length_app. reflexivity.
  - apply Forall_forall. intros x Hx.
    apply list_elem_of_fmap in Hx as (r & -> & Hr).
    assert (Hunit : ∃ c, r = <[c := 1]> (zeros n)).
    { apply elem_of_app in Hr as [Hr | Hr].
      - unfold identity in Hr. apply list_elem_of_fmap in Hr as (c & -> & _). eauto.
      - apply list_elem_of_fmap in Hr as (ip & -> & _). unfold downmix_row. eauto. }
    destruct Hunit as (c & ->).
    destruct (<[c := 1]> (zeros n) !! i) as [x|] eqn:Ex; simpl; [| auto].
    destruct (decide (i = c)) as [->|Hne].
    + apply list_lookup_insert_Some in Ex as [(_ & <- & _) | (Hne & _)]; [auto | congruence].
    + rewrite list_lookup_insert_ne in Ex by congruence.
      apply lookup_replicate in Ex as [-> _]. auto.
Qed.

Lemma virtual_verts_elem (n v c : nat) :
  c ∈ map (λ k, n + k)%nat (seq 0 v) ↔ (n <= c < n + v)%nat.
Proof.
  change (map ?f ?l) with (f <$> l). rewrite list_elem_of_fmap. split.
  - intros (k & -> & Hk). apply elem_of_seq in Hk. lia.
  - intros Hc. exists (c - n)%nat. split; [lia |]. apply elem_of_seq. lia.
Qed.

Lemma sorted_elements_elem (s : gset nat) (x : nat) : x ∈ sorted_elements s → x ∈ s.
Proof.
  unfold sorted_elements. intros Hx.
  rewrite merge_sort_Permutation in Hx. apply elem_of_elements in Hx. exact Hx.
Qed.

(** ** The 0+5+0 table and the 0+2+0 layout, configured *)

Lemma extra_pos_five :
  extra_pos_vertical_nominal layout_five = (extras_five, downmix_0_5_0).
Proof.
  pose proof (extra_pos_vertical_nominal_eq layout_five) as Heq. cbv zeta in Heq.
  rewrite Heq. clear Heq.
  assert (Hlower : layer_limits (-30) (-70) (-10) (map channel_pos (channels layout_five))
                   = (0, -30)).
  { unfold layer_limits. cbn [layout_five channels map].
    repeat (rewrite filter_cons_False
              by (unfold el_between, channel_pos, mid_channel; simpl; lra)).
    reflexivity. }
  assert (Hupper : layer_limits 30 10 70 (map channel_pos (channels layout_five)) = (0, 30)).
  { unfold layer_limits. cbn [layout_five channels map].
    repeat (rewrite filter_cons_False
              by (unfold el_between, channel_pos, mid_channel; simpl; lra)).
    reflexivity. }
  rewrite Hlower, Hupper. cbn [fst snd].
  assert (Hmids : selected_mids 0 (map channel_pos (channels layout_five))
                  = imap pair (map channel_pos (channels layout_five))).
  { unfold selected_mids, where_zip. cbn [layout_five channels map]. cbv [imap compose].
    repeat (rewrite filter_cons_True
              by (unfold mid_mask, el_between, channel_pos, mid_channel; simpl;
                  try match goal with |- Rabs ?x >= _ => pose proof (Rabs_pos x) end; lra)).
    rewrite filter_nil. reflexivity. }
  rewrite Hmids. reflexivity.
Qed.

Lemma virtual_positions_five : virtual_positions layout_five = [nadir; zenith].
Proof.
  unfold virtual_positions. rewrite decide_False; [reflexivity |].
  unfold channel_names, layout_five, mid_channel; simpl.
  rewrite !elem_of_cons, !elem_of_nil. intuition discriminate.
Qed.

Lemma positions_five_eq :
  map five_position (channels layout_five ++ extras_five) ++ [nadir; zenith]
  = positions_five.
Proof.
  unfold extras_five, layout_five, positions_five. cbn [channels map app].
  unfold five_position, extra_channel, channel_pos, mid_channel.
  cbn [polar_position polar_nominal_position azimuth elevation real_az].
  repeat first [ rewrite decide_True by lra | rewrite decide_False by lra ].
  reflexivity.
Qed.

Lemma close_same (e : list R) : norm (zip_with Rminus e e) < merge_tolerance.
Proof.
  rewrite norm_of_zeros; [unfold merge_tolerance; lra |].
  induction e as [|x e IH]; simpl; constructor; [lra | exact IH].
Qed.

Ltac far4 :=
  first [ eapply (far_apart _ _ 0); [reflexivity | reflexivity | far_bound]
        | eapply (far_apart _ _ 1); [reflexivity | reflexivity | far_bound]
        | eapply (far_apart _ _ 2); [reflexivity | reflexivity | far_bound]
        | eapply (far_apart _ _ 3); [reflexivity | reflexivity | far_bound] ].

Lemma merge_facets_five : merge_facets hull_five = facets_five.
Proof.
  unfold merge_facets, hull_five. cbn [simplices equations zip zip_with foldl fst snd].
  repeat (cbn [merge_simplex fst snd];
          first [ rewrite decide_True by apply close_same
                | rewrite decide_False by far4 ]).
  reflexivity.
Qed.

Ltac det_five :=
  unfold det33, dot3, cross, M0, M1, M2, M3, M4, lower_of, upper_of, nadir, zenith;
  simpl; lra.

Lemma ngon_five_init (channels : list nat) (side : vec3 → vec3) (centre : vec3) :
  length channels = 5%nat →
  (side = lower_of ∧ centre = nadir) ∨ (side = upper_of ∧ centre = zenith) →
  VirtualNgon_init order_five channels [side M0; side M1; side M2; side M3; side M4]
                   centre fifth5
  = Ret (ngon_five channels (side M0) (side M1) (side M2) (side M3) (side M4) centre).
Proof.
  intros Hlen Hside. unfold VirtualNgon_init.
  rewrite decide_True by (rewrite Hlen; split; reflexivity).
  rewrite Hlen. erewrite mapM_Ret_2; [reflexivity |].
  destruct Hside as [[-> ->] | [-> ->]];
    repeat constructor; unfold VirtualNgon_region; simpl;
    apply Triplet_init_ok; det_five.
Qed.

Lemma adjacent_five :
  _adjacent_verts facets_five 15 = Ret (list_to_set [5; 6; 7; 8; 9]%nat)
  ∧ _adjacent_verts facets_five 16 = Ret (list_to_set [10; 11; 12; 13; 14]%nat).
Proof. split; vm_compute; reflexivity. Qed.

Lemma sorted_elements_five :
  sorted_elements (list_to_set [5; 6; 7; 8; 9]%nat) = [5; 6; 7; 8; 9]%nat
  ∧ sorted_elements (list_to_set [10; 11; 12; 13; 14]%nat) = [10; 11; 12; 13; 14]%nat.
Proof. split; vm_compute; reflexivity. Qed.

Lemma virtual_ngon_region_five :
  virtual_ngon_region order_five sorted_elements positions_five facets_five
                      [15; 16]%nat 15
  = Ret (RNgon (ngon_five [5; 6; 7; 8; 9]%nat (lower_of M0) (lower_of M1) (lower_of M2)
                          (lower_of M3) (lower_of M4) nadir))
  ∧ virtual_ngon_region order_five sorted_elements positions_five facets_five
                        [15; 16]%nat 16
    = Ret (RNgon (ngon_five [10; 11; 12; 13; 14]%nat (upper_of M0) (upper_of M1)
                            (upper_of M2) (upper_of M3) (upper_of M4) zenith)).
Proof.
  destruct adjacent_five as [Hlow Hup]. destruct sorted_elements_five as [Slow Sup].
  split; unfold virtual_ngon_region.
  - rewrite Hlow, bind_Ret, Slow.
    rewrite decide_True by (vm_compute; reflexivity).
    change (take_items positions_five [5; 6; 7; 8; 9]%nat)
      with (Ret [lower_of M0; lower_of M1; lower_of M2; lower_of M3; lower_of M4]).
    rewrite bind_Ret.
    change (getitem positions_five 15) with (Ret nadir). rewrite bind_Ret.
    change (replicate (length [5; 6; 7; 8; 9]%nat) (1 / sqrt (INR (length [5; 6; 7; 8; 9]%nat))))
      with fifth5.
    rewrite (ngon_five_init [5; 6; 7; 8; 9]%nat lower_of nadir eq_refl) by auto. reflexivity.
  - rewrite Hup, bind_Ret, Sup.
    rewrite decide_True by (vm_compute; reflexivity).
    change (take_items positions_five [10; 11; 12; 13; 14]%nat)
      with (Ret [upper_of M0; upper_of M1; upper_of M2; upper_of M3; upper_of M4]).
    rewrite bind_Ret.
    change (getitem positions_five 16) with (Ret zenith). rewrite bind_Ret.
    change (replicate (length [10; 11; 12; 13; 14]%nat)
                      (1 / sqrt (INR (length [10; 11; 12; 13; 14]%nat))))
      with fifth5.
    rewrite (ngon_five_init [10; 11; 12; 13; 14]%nat upper_of zenith eq_refl) by auto. reflexivity.
Qed.

(** A facet that holds an apex is skipped by the loop over the facets. *)
Lemma facet_region_apex (facet : gset nat) :
  size (facet ∩ list_to_set [15; 16]%nat) ≠ 0%nat →
  facet_region roots_closed_form order_five sorted_elements positions_five
               [15; 16]%nat facet = Ret None.
Proof.
  intros Hsize. unfold facet_region. rewrite decide_False; [reflexivity |].
  intros Hempty. apply Hsize. rewrite Hempty. reflexivity.
Qed.

(** A facet of four vertices below the apexes becomes a quad. *)
Lemma facet_region_quad (facet : gset nat) (i j k l : nat) (a b c d : vec3) :
  facet ∩ list_to_set [15; 16]%nat = ∅ →
  sorted_elements facet = [i; j; k; l] →
  take_items positions_five [i; j; k; l] = Ret [a; b; c; d] →
  facet_region roots_closed_form order_five sorted_elements positions_five
               [15; 16]%nat facet
  = Ret (Some (RQuad (quad_five [i; j; k; l] a b c d))).
Proof.
  intros Hdisj Hsorted Hpos. unfold facet_region.
  rewrite decide_True by exact Hdisj. rewrite Hsorted.
  rewrite decide_False by (simpl; lia). rewrite decide_True by reflexivity.
  rewrite Hpos, bind_Ret. reflexivity.
Qed.

Lemma facet_regions_five :
  mapM (facet_region roots_closed_form order_five sorted_elements positions_five [15; 16]%nat)
       facets_five
  = Ret (replicate 10 None
         ++ [ Some (RQuad (quad_five [0; 3; 5; 8]%nat M0 M3 (lower_of M0) (lower_of M3)));
              Some (RQuad (quad_five [0; 2; 5; 7]%nat M0 M2 (lower_of M0) (lower_of M2)));
              Some (RQuad (quad_five [1; 2; 6; 7]%nat M1 M2 (lower_of M1) (lower_of M2)));
              Some (RQuad (quad_five [1; 4; 6; 9]%nat M1 M4 (lower_of M1) (lower_of M4)));
              Some (RQuad (quad_five [3; 4; 8; 9]%nat M3 M4 (lower_of M3) (lower_of M4)));
              Some (RQuad (quad_five [0; 3; 10; 13]%nat M0 M3 (upper_of M0) (upper_of M3)));
              Some (RQuad (quad_five [0; 2; 10; 12]%nat M0 M2 (upper_of M0) (upper_of M2)));
              Some (RQuad (quad_five [1; 2; 11; 12]%nat M1 M2 (upper_of M1) (upper_of M2)));
              Some (RQuad (quad_five [1; 4; 11; 14]%nat M1 M4 (upper_of M1) (upper_of M4)));
              Some (RQuad (quad_five [3; 4; 13; 14]%nat M3 M4 (upper_of M3) (upper_of M4))) ]).
Proof.
  apply mapM_Ret_2. unfold facets_five. simpl replicate. cbn [app].
  do 10 (apply List.Forall2_cons;
         [apply facet_region_apex; vm_compute; discriminate |]).
  do 10 (apply List.Forall2_cons;
         [apply facet_region_quad; [vm_compute; reflexivity | vm_compute; reflexivity
                                    | reflexivity] |]).
  apply List.Forall2_nil.
Qed.

(** [_configure_full] on the 0+5+0 table. *)
Lemma configure_full_five :
  _configure_full roots_closed_form order_five (λ _, Ret hull_five) five_position
                  five_position sorted_elements layout_five
  = Ret pspd_050.
Proof.
  unfold _configure_full. rewrite extra_pos_five, virtual_positions_five.
  unfold _convex_hull_facets. rewrite bind_Ret, merge_facets_five, bind_Ret.
  rewrite positions_five_eq.
  change (map (λ k, (length (channels layout_five ++ extras_five) + k)%nat)
              (seq 0 (length [nadir; zenith]))) with [15; 16]%nat.
  destruct virtual_ngon_region_five as [Hlow Hup].
  cbn [mapM]. rewrite Hlow, Hup, !bind_Ret.
  rewrite facet_regions_five, bind_Ret.
  reflexivity.
Qed.

(** [configure] on the 0+2+0 layout, with the 0+5+0 table above. *)
Lemma configure_stereo :
  configure roots_closed_form order_five (λ _, Ret hull_five) five_position five_position
            sorted_elements layout_five layout_stereo
  = Ret (StereoPanner panner_stereo).
Proof.
  unfold configure.
  rewrite decide_False
    by (unfold layout_stereo, mid_channel; cbn [channels];
        rewrite !Exists_cons, Exists_nil; simpl; intuition discriminate).
  rewrite decide_True by reflexivity.
  unfold _configure_stereo.
  change (list_index "M+030" (channel_names layout_stereo)) with (Ret 0%nat : outcome nat).
  change (list_index "M-030" (channel_names layout_stereo)) with (Ret 1%nat : outcome nat).
  rewrite !bind_Ret. unfold StereoPanDownmix_init.
  rewrite decide_True by reflexivity.
  unfold configure_0_5_0.
  rewrite decide_False
    by (unfold layout_five, mid_channel; cbn [channels];
        rewrite !Exists_cons, Exists_nil; simpl; intuition discriminate).
  rewrite decide_False by discriminate.
  rewrite configure_full_five, bind_Ret. reflexivity.
Qed.

(** The lower pentagon and the 0+5+0 panner straight below: the five lower
    copies share the gain, and each loudspeaker gets the gain of its
    copy. *)
Lemma ngon_five_nadir :
  VirtualNgon_handle
    (ngon_five [5; 6; 7; 8; 9]%nat (lower_of M0) (lower_of M1) (lower_of M2)
               (lower_of M3) (lower_of M4) nadir) nadir
  = Ret (Some fifth5).
Proof.
  destruct fifth_facts as [Hpos Hsq]. set (s := 1 / sqrt (INR 5)) in *.
  assert (Hnorm : norm fifth5 = 1).
  { change fifth5 with [s; s; s; s; s]. unfold norm, sum_sq; simpl.
    replace (_ + _) with (1 * 1) by lra. apply sqrt_square. lra. }
  assert (Hunit : vscale 1 nadir = nadir) by (apply vec3_eq; simpl; lra).
  pose proof (VirtualNgon_loop_centre 3 0 (lower_of M3) (lower_of M0) nadir
                [ mk_triplet 0 2 5 (lower_of M0) (lower_of M2) nadir;
                  mk_triplet 2 1 5 (lower_of M2) (lower_of M1) nadir;
                  mk_triplet 1 4 5 (lower_of M1) (lower_of M4) nadir;
                  mk_triplet 4 3 5 (lower_of M4) (lower_of M3) nadir ]
                fifth5 1) as Hloop.
  rewrite Hunit, Hnorm in Hloop.
  unfold VirtualNgon_handle, ngon_five. cbn [vn_regions vn_centre_downmix].
  etransitivity; [apply Hloop; [det_five | simpl; lia | simpl; lia | lra | lra] |].
  change fifth5 with [s; s; s; s; s]. simpl. entrywise; lra.
Qed.

Lemma pspd_050_nadir :
  PointSourcePannerDownmix_handle pspd_050 nadir
  = Ret (Some (replicate 5 (1 / sqrt (INR 5)))).
Proof.
  destruct fifth_facts as [Hpos Hsq]. set (s := 1 / sqrt (INR 5)) in *.
  assert (Hnorm : norm [s; s; s; s; s] = 1).
  { unfold norm, sum_sq; simpl.
    replace (_ + _) with (1 * 1) by lra. apply sqrt_square. lra. }
  rewrite (PointSourcePannerDownmix_handle_eval pspd_050 nadir
             [0; 0; 0; 0; 0; s; s; s; s; s; 0; 0; 0; 0; 0] [s; s; s; s; s] 1).
  - simpl. entrywise; lra.
  - unfold PointSourcePanner_handle, pspd_050.
    cbn [pspd_psp psp_regions psp_num_channels].
    apply (PointSourcePanner_loop_accept (RNgon _) _ 15 nadir [s; s; s; s; s]).
    + exact ngon_five_nadir.
    + reflexivity.
  - rewrite matvec_ok by (unfold pspd_050, downmix_0_5_0; simpl; repeat constructor).
    unfold pspd_050, downmix_0_5_0, dot; simpl. entrywise; lra.
  - exact Hnorm.
  - lra.
Qed.

(** ** The regions that [_configure_full] builds *)

Lemma take_items_lookup {A} (a : list A) (idx : list nat) (xs : list A) :
  take_items a idx = Ret xs → Forall2 (λ i x, a !! i = Some x) idx xs.
Proof.
  unfold take_items. intros Hx. apply mapM_Ret in Hx.
  eapply Forall2_impl; [exact Hx |]. simpl. intros i x. apply getitem_Ret.
Qed.

(** What the loop over the facets makes of one facet. *)
Lemma facet_region_Ret (roots : list R → list complex) (nvo : list vec3 → list nat)
    (set_iter : gset nat → list nat) (positions_real : list vec3)
    (virtual_verts : list nat) (facet : gset nat) (o : option Region) :
  facet_region roots nvo set_iter positions_real virtual_verts facet = Ret o →
  match o with
  | None => facet ∩ list_to_set virtual_verts ≠ ∅
  | Some r =>
      facet ∩ list_to_set virtual_verts = ∅
      ∧ output_channels r = set_iter facet
      ∧ ∃ positions,
          Forall2 (λ c pos, positions_real !! c = Some pos) (set_iter facet) positions
          ∧ match r with
            | RTriplet t => length (set_iter facet) = 3%nat
                            ∧ Triplet_init (set_iter facet) positions = Ret t
            | RQuad q => length (set_iter facet) = 4%nat
                         ∧ QuadRegion_init roots nvo (set_iter facet) positions = Ret q
            | RNgon _ => False
            end
  end.
Proof.
  unfold facet_region. destruct (decide _) as [Hdisj|Hmeet]; [| intros [= <-]; exact Hmeet].
  destruct (decide (length (set_iter facet) = 3%nat)) as [H3|H3].
  - intros Hr. apply bind_inv_Ret in Hr as (positions & Hpos & Hr).
    apply bind_inv_Ret in Hr as (t & Ht & [= <-]).
    split; [exact Hdisj |]. split.
    + apply Triplet_init_Ret in Ht as (a & b & c & _ & _ & _ & ->). reflexivity.
    + exists positions. split; [apply take_items_lookup, Hpos | auto].
  - destruct (decide (length (set_iter facet) = 4%nat)) as [H4|H4]; [| discriminate].
    intros Hr. apply bind_inv_Ret in Hr as (positions & Hpos & Hr).
    apply bind_inv_Ret in Hr as (q & Hq & [= <-]).
    split; [exact Hdisj |]. split.
    + apply QuadRegion_init_Ret in Hq
        as (o0 & o1 & o2 & o3 & a & b & c & d & _ & _ & _ & _ & _ & _ & _ & _ & Hoc & _).
      exact Hoc.
    + exists positions. split; [apply take_items_lookup, Hpos | auto].
Qed.

(** The [continue] of the loop: the regions kept are those of the facets
    without a virtual vertex, in the order of the facets. *)
Lemma facet_regions_kept (f : gset nat → outcome (option Region))
    (keep : gset nat → Prop) `{∀ facet, Decision (keep facet)}
    (P : gset nat → Region → Prop) (facets : list (gset nat))
    (others : list (option Region)) :
  (∀ facet o, f facet = Ret o →
     match o with None => ¬ keep facet | Some r => keep facet ∧ P facet r end) →
  mapM f facets = Ret others →
  Forall2 P (filter keep facets) (omap (λ region, region) others).
Proof.
  intros Hf Hm. apply mapM_Ret in Hm.
  induction Hm as [|facet o facets others Ho _ IH]; [constructor |].
  specialize (Hf facet o Ho). rewrite filter_cons. destruct o as [r|]; simpl.
  - destruct Hf as [Hk HP]. rewrite decide_True by exact Hk. constructor; assumption.
  - rewrite decide_False by exact Hf. exact IH.
Qed.

(** X11.  The regions of a configured panner are, in this order: one
    VirtualNgon for each virtual apex, then one region for each facet of the
    hull that holds no virtual apex, in the order of the facets: a Triplet
    for a facet of three vertices and a QuadRegion for one of four, on the
    real positions of the vertices and with the vertices as output channels.
    So configuration succeeds only when every such facet has three or four
    vertices. *)
Theorem _configure_full_regions (roots : list R → list complex)
    (nvo : list vec3 → list nat) (ConvexHull : list vec3 → outcome Hull)
    (nominal_position norm_position : Channel → vec3)
    (set_iter : gset nat → list nat) (layout : Layout) (pspd : PointSourcePannerDownmix) :
  _configure_full roots nvo ConvexHull nominal_position norm_position set_iter layout
  = Ret pspd →
  let all_channels := channels layout ++ (extra_pos_vertical_nominal layout).1 in
  let positions_real := map norm_position all_channels ++ virtual_positions layout in
  let virtual_verts :=
    map (λ k, length all_channels + k)%nat (seq 0 (length (virtual_positions layout))) in
  ∃ facets ngons others,
    _convex_hull_facets ConvexHull
      (map nominal_position all_channels ++ virtual_positions layout) = Ret facets
    ∧ psp_regions (pspd_psp pspd) = ngons ++ others
    ∧ Forall2 (λ (vert : nat) r, ∃ ngon, r = RNgon ngon) virtual_verts ngons
    ∧ Forall2
        (λ facet r,
           output_channels r = set_iter facet
           ∧ ∃ positions,
               Forall2 (λ c pos, positions_real !! c = Some pos) (set_iter facet) positions
               ∧ match r with
                 | RTriplet t => length (set_iter facet) = 3%nat
                                 ∧ Triplet_init (set_iter facet) positions = Ret t
                 | RQuad q => length (set_iter facet) = 4%nat
                              ∧ QuadRegion_init roots nvo (set_iter facet) positions = Ret q
                 | RNgon _ => False
                 end)
        (filter (λ facet, facet ∩ list_to_set virtual_verts = ∅) facets) others.
Proof.
  intros Hc all_channels positions_real virtual_verts.
  apply _configure_full_Ret in Hc as (facets & ngons & others & Hf & Hn & Ho & Hp & _).
  fold all_channels positions_real virtual_verts in Hf, Hn, Ho.
  apply PointSourcePanner_init_Ret in Hp as [Hregions _].
  exists facets, ngons, (omap (λ region, region) others).
  split; [exact Hf |]. split; [exact Hregions |]. split.
  - apply mapM_Ret in Hn. eapply Forall2_impl; [exact Hn |]. simpl.
    intros vert r Hr.
    apply virtual_ngon_region_Ret in Hr as (? & ? & ? & ngon & _ & _ & _ & _ & _ & ->).
    exists ngon. reflexivity.
  - eapply (facet_regions_kept _ _ _ facets others); [| exact Ho].
    intros facet o Hr. apply facet_region_Ret in Hr.
    destruct o as [r|]; [| exact Hr]. destruct Hr as (Hd & Hoc & Hr). auto.
Qed.

Lemma _configure_full_regions_witness :
  _configure_full roots_closed_form order_five (λ _, Ret hull_five) five_position
                  five_position sorted_elements layout_five
  = Ret pspd_050
  ∧ ∃ ngons others : list Region,
      psp_regions (pspd_psp pspd_050) = ngons ++ others
      ∧ length ngons = 2%nat ∧ length others = 10%nat.
Proof.
  split; [exact configure_full_five |].
  destruct (_configure_full_regions _ _ _ _ _ _ _ _ configure_full_five)
    as (facets & ngons & others & _ & Hregions & Hngons & _).
  exists ngons, others. split; [exact Hregions |].
  apply Forall2_length in Hngons.
  rewrite length_map, length_seq, virtual_positions_five in Hngons.
  split; [symmetry; exact Hngons |].
  apply (f_equal length) in Hregions. rewrite length_app, <- Hngons in Hregions.
  simpl in Hregions. lia.
Defined.

(** ** The channels that the regions write to *)

(** X12.  With set iteration listing elements of the set only: no region of
    a configured panner writes to a virtual apex.  Every output channel of
    every region is an original or extra channel, so the inner panner has
    at most as many channels as the downmix has columns, one for each
    original and extra channel; and the panner has as many channels as the
    layout. *)
Theorem _configure_full_real_channels (roots : list R → list complex)
    (nvo : list vec3 → list nat) (ConvexHull : list vec3 → outcome Hull)
    (nominal_position norm_position : Channel → vec3)
    (set_iter : gset nat → list nat) (layout : Layout) (pspd : PointSourcePannerDownmix) :
  (∀ (s : gset nat) x, x ∈ set_iter s → x ∈ s) →
  _configure_full roots nvo ConvexHull nominal_position norm_position set_iter layout
  = Ret pspd →
  let n_real := (length (channels layout)
                 + length (extra_pos_vertical_nominal layout).1)%nat in
  Forall (λ r, Forall (λ c, (c < n_real)%nat) (output_channels r))
         (psp_regions (pspd_psp pspd))
  ∧ (psp_num_channels (pspd_psp pspd) <= n_real)%nat
  ∧ Forall (λ row, length row = n_real) (pspd_downmix pspd)
  ∧ pspd_num_channels pspd = length (channels layout).
Proof.
  intros Hiter Hc n_real.
  pose proof (_configure_full_Ret _ _ _ _ _ _ _ _ Hc) as Hparts. cbv zeta in Hparts.
  destruct Hparts as (facets & ngons & others & _ & Hn & Ho & Hp & Hd).
  set (all_channels := channels layout ++ (extra_pos_vertical_nominal layout).1) in *.
  set (positions_real := map norm_position all_channels ++ virtual_positions layout) in *.
  set (virtual_verts := map (λ k, length all_channels + k)%nat
                            (seq 0 (length (virtual_positions layout)))) in *.
  assert (Hall : length all_channels = n_real) by (unfold all_channels; apply length_app).
  assert (Hlen : length positions_real
                 = (n_real + length (virtual_positions layout))%nat).
  { unfold positions_real. rewrite length_app, length_map, Hall. reflexivity. }
  assert (Hreal : ∀ c, c ∉ virtual_verts → is_Some (positions_real !! c) → (c < n_real)%nat).
  { intros c Hnv Hsome. apply lookup_lt_is_Some in Hsome.
    destruct (decide (c < n_real)%nat) as [|Hge]; [assumption |].
    exfalso. apply Hnv. unfold virtual_verts. apply virtual_verts_elem. lia. }
  assert (Hregions : Forall (λ r, Forall (λ c, (c < n_real)%nat) (output_channels r))
                            (ngons ++ omap (λ region, region) others)).
  { apply Forall_app. split.
    - apply mapM_Ret in Hn. eapply Forall2_Forall_r; [exact Hn |].
      apply Forall_true. intros v r Hr.
      apply virtual_ngon_region_Ret in Hr
        as (adjacent & positions & centre & ngon & _ & Hdisj & Hpos & _ & Hi & ->).
      apply VirtualNgon_init_Ret in Hi as (_ & _ & Hoc & _).
      cbn [output_channels Region_RegionHandler VirtualNgon_RegionHandler]. rewrite Hoc.
      apply take_items_lookup in Hpos. apply Forall_forall. intros c Hcin.
      apply Hreal.
      + intros Hv.
        assert (Hboth : c ∈ (list_to_set (set_iter adjacent) ∩ list_to_set virtual_verts
                             : gset nat)).
        { apply elem_of_intersection. split; apply elem_of_list_to_set; assumption. }
        rewrite Hdisj in Hboth. apply elem_of_empty in Hboth as [].
      + apply list_elem_of_lookup in Hcin as (i & Hi).
        destruct (Forall2_lookup_l _ _ _ _ _ Hpos Hi) as (pos & _ & Hsome). eauto.
    - apply mapM_Ret in Ho. apply Forall_forall. intros r Hr.
      apply list_elem_of_omap in Hr as (o & Hin & ->).
      apply list_elem_of_lookup in Hin as (i & Hi).
      destruct (Forall2_lookup_r _ _ _ _ _ Ho Hi) as (facet & _ & Hf).
      apply facet_region_Ret in Hf as (Hdisj & Hoc & positions & Hpos & _).
      rewrite Hoc. apply Forall_forall. intros c Hcin.
      apply Hreal.
      + intros Hv.
        assert (Hboth : c ∈ facet ∩ list_to_set virtual_verts).
        { apply elem_of_intersection. split; [apply Hiter, Hcin |].
          apply elem_of_list_to_set. exact Hv. }
        rewrite Hdisj in Hboth. apply elem_of_empty in Hboth as [].
      + apply list_elem_of_lookup in Hcin as (j & Hj).
        destruct (Forall2_lookup_l _ _ _ _ _ Hpos Hj) as (pos & _ & Hsome). eauto.
  }
  pose proof (PointSourcePanner_init_Ret _ _ _ Hp) as [Hpr _].
  split; [rewrite Hpr; exact Hregions |]. split.
  - unfold PointSourcePanner_init in Hp.
    pose proof (_num_required_channels_spec (ngons ++ omap (λ region, region) others)) as Hreq.
    destruct (_num_required_channels _) as [required| |e]; [| discriminate | discriminate].
    rewrite bind_Ret in Hp. injection Hp as <-. cbn [psp_num_channels].
    destruct Hreq as (_ & _ & _ & r & c & Hr & Hcin & ->).
    rewrite Forall_forall in Hregions. specialize (Hregions r Hr).
    rewrite Forall_forall in Hregions. specialize (Hregions c Hcin). lia.
  - split.
    + rewrite Hd. eapply Forall_impl; [apply extra_pos_vertical_nominal_downmix |].
      simpl. intros row [Hrow _]. exact Hrow.
    + apply (_configure_full_ok _ _ _ _ _ _ _ _ Hc).
Qed.

Lemma _configure_full_real_channels_witness :
  _configure_full roots_closed_form order_five (λ _, Ret hull_five) five_position
                  five_position sorted_elements layout_five
  = Ret pspd_050
  ∧ (psp_num_channels (pspd_psp pspd_050)
     <= length (channels layout_five)
        + length (extra_pos_vertical_nominal layout_five).1)%nat.
Proof.
  split; [exact configure_full_five |].
  exact (proj1 (proj2 (_configure_full_real_channels _ _ _ _ _ _ _ _
                         sorted_elements_elem configure_full_five))).
Defined.

(** ** Gains are never negative *)

Lemma setitems_zip_Forall (P : R → Prop) (out : list R) (idx : list nat) (vals out' : list R) :
  setitems_zip out idx vals = Ret out' → Forall P out → Forall P vals → Forall P out'.
Proof.
  revert out vals. induction idx as [|i idx IH]; intros out vals Hs Hout Hvals.
  - injection Hs as <-. exact Hout.
  - destruct vals as [|x vals]; [injection Hs as <-; exact Hout |].
    cbn [setitems_zip] in Hs. apply bind_inv_Ret in Hs as (o & Ho & Hs).
    unfold setitem in Ho. destruct (decide _); [| discriminate]. injection Ho as <-.
    inversion Hvals as [|? ? Hx Hrest]; subst.
    eapply IH; [exact Hs | | exact Hrest].
    apply Forall_insert; assumption.
Qed.

Lemma setitems_Forall (P : R → Prop) (out : list R) (idx : list nat) (vals out' : list R) :
  setitems out idx vals = Ret out' → Forall P out → Forall P vals → Forall P out'.
Proof.
  unfold setitems. destruct (decide _).
  - apply setitems_zip_Forall.
  - destruct vals as [|x [|]]; try discriminate.
    intros Hs Hout Hx. eapply setitems_zip_Forall; [exact Hs | exact Hout |].
    inversion Hx; subst. apply Forall_replicate. assumption.
Qed.

Lemma zeros_nonneg (n : nat) : Forall (λ x, 0 <= x) (zeros n).
Proof. apply Forall_replicate. lra. Qed.

(** Normalising non-negative values gives values between 0 and 1. *)
Lemma div_norm_range (v g : list R) :
  div_norm v = Ret g → Forall (λ x, 0 <= x) v → Forall (λ x, 0 <= x <= 1) g.
Proof.
  intros Hg Hv. apply div_norm_Ret in Hg as (Hn & Hg & Hone).
  pose proof (norm_nonneg v) as Hn0.
  apply Forall_forall. intros y Hy. split.
  - rewrite Hg in Hy. apply list_elem_of_fmap in Hy as (x & -> & Hx).
    rewrite Forall_forall in Hv. specialize (Hv x Hx).
    apply Rmult_le_pos; [exact Hv |]. left. apply Rinv_0_lt_compat. lra.
  - pose proof (abs_le_norm g y Hy) as Hle. rewrite Hone in Hle.
    pose proof (Rle_abs y). lra.
Qed.

Lemma Forall_range_nonneg (g : list R) :
  Forall (λ x, 0 <= x <= 1) g → Forall (λ x, 0 <= x) g.
Proof. intros Hg. eapply Forall_impl; [exact Hg |]. intros x [Hx _]. exact Hx. Qed.

Lemma Triplet_handle_range (t : Triplet) (p : vec3) (g : list R) :
  Triplet_handle t p = Ret (Some g) → Forall (λ x, 0 <= x <= 1) g.
Proof.
  intros Hg. apply Triplet_handle_Some in Hg as (_ & _ & ->).
  apply Forall_forall. intros y Hy. apply list_elem_of_fmap in Hy as (x & -> & _).
  apply clip_range.
Qed.

Lemma zip_with_plus_nonneg (a b : list R) :
  Forall (λ x, 0 <= x) a → Forall (λ x, 0 <= x) b →
  Forall (λ x, 0 <= x) (zip_with Rplus a b).
Proof.
  intros Ha. revert b. induction Ha as [|x a Hx _ IH]; intros b Hb; [constructor |].
  destruct Hb as [|y b Hy Hb]; simpl; [constructor |].
  constructor; [lra | apply IH, Hb].
Qed.

Lemma fold_centre_nonneg (cd pv : list R) :
  Forall (λ x, 0 <= x) cd → Forall (λ x, 0 <= x) pv → Forall (λ x, 0 <= x) (fold_centre cd pv).
Proof.
  intros Hcd Hpv. unfold fold_centre.
  assert (Hlast : 0 <= default 0 (last pv)).
  { destruct (last pv) as [x|] eqn:El; simpl; [| lra].
    rewrite Forall_forall in Hpv. apply Hpv.
    rewrite last_lookup in El. eapply list_elem_of_lookup_2. exact El. }
  apply zip_with_plus_nonneg.
  - apply Forall_take. exact Hpv.
  - apply Forall_forall. intros y Hy.
    apply list_elem_of_fmap in Hy as (c & -> & Hc).
    rewrite Forall_forall in Hcd. specialize (Hcd c Hc).
    apply Rmult_le_pos; assumption.
Qed.

Lemma VirtualNgon_handle_range (v : VirtualNgon) (p : vec3) (g : list R) :
  Forall (λ x, 0 <= x) (vn_centre_downmix v) →
  VirtualNgon_handle v p = Ret (Some g) → Forall (λ x, 0 <= x <= 1) g.
Proof.
  intros Hcd. unfold VirtualNgon_handle.
  induction (vn_regions v) as [|t ts IH]; cbn [VirtualNgon_handle_loop]; [discriminate |].
  intros Hg. apply bind_inv_Ret in Hg as (o & Ho & Hg).
  destruct o as [out|]; [| exact (IH Hg)].
  apply bind_inv_Ret in Hg as (w & Hw & [= <-]).
  unfold handle_remap in Ho. apply bind_inv_Ret in Ho as (o & Ht & Ho).
  destruct o as [pv|]; [| discriminate].
  apply bind_inv_Ret in Ho as (out' & Hout & [= <-]).
  cbn [handle Triplet_RegionHandler] in Ht.
  apply Triplet_handle_range, Forall_range_nonneg in Ht.
  eapply div_norm_range; [exact Hw |].
  apply fold_centre_nonneg; [exact Hcd |].
  eapply setitems_Forall; [exact Hout | apply zeros_nonneg | exact Ht].
Qed.

Lemma pan_parameter_range (roots : list R → list complex) (a b c d p : vec3) (x : R) :
  pan_parameter_spec roots a b c d p = Some x → 0 <= x <= 1.
Proof.
  unfold pan_parameter_spec. destruct (list_find _ _) as [[i root]|]; [| discriminate].
  intros [= <-]. apply clip_range.
Qed.

Lemma QuadRegion_handle_range (roots : list R → list complex) (nvo : list vec3 → list nat)
    (oc : list nat) (positions : list vec3) (q : QuadRegion) (p : vec3) (g : list R) :
  QuadRegion_init roots nvo oc positions = Ret q →
  QuadRegion_handle q p = Ret (Some g) → Forall (λ x, 0 <= x <= 1) g.
Proof.
  intros Hinit Hg.
  apply QuadRegion_init_Ret in Hinit
    as (o0 & o1 & o2 & o3 & a & b & c & d & _ & _ & _ & _ & _ & _ & _ & _ & _ & _ & Hx & Hy).
  unfold QuadRegion_handle in Hg. rewrite Hx, Hy in Hg.
  destruct (pan_parameter_spec roots a b c d p) as [x|] eqn:Ex; [| discriminate].
  destruct (pan_parameter_spec roots b c d a p) as [y|] eqn:Ey; [| discriminate].
  apply pan_parameter_range in Ex, Ey.
  apply bind_inv_Ret in Hg as (pvs & Hpvs & Hg).
  destruct (bool_decide _); [discriminate |].
  apply bind_inv_Ret in Hg as (w & Hw & [= <-]).
  eapply div_norm_range; [exact Hw |].
  eapply setitems_Forall; [exact Hpvs | apply zeros_nonneg |].
  repeat (apply Forall_cons_2; [nra |]). apply Forall_nil_2.
Qed.

Section panner_range.
Context {A : Type} `{RegionHandler A}.

Lemma PointSourcePanner_loop_nonneg (regions : list A) (n : nat) (p : vec3) (out : list R) :
  (∀ r g, r ∈ regions → handle r p = Ret (Some g) → Forall (λ x, 0 <= x) g) →
  PointSourcePanner_handle_loop regions n p = Ret (Some out) → Forall (λ x, 0 <= x) out.
Proof.
  induction regions as [|r regions IH]; intros Hr; cbn [PointSourcePanner_handle_loop];
    [discriminate |].
  intros Hout. apply bind_inv_Ret in Hout as (o & Ho & Hout).
  destruct o as [pv|].
  - injection Hout as <-. unfold handle_remap in Ho.
    apply bind_inv_Ret in Ho as (o & Hg & Ho). destruct o as [g|]; [| discriminate].
    apply bind_inv_Ret in Ho as (out' & Hs & [= <-]).
    eapply setitems_Forall; [exact Hs | apply zeros_nonneg |].
    apply (Hr r g); [left | exact Hg].
  - apply IH; [| exact Hout]. intros r' g Hr'. apply Hr. right. exact Hr'.
Qed.

End panner_range.

Lemma dot_nonneg (a b : list R) :
  Forall (λ x, 0 <= x) a → Forall (λ x, 0 <= x) b → 0 <= dot a b.
Proof.
  intros Ha. revert b. unfold dot.
  induction Ha as [|x a Hx _ IH]; intros b Hb; simpl; [lra |].
  destruct Hb as [|y b Hy Hb]; simpl; [lra |].
  specialize (IH b Hb). pose proof (Rmult_le_pos _ _ Hx Hy). lra.
Qed.

Lemma inv_sqrt_nonneg (n : nat) : 0 <= 1 / sqrt (INR n).
Proof.
  destruct n as [|n].
  - simpl. rewrite sqrt_0. unfold Rdiv. rewrite Rinv_0. lra.
  - apply Rlt_le, Rdiv_lt_0_compat; [lra |]. apply sqrt_lt_R0, lt_0_INR. lia.
Qed.

(** The regions of a configured panner return gains between 0 and 1. *)
Lemma _configure_full_regions_range (roots : list R → list complex)
    (nvo : list vec3 → list nat) (ConvexHull : list vec3 → outcome Hull)
    (nominal_position norm_position : Channel → vec3)
    (set_iter : gset nat → list nat) (layout : Layout) (pspd : PointSourcePannerDownmix)
    (p : vec3) (r : Region) (g : list R) :
  _configure_full roots nvo ConvexHull nominal_position norm_position set_iter layout
  = Ret pspd →
  r ∈ psp_regions (pspd_psp pspd) →
  handle r p = Ret (Some g) →
  Forall (λ x, 0 <= x <= 1) g.
Proof.
  intros Hc Hr Hg.
  apply _configure_full_Ret in Hc as (facets & ngons & others & _ & Hn & Ho & Hp & _).
  apply PointSourcePanner_init_Ret in Hp as [Hregions _]. rewrite Hregions in Hr.
  apply elem_of_app in Hr as [Hr | Hr].
  - apply mapM_Ret in Hn. apply list_elem_of_lookup in Hr as (i & Hi).
    destruct (Forall2_lookup_r _ _ _ _ _ Hn Hi) as (vert & _ & Hv).
    apply virtual_ngon_region_Ret in Hv as (adjacent & ? & ? & ngon & _ & _ & _ & _ & Hinit & ->).
    apply VirtualNgon_init_Ret in Hinit as (_ & _ & _ & Hcd & _).
    eapply VirtualNgon_handle_range; [| exact Hg]. rewrite Hcd.
    apply Forall_replicate, inv_sqrt_nonneg.
  - apply mapM_Ret in Ho.
    apply list_elem_of_omap in Hr as (o & Hin & ->).
    apply list_elem_of_lookup in Hin as (i & Hi).
    destruct (Forall2_lookup_r _ _ _ _ _ Ho Hi) as (facet & _ & Hf).
    apply facet_region_Ret in Hf as (_ & _ & positions & _ & Hkind).
    destruct r as [t|v|q]; [| contradiction |].
    + eapply Triplet_handle_range. exact Hg.
    + destruct Hkind as [_ Hq]. eapply QuadRegion_handle_range; [exact Hq | exact Hg].
Qed.

(** What a configured full panner returns: one gain for each channel of the
    layout, each between 0 and 1. *)
Lemma _configure_full_gains (roots : list R → list complex)
    (nvo : list vec3 → list nat) (ConvexHull : list vec3 → outcome Hull)
    (nominal_position norm_position : Channel → vec3)
    (set_iter : gset nat → list nat) (layout : Layout) (pspd : PointSourcePannerDownmix)
    (p : vec3) (g : list R) :
  _configure_full roots nvo ConvexHull nominal_position norm_position set_iter layout
  = Ret pspd →
  PointSourcePannerDownmix_handle pspd p = Ret (Some g) →
  length g = length (channels layout) ∧ Forall (λ x, 0 <= x <= 1) g.
Proof.
  intros Hfull Hg.
  pose proof (_configure_full_Ret _ _ _ _ _ _ _ _ Hfull) as Hparts. cbv zeta in Hparts.
  destruct Hparts as (_ & _ & _ & _ & _ & _ & _ & Hd).
  unfold PointSourcePannerDownmix_handle in Hg.
  apply bind_inv_Ret in Hg as ([pv|] & Hpv & Hg); [| discriminate].
  apply bind_inv_Ret in Hg as (d & Hd' & Hg).
  apply bind_inv_Ret in Hg as (w & Hw & [= <-]).
  apply matvec_Ret in Hd'. split.
  - apply div_norm_length in Hw. rewrite Hw, Hd', length_map.
    apply (_configure_full_ok _ _ _ _ _ _ _ _ Hfull).
  - eapply div_norm_range; [exact Hw |]. rewrite Hd'.
    apply Forall_forall. intros y Hy. apply list_elem_of_fmap in Hy as (row & -> & Hrow).
    apply dot_nonneg.
    + rewrite Hd in Hrow.
      pose proof (extra_pos_vertical_nominal_downmix layout) as Hdm.
      rewrite Forall_forall in Hdm. destruct (Hdm row Hrow) as [_ Hentries].
      eapply Forall_impl; [exact Hentries |]. simpl. intros x [-> | ->]; lra.
    + unfold PointSourcePanner_handle in Hpv.
      apply (PointSourcePanner_loop_nonneg (A := Region) (psp_regions (pspd_psp pspd))
               (psp_num_channels (pspd_psp pspd)) p pv); [| exact Hpv].
      intros r g Hr Hrg. apply Forall_range_nonneg.
      eapply _configure_full_regions_range; eassumption.
Qed.

(** X13.  A panner configured for a layout not named 0+2+0 returns one
    gain for each channel of the layout, and every gain lies between 0
    and 1. *)
Theorem configure_gains_range (roots : list R → list complex)
    (nvo : list vec3 → list nat) (ConvexHull : list vec3 → outcome Hull)
    (nominal_position norm_position : Channel → vec3)
    (set_iter : gset nat → list nat) (bs2051_0_5_0 layout : Layout) (panner : Panner)
    (p : vec3) (g : list R) :
  configure roots nvo ConvexHull nominal_position norm_position set_iter bs2051_0_5_0
            layout = Ret panner →
  layout_name layout ≠ "0+2+0" →
  Panner_handle panner p = Ret (Some g) →
  length g = length (channels layout) ∧ Forall (λ x, 0 <= x <= 1) g.
Proof.
  unfold configure. intros Hc Hname Hg.
  destruct (decide (Exists _ _)); [discriminate |].
  rewrite decide_False in Hc by exact Hname.
  apply fmap_inv_Ret in Hc as (pspd & Hfull & ->).
  cbn [Panner_handle] in Hg.
  eapply _configure_full_gains; eassumption.
Qed.

Lemma configure_gains_range_witness :
  configure roots_closed_form listed_order (λ _, Ret hull_ring) ring_position ring_position
            sorted_elements layout_ring layout_ring = Ret (FullPanner pspd_ring)
  ∧ layout_name layout_ring ≠ "0+2+0"
  ∧ Panner_handle (FullPanner pspd_ring) nadir = Ret (Some [1 / 2; 1 / 2; 1 / 2; 1 / 2])
  ∧ length [1 / 2; 1 / 2; 1 / 2; 1 / 2] = length (channels layout_ring)
  ∧ Forall (λ x, 0 <= x <= 1) [1 / 2; 1 / 2; 1 / 2; 1 / 2].
Proof.
  assert (Hname : layout_name layout_ring ≠ "0+2+0") by discriminate.
  split; [exact configure_ring |]. split; [exact Hname |]. split; [exact pspd_ring_nadir |].
  exact (configure_gains_range _ _ _ _ _ _ _ _ _ nadir _ configure_ring Hname pspd_ring_nadir).
Defined.

(** ** The level of the 0+2+0 gains *)

Lemma exp_le (x y : R) : x <= y → exp x <= exp y.
Proof.
  intros [Hlt | ->]; [left; apply exp_increasing, Hlt | right; reflexivity].
Qed.

(** The level factor runs from 1 (no gain at the back) down to sqrt(0.5)
    (no gain at the front). *)
Lemma stereo_level_range (front back : R) :
  0 <= front → 0 <= back → front + back ≠ 0 →
  sqrt 0.5 <= stereo_level front back <= 1
  ∧ (back = 0 → stereo_level front back = 1)
  ∧ (front = 0 → stereo_level front back = sqrt 0.5).
Proof.
  intros Hf Hb Hfb. unfold stereo_level.
  assert (Hsum : 0 < front + back) by lra.
  assert (Hln : ln 0.5 < 0).
  { rewrite <- ln_1. apply ln_increasing; lra. }
  assert (Hhalf : Rpower 0.5 0.5 = sqrt 0.5).
  { replace 0.5 with (/ 2) at 2 by lra. apply Rpower_sqrt. lra. }
  set (e := 0.5 * back / (front + back)).
  assert (He : 0 <= e <= 0.5).
  { unfold e. split.
    - apply Rmult_le_pos; [lra |]. left. apply Rinv_0_lt_compat, Hsum.
    - apply (Rmult_le_reg_r (front + back)); [exact Hsum |].
      unfold Rdiv. rewrite Rmult_assoc, Rinv_l by lra. lra. }
  split; [split |]; [| | split].
  - rewrite <- Hhalf. unfold Rpower. apply exp_le. nra.
  - rewrite <- exp_0. unfold Rpower. apply exp_le. nra.
  - intros ->. unfold e. replace (0.5 * 0 / (front + 0)) with 0 by (field; lra).
    unfold Rpower. rewrite Rmult_0_l. apply exp_0.
  - intros ->. unfold e. replace (0.5 * back / (0 + back)) with 0.5 by (field; lra).
    exact Hhalf.
Qed.

Lemma Rmax_nonneg (x y : R) : 0 <= x → 0 <= y → 0 <= Rmax x y ∧ x <= Rmax x y ∧ y <= Rmax x y.
Proof.
  intros Hx Hy. pose proof (Rmax_l x y). pose proof (Rmax_r x y). repeat split; lra.
Qed.

(** What [StereoPanDownmix.handle] makes of five inner gains, none
    negative: two gains, none negative, whose norm is the level factor. *)
Lemma StereoPanDownmix_handle_gains (self : StereoPanDownmix) (p : vec3) (pv : list R) :
  PointSourcePannerDownmix_handle (stereo_psp self) p = Ret (Some pv) →
  length pv = 5%nat →
  Forall (λ x, 0 <= x) pv →
  ∃ g0 g1 front back,
    StereoPanDownmix_handle self p = Ret (Some [g0; g1])
    ∧ max_items pv [0; 1; 2]%nat = Ret front
    ∧ max_items pv [3; 4]%nat = Ret back
    ∧ 0 <= front ∧ 0 <= back ∧ front + back ≠ 0
    ∧ 0 <= g0 ∧ 0 <= g1
    ∧ norm [g0; g1] = stereo_level front back.
Proof.
  intros Hpv Hlen Hnn.
  pose proof (PointSourcePannerDownmix_handle_norm _ _ _ Hpv) as Hone.
  destruct pv as [|a [|b [|c [|d [|e [|]]]]]]; try discriminate. clear Hlen.
  inversion Hnn as [|? ? Ha Hnn1]; subst. inversion Hnn1 as [|? ? Hb Hnn2]; subst.
  inversion Hnn2 as [|? ? Hc Hnn3]; subst. inversion Hnn3 as [|? ? Hd Hnn4]; subst.
  inversion Hnn4 as [|? ? He _]; subst. clear Hnn Hnn1 Hnn2 Hnn3 Hnn4.
  assert (Hs3 : 0 < sqrt 3) by (apply sqrt_lt_R0; lra).
  assert (Hs5 : 0 < sqrt 0.5) by (apply sqrt_lt_R0; lra).
  set (d0 := dot [1; 0; sqrt 3 / 3; sqrt 0.5; 0] [a; b; c; d; e]).
  set (d1 := dot [0; 1; sqrt 3 / 3; 0; sqrt 0.5] [a; b; c; d; e]).
  assert (Hd0 : d0 = a + sqrt 3 / 3 * c + sqrt 0.5 * d) by (unfold d0, dot; simpl; ring).
  assert (Hd1 : d1 = b + sqrt 3 / 3 * c + sqrt 0.5 * e) by (unfold d1, dot; simpl; ring).
  assert (Hsome : ¬ (a = 0 ∧ b = 0 ∧ c = 0 ∧ d = 0 ∧ e = 0)).
  { intros (-> & -> & -> & -> & ->).
    rewrite norm_of_zeros in Hone by (repeat constructor). lra. }
  assert (Hc3 : 0 <= sqrt 3 / 3 * c) by (apply Rmult_le_pos; lra).
  assert (Hd5 : 0 <= sqrt 0.5 * d) by (apply Rmult_le_pos; lra).
  assert (He5 : 0 <= sqrt 0.5 * e) by (apply Rmult_le_pos; lra).
  assert (Hn : norm [d0; d1] ≠ 0).
  { intros Hz. apply norm_zero in Hz.
    inversion Hz as [|? ? Hz0 Hz']; subst. inversion Hz' as [|? ? Hz1 _]; subst.
    apply Hsome. rewrite Hd0 in Hz0. rewrite Hd1 in Hz1.
    assert (c = 0) by nra. assert (d = 0) by nra. assert (e = 0) by nra.
    repeat split; lra. }
  pose proof (norm_nonneg [d0; d1]) as Hn0.
  set (front := Rmax (Rmax a b) c). set (back := Rmax d e).
  destruct (Rmax_nonneg a b Ha Hb) as (Hab & Hab1 & Hab2).
  destruct (Rmax_nonneg (Rmax a b) c Hab Hc) as (Hfront & Hf1 & Hf2).
  destruct (Rmax_nonneg d e Hd He) as (Hback & Hb1 & Hb2).
  fold front in Hfront, Hf1, Hf2. fold back in Hback, Hb1, Hb2.
  assert (Hfb : front + back ≠ 0).
  { intros Hz. apply Hsome. repeat split; lra. }
  pose proof (stereo_level_pos front back) as Hlevel.
  exists (stereo_level front back * (d0 / norm [d0; d1])),
         (stereo_level front back * (d1 / norm [d0; d1])), front, back.
  assert (Hhandle : StereoPanDownmix_handle self p
                    = Ret (Some [stereo_level front back * (d0 / norm [d0; d1]);
                                 stereo_level front back * (d1 / norm [d0; d1])])).
  { unfold StereoPanDownmix_handle. cbv zeta. rewrite Hpv, bind_Ret.
    rewrite matvec_ok by (unfold stereo_downmix; repeat constructor).
    rewrite bind_Ret. unfold stereo_downmix. cbn [map]. fold d0 d1.
    rewrite div_norm_nonzero by exact Hn. rewrite bind_Ret.
    unfold max_items, take_items.
    cbn [mapM getitem lookup list_lookup mbind outcome_mbind outcome_bind mret outcome_mret].
    unfold list_max_R. cbn [foldl]. fold front back.
    rewrite decide_False by exact Hfb. reflexivity. }
  split; [exact Hhandle |].
  split; [reflexivity |]. split; [reflexivity |].
  assert (Hnorm : norm [stereo_level front back * (d0 / norm [d0; d1]);
                        stereo_level front back * (d1 / norm [d0; d1])]
                  = stereo_level front back).
  { destruct (StereoPanDownmix_handle_Some _ _ _ Hhandle)
      as (pv' & f' & b' & Hpv' & Hf' & Hb' & _ & _ & Hnorm).
    rewrite Hpv in Hpv'. injection Hpv' as <-.
    unfold max_items, take_items in Hf', Hb'.
    cbn [mapM getitem lookup list_lookup mbind outcome_mbind outcome_bind mret outcome_mret]
      in Hf', Hb'.
    unfold list_max_R in Hf', Hb'. cbn [foldl] in Hf', Hb'.
    injection Hf' as <-. injection Hb' as <-. exact Hnorm. }
  assert (Hq0 : 0 <= d0 / norm [d0; d1]).
  { apply Rmult_le_pos; [lra |]. left. apply Rinv_0_lt_compat. lra. }
  assert (Hq1 : 0 <= d1 / norm [d0; d1]).
  { apply Rmult_le_pos; [lra |]. left. apply Rinv_0_lt_compat. lra. }
  split; [exact Hfront |]. split; [exact Hback |]. split; [exact Hfb |].
  split; [apply Rmult_le_pos; lra |]. split; [apply Rmult_le_pos; lra |].
  exact Hnorm.
Qed.


(** X14.  When the inner 0+5+0 panner returns five gains, none negative,
    [StereoPanDownmix.handle] returns two gains, none negative, whose norm
    lies between sqrt(0.5) and 1: it is 1 (0 dB) when the inner panner
    gives nothing to the two back channels, and sqrt(0.5) (-3 dB) when it
    gives nothing to the three front channels. *)
Theorem StereoPanDownmix_handle_level (self : StereoPanDownmix) (p : vec3) (pv : list R) :
  PointSourcePannerDownmix_handle (stereo_psp self) p = Ret (Some pv) →
  length pv = 5%nat →
  Forall (λ x, 0 <= x) pv →
  ∃ g0 g1 front back,
    StereoPanDownmix_handle self p = Ret (Some [g0; g1])
    ∧ max_items pv [0; 1; 2]%nat = Ret front
    ∧ max_items pv [3; 4]%nat = Ret back
    ∧ 0 <= g0 ∧ 0 <= g1
    ∧ sqrt 0.5 <= norm [g0; g1] <= 1
    ∧ (back = 0 → norm [g0; g1] = 1)
    ∧ (front = 0 → norm [g0; g1] = sqrt 0.5).
Proof.
  intros Hpv Hlen Hnn.
  destruct (StereoPanDownmix_handle_gains self p pv Hpv Hlen Hnn)
    as (g0 & g1 & front & back & Hg & Hf & Hb & Hfront & Hback & Hfb & Hg0 & Hg1 & Hnorm).
  destruct (stereo_level_range front back Hfront Hback Hfb) as (Hrange & Hzero & Hhalf).
  exists g0, g1, front, back. rewrite Hnorm. auto 10.
Qed.

Lemma StereoPanDownmix_handle_level_witness :
  PointSourcePannerDownmix_handle (stereo_psp stereo_050) nadir
  = Ret (Some (replicate 5 (1 / sqrt (INR 5))))
  ∧ ∃ g0 g1,
      StereoPanDownmix_handle stereo_050 nadir = Ret (Some [g0; g1])
      ∧ sqrt 0.5 <= norm [g0; g1] <= 1.
Proof.
  split; [exact pspd_050_nadir |].
  destruct (StereoPanDownmix_handle_level stereo_050 nadir
              (replicate 5 (1 / sqrt (INR 5))) pspd_050_nadir eq_refl)
    as (g0 & g1 & front & back & Hg & _ & _ & _ & _ & Hrange & _).
  - apply Forall_replicate. left. apply fifth_facts.
  - exists g0, g1. split; [exact Hg | exact Hrange].
Defined.

(** ** A 0+2+0 layout without its two channels *)

Lemma list_index_missing (x : string) (l : list string) :
  x ∉ l → list_index x l = Raise ValueError.
Proof.
  intros Hx. unfold list_index.
  destruct (list_find (λ y, y = x) l) as [[i y]|] eqn:E; [| reflexivity].
  apply list_find_Some in E as (Hl & -> & _).
  exfalso. apply Hx. eapply list_elem_of_lookup_2. exact Hl.
Qed.

Lemma list_index_outcome (x : string) (l : list string) :
  (∃ i, list_index x l = Ret i) ∨ list_index x l = Raise ValueError.
Proof.
  unfold list_index. destruct (list_find _ l) as [[i y]|]; eauto.
Qed.

(** X15.  A layout named 0+2+0 without LFE channel that lacks a channel
    named M+030 or one named M-030 is refused with the [ValueError] of
    [list.index], before the 0+5+0 panner is built. *)
Theorem configure_stereo_missing_channel (roots : list R → list complex)
    (nvo : list vec3 → list nat) (ConvexHull : list vec3 → outcome Hull)
    (nominal_position norm_position : Channel → vec3)
    (set_iter : gset nat → list nat) (bs2051_0_5_0 layout : Layout) :
  layout_name layout = "0+2+0" →
  Forall (λ channel, is_lfe channel = false) (channels layout) →
  "M+030" ∉ channel_names layout ∨ "M-030" ∉ channel_names layout →
  configure roots nvo ConvexHull nominal_position norm_position set_iter bs2051_0_5_0
            layout = Raise ValueError.
Proof.
  intros Hname Hlfe Hmissing. unfold configure.
  rewrite decide_False.
  2:{ intros Hex. apply Exists_exists in Hex as (c & Hc & Htrue).
      rewrite Forall_forall in Hlfe. rewrite (Hlfe c Hc) in Htrue. discriminate. }
  rewrite decide_True by exact Hname. unfold _configure_stereo.
  destruct (list_index_outcome "M+030" (channel_names layout)) as [[l Hl] | Hl].
  - rewrite Hl, bind_Ret.
    destruct Hmissing as [Hm | Hm].
    + apply list_index_missing in Hm. congruence.
    + rewrite (list_index_missing _ _ Hm). reflexivity.
  - rewrite Hl. reflexivity.
Qed.

Lemma configure_stereo_missing_channel_witness :
  configure roots_closed_form order_five (λ _, Ret hull_five) five_position five_position
            sorted_elements layout_five
            {| layout_name := "0+2+0"; channels := [mid_channel "M+030" 30] |}
  = Raise ValueError.
Proof.
  apply configure_stereo_missing_channel.
  - reflexivity.
  - repeat constructor.
  - right. unfold channel_names; simpl. intros Hin.
    apply list_elem_of_singleton in Hin. discriminate.
Defined.

(** ** Where extra channels are put *)

Lemma selected_mids_elem (az_limit : R) (pos : list pos_rec) (i : nat) (q : pos_rec) :
  (i, q) ∈ selected_mids az_limit pos
  ↔ pos !! i = Some q ∧ mid_mask q ∧ Rabs (nominal_az q) >= az_limit - 1e-5.
Proof.
  unfold selected_mids. rewrite list_elem_of_filter, where_zip_elem. simpl. tauto.
Qed.

(** X16.  Every extra channel is a copy of a channel of the middle layer
    (nominal elevation in [-10, 10]): it is named "extra", is no LFE, has
    distance 1 and the azimuths of that channel, and its nominal elevation
    is -30 or 30.  It is at least 40 degrees, less 1e-5, further out in
    absolute nominal azimuth than every channel of the layout on its own
    layer ([-70, -10] for -30 and [10, 70] for 30). *)
Theorem extra_pos_vertical_nominal_extras (layout : Layout) (extra : Channel) :
  extra ∈ (extra_pos_vertical_nominal layout).1 →
  name extra = "extra"
  ∧ is_lfe extra = false
  ∧ distance (polar_position extra) = 1
  ∧ distance (polar_nominal_position extra) = 1
  ∧ (∃ mid, mid ∈ channels layout
            ∧ -10 <= elevation (polar_nominal_position mid) <= 10
            ∧ azimuth (polar_position extra) = azimuth (polar_position mid)
            ∧ azimuth (polar_nominal_position extra)
              = azimuth (polar_nominal_position mid))
  ∧ ∃ layer_nominal_el layer_lb layer_ub,
      (layer_nominal_el, layer_lb, layer_ub) ∈ layers
      ∧ elevation (polar_nominal_position extra) = layer_nominal_el
      ∧ ∀ other, other ∈ channels layout →
          layer_lb <= elevation (polar_nominal_position other) <= layer_ub →
          Rabs (azimuth (polar_nominal_position other)) + 40 - 1e-5
          <= Rabs (azimuth (polar_nominal_position extra)).
Proof.
  pose proof (extra_pos_vertical_nominal_eq layout) as Heq. cbv zeta in Heq.
  rewrite Heq. cbn [fst]. clear Heq.
  set (pos := map channel_pos (channels layout)).
  assert (Hcopy : ∀ nominal lb ub ip,
            ip ∈ selected_mids (layer_limits nominal lb ub pos).1 pos →
            (nominal, lb, ub) ∈ layers →
            let extra := extra_channel ip.2 (layer_limits nominal lb ub pos).2 nominal in
            name extra = "extra"
            ∧ is_lfe extra = false
            ∧ distance (polar_position extra) = 1
            ∧ distance (polar_nominal_position extra) = 1
            ∧ (∃ mid, mid ∈ channels layout
                      ∧ -10 <= elevation (polar_nominal_position mid) <= 10
                      ∧ azimuth (polar_position extra) = azimuth (polar_position mid)
                      ∧ azimuth (polar_nominal_position extra)
                        = azimuth (polar_nominal_position mid))
            ∧ ∃ layer_nominal_el layer_lb layer_ub,
                (layer_nominal_el, layer_lb, layer_ub) ∈ layers
                ∧ elevation (polar_nominal_position extra) = layer_nominal_el
                ∧ ∀ other, other ∈ channels layout →
                    layer_lb <= elevation (polar_nominal_position other) <= layer_ub →
                    Rabs (azimuth (polar_nominal_position other)) + 40 - 1e-5
                    <= Rabs (azimuth (polar_nominal_position extra))).
  { intros nominal lb ub [i q] Hsel Hlayer. cbn [snd].
    apply selected_mids_elem in Hsel as (Hq & Hmid & Haz).
    unfold pos in Hq. change (map ?f ?l) with (f <$> l) in Hq.
    rewrite list_lookup_fmap in Hq.
    destruct (channels layout !! i) as [mid|] eqn:Emid; [| discriminate].
    injection Hq as <-.
    do 4 (split; [reflexivity |]). split.
    - exists mid. split; [eapply list_elem_of_lookup_2; exact Emid |].
      split; [exact Hmid |]. split; reflexivity.
    - exists nominal, lb, ub. split; [exact Hlayer |]. split; [reflexivity |].
      intros other Hother Hel. cbn [extra_channel polar_nominal_position azimuth].
      cbn [channel_pos nominal_az] in Haz |- *.
      destruct (layer_limits_spec nominal lb ub pos)
        as [(Hempty & _) | (_ & _ & Hbound & _)].
      + exfalso.
        assert (Hin : channel_pos other ∈ filter (el_between lb ub) pos).
        { apply list_elem_of_filter. split; [exact Hel |].
          unfold pos. apply list_elem_of_fmap. exists other. auto. }
        rewrite Hempty in Hin. apply elem_of_nil in Hin as [].
      + specialize (Hbound (channel_pos other)).
        cbn [channel_pos nominal_az] in Hbound.
        assert (Hin : channel_pos other ∈ filter (el_between lb ub) pos).
        { apply list_elem_of_filter. split; [exact Hel |].
          unfold pos. apply list_elem_of_fmap. exists other. auto. }
        specialize (Hbound Hin). lra. }
  intros Hin. apply elem_of_app in Hin as [Hin | Hin];
    apply list_elem_of_fmap in Hin as (ip & -> & Hip).
  - apply (Hcopy (-30) (-70) (-10) ip Hip). left.
  - apply (Hcopy 30 10 70 ip Hip). right. left.
Qed.

Lemma extra_pos_vertical_nominal_extras_witness :
  extra_channel (channel_pos (mid_channel "M+110" 110)) 30 30
    ∈ (extra_pos_vertical_nominal layout_five).1
  ∧ name (extra_channel (channel_pos (mid_channel "M+110" 110)) 30 30) = "extra".
Proof.
  assert (Hin : extra_channel (channel_pos (mid_channel "M+110" 110)) 30 30
                ∈ (extra_pos_vertical_nominal layout_five).1).
  { rewrite extra_pos_five. cbn [fst]. unfold extras_five. apply elem_of_app. right.
    apply list_elem_of_fmap. exists (mid_channel "M+110" 110). split; [reflexivity |].
    unfold layout_five; cbn [channels]. do 3 right. left. }
  split; [exact Hin |].
  exact (proj1 (extra_pos_vertical_nominal_extras layout_five _ Hin)).
Defined.

(** ** The panner of a 0+2+0 layout *)

Lemma list_index_first (x : string) (l : list string) (i : nat) :
  list_index x l = Ret i →
  l !! i = Some x ∧ ∀ j, (j < i)%nat → l !! j ≠ Some x.
Proof.
  unfold list_index. destruct (list_find _ l) as [[k y]|] eqn:E; [| discriminate].
  intros [= <-]. apply list_find_Some in E as (Hl & -> & Hfirst).
  split; [exact Hl |]. intros j Hj Hlj. exact (Hfirst j x Hlj Hj eq_refl).
Qed.

(** X17.  [configure] returns a panner around a StereoPanDownmix for
    layouts named 0+2+0 only.  Its left and right channels are the first
    positions of the names M+030 and M-030 among the channels of the layout;
    the panner has just enough channels to hold both, which may be fewer
    than the layout has; and the inner panner is the full configuration of
    the 0+5+0 table, whose channel names are M+030, M-030, M+000, M+110 and
    M-110. *)
Theorem configure_stereo_channels (roots : list R → list complex)
    (nvo : list vec3 → list nat) (ConvexHull : list vec3 → outcome Hull)
    (nominal_position norm_position : Channel → vec3)
    (set_iter : gset nat → list nat) (bs2051_0_5_0 layout : Layout)
    (psp : PointSourcePanner StereoPanDownmix) :
  configure roots nvo ConvexHull nominal_position norm_position set_iter bs2051_0_5_0
            layout = Ret (StereoPanner psp) →
  layout_name layout = "0+2+0"
  ∧ ∃ stereo,
      psp_regions psp = [stereo]
      ∧ channel_names layout !! left_channel stereo = Some "M+030"
      ∧ (∀ j, (j < left_channel stereo)%nat → channel_names layout !! j ≠ Some "M+030")
      ∧ channel_names layout !! right_channel stereo = Some "M-030"
      ∧ (∀ j, (j < right_channel stereo)%nat → channel_names layout !! j ≠ Some "M-030")
      ∧ psp_num_channels psp
        = (Nat.max (left_channel stereo) (right_channel stereo) + 1)%nat
      ∧ (psp_num_channels psp <= length (channels layout))%nat
      ∧ channel_names bs2051_0_5_0 = ["M+030"; "M-030"; "M+000"; "M+110"; "M-110"]
      ∧ _configure_full roots nvo ConvexHull nominal_position norm_position set_iter
                        bs2051_0_5_0 = Ret (stereo_psp stereo).
Proof.
  unfold configure. intros Hc.
  destruct (decide (Exists _ _)); [discriminate |].
  destruct (decide (layout_name layout = "0+2+0")) as [Hname|];
    [| apply fmap_inv_Ret in Hc as (? & _ & [=])].
  split; [exact Hname |].
  apply fmap_inv_Ret in Hc as (psp' & Hc & [= <-]).
  unfold _configure_stereo in Hc.
  apply bind_inv_Ret in Hc as (l & Hl & Hc).
  apply bind_inv_Ret in Hc as (r & Hr & Hc).
  apply bind_inv_Ret in Hc as (stereo & Hs & Hc).
  apply list_index_first in Hl as [Hl Hlfirst], Hr as [Hr Hrfirst].
  unfold StereoPanDownmix_init in Hs.
  destruct (decide _) as [Hnames|]; [| discriminate].
  apply bind_inv_Ret in Hs as (inner & Hinner & [= <-]).
  unfold configure_0_5_0 in Hinner.
  destruct (decide (Exists _ _)); [discriminate |].
  destruct (decide (layout_name _ = _)); [discriminate |].
  cbn in Hc. injection Hc as <-.
  eexists. split; [reflexivity |]. cbn [left_channel right_channel stereo_psp psp_num_channels].
  do 4 (split; [assumption |]). split; [reflexivity |].
  split; [| split; assumption].
  apply lookup_lt_Some in Hl, Hr. unfold channel_names in Hl, Hr.
  rewrite length_map in Hl, Hr. lia.
Qed.

Lemma configure_stereo_channels_witness :
  configure roots_closed_form order_five (λ _, Ret hull_five) five_position five_position
            sorted_elements layout_five layout_stereo
  = Ret (StereoPanner panner_stereo)
  ∧ layout_name layout_stereo = "0+2+0".
Proof.
  split; [exact configure_stereo |].
  exact (proj1 (configure_stereo_channels _ _ _ _ _ _ _ _ _ configure_stereo)).
Defined.

(** ** The gains of a 0+2+0 panner *)

(** X18.  Whenever the inner 0+5+0 panner of a panner configured for 0+2+0
    places the source, so does the panner: it returns one gain for each of
    its channels, all between 0 and 1, and the norm of the gains lies
    between sqrt(0.5) and 1. *)
Theorem configure_stereo_gains (roots : list R → list complex)
    (nvo : list vec3 → list nat) (ConvexHull : list vec3 → outcome Hull)
    (nominal_position norm_position : Channel → vec3)
    (set_iter : gset nat → list nat) (bs2051_0_5_0 layout : Layout)
    (psp : PointSourcePanner StereoPanDownmix) (stereo : StereoPanDownmix)
    (p : vec3) (pv : list R) :
  configure roots nvo ConvexHull nominal_position norm_position set_iter bs2051_0_5_0
            layout = Ret (StereoPanner psp) →
  stereo ∈ psp_regions psp →
  PointSourcePannerDownmix_handle (stereo_psp stereo) p = Ret (Some pv) →
  ∃ g, PointSourcePanner_handle psp p = Ret (Some g)
       ∧ length g = psp_num_channels psp
       ∧ Forall (λ x, 0 <= x <= 1) g
       ∧ sqrt 0.5 <= norm g <= 1.
Proof.
  unfold configure. intros Hc Hin Hpv.
  destruct (decide (Exists _ _)); [discriminate |].
  destruct (decide (layout_name layout = "0+2+0"));
    [| apply fmap_inv_Ret in Hc as (? & _ & [=])].
  apply fmap_inv_Ret in Hc as (psp' & Hc & [= <-]).
  apply _configure_stereo_Ret in Hc as (stereo' & Hinit & Hne & Hfive & Hfull).
  pose proof (PointSourcePanner_init_Ret _ _ _ Hinit) as [Hregions _].
  rewrite Hregions in Hin. apply list_elem_of_singleton in Hin as ->.
  destruct (_configure_full_gains _ _ _ _ _ _ _ _ p pv Hfull Hpv) as [Hlen Hrange].
  rewrite Hfive in Hlen. apply Forall_range_nonneg in Hrange.
  destruct (StereoPanDownmix_handle_gains stereo' p pv Hpv Hlen Hrange)
    as (g0 & g1 & front & back & Hg & _ & _ & Hfront & Hback & Hfb & Hg0 & Hg1 & Hnorm).
  destruct (stereo_level_range front back Hfront Hback Hfb) as (Hlevel & _ & _).
  destruct (stereo_panner_place stereo' psp p Hinit) as (Hl & Hr & Hplace).
  exists (<[right_channel stereo' := g1]>
            (<[left_channel stereo' := g0]> (zeros (psp_num_channels psp)))).
  assert (Hn : norm (<[right_channel stereo' := g1]>
                       (<[left_channel stereo' := g0]> (zeros (psp_num_channels psp))))
               = stereo_level front back).
  { rewrite norm_two_placed by assumption. exact Hnorm. }
  split; [| split; [| split]].
  - rewrite Hplace, Hg, bind_Ret. unfold setitems. rewrite decide_True by reflexivity.
    cbn [setitems_zip]. unfold setitem.
    rewrite decide_True by (rewrite zeros_length; exact Hl). rewrite bind_Ret.
    rewrite decide_True by (rewrite length_insert, zeros_length; exact Hr).
    rewrite !bind_Ret. reflexivity.
  - rewrite !length_insert. apply zeros_length.
  - apply Forall_forall. intros x Hx. split.
    + revert x Hx. apply Forall_forall.
      apply Forall_insert; [| exact Hg1]. apply Forall_insert; [| exact Hg0].
      apply zeros_nonneg.
    + pose proof (abs_le_norm _ x Hx) as Hle. rewrite Hn in Hle.
      pose proof (Rle_abs x). lra.
  - rewrite Hn. exact Hlevel.
Qed.

Lemma configure_stereo_gains_witness :
  configure roots_closed_form order_five (λ _, Ret hull_five) five_position five_position
            sorted_elements layout_five layout_stereo
  = Ret (StereoPanner panner_stereo)
  ∧ PointSourcePannerDownmix_handle (stereo_psp stereo_050) nadir
    = Ret (Some (replicate 5 (1 / sqrt (INR 5))))
  ∧ ∃ g, PointSourcePanner_handle panner_stereo nadir = Ret (Some g)
         ∧ length g = psp_num_channels panner_stereo
         ∧ Forall (λ x, 0 <= x <= 1) g
         ∧ sqrt 0.5 <= norm g <= 1.
Proof.
  split; [exact configure_stereo |]. split; [exact pspd_050_nadir |].
  apply (configure_stereo_gains _ _ _ _ _ _ _ _ _ stereo_050 nadir
           (replicate 5 (1 / sqrt (INR 5))) configure_stereo).
  - left.
  - exact pspd_050_nadir.
Defined.

(** ** A configured panner straight below *)






(** ** The regions keep the RegionHandler contract *)

(** X20.  Every region of a configured panner keeps the contract of
    [RegionHandler.handle]: an array it returns has the size of its
    [output_channels]; and the gains in it lie between 0 and 1. *)
Theorem _configure_full_region_contract (roots : list R → list complex)
    (nvo : list vec3 → list nat) (ConvexHull : list vec3 → outcome Hull)
    (nominal_position norm_position : Channel → vec3)
    (set_iter : gset nat → list nat) (layout : Layout) (pspd : PointSourcePannerDownmix)
    (r : Region) (p : vec3) (g : list R) :
  _configure_full roots nvo ConvexHull nominal_position norm_position set_iter layout
  = Ret pspd →
  r ∈ psp_regions (pspd_psp pspd) →
  handle r p = Ret (Some g) →
  length g = length (output_channels r) ∧ Forall (λ x, 0 <= x <= 1) g.
Proof.
  intros Hc Hr Hg. split.
  - destruct (_configure_full_ok _ _ _ _ _ _ _ _ Hc) as (Hok & _ & _).
    rewrite Forall_forall in Hok.
    exact (proj2 (Region_handle_ok r p (Hok r Hr)) g Hg).
  - eapply _configure_full_regions_range; eassumption.
Qed.

Lemma _configure_full_region_contract_witness :
  _configure_full roots_closed_form order_five (λ _, Ret hull_five) five_position
                  five_position sorted_elements layout_five
  = Ret pspd_050
  ∧ handle (RNgon (ngon_five [5; 6; 7; 8; 9]%nat (lower_of M0) (lower_of M1) (lower_of M2)
                             (lower_of M3) (lower_of M4) nadir)) nadir
    = Ret (Some fifth5)
  ∧ length fifth5 = 5%nat
  ∧ Forall (λ x, 0 <= x <= 1) fifth5.
Proof.
  split; [exact configure_full_five |]. split; [exact ngon_five_nadir |].
  refine (_configure_full_region_contract _ _ _ _ _ _ _ _
            (RNgon (ngon_five [5; 6; 7; 8; 9]%nat (lower_of M0) (lower_of M1) (lower_of M2)
                              (lower_of M3) (lower_of M4) nadir))
            nadir fifth5 configure_full_five _ ngon_five_nadir).
  left.
Defined.

(** ** Why a virtual ngon cannot be built *)





(** ** A quad at the zero position *)

Lemma dot3_zero_r (a : vec3) : dot3 a vzero = 0.
Proof. unfold dot3, vzero; simpl; ring. Qed.

(** X22.  A constructed QuadRegion returns None for the zero position,
    whatever roots [np.roots] finds: the product of the rebuilt position
    with the zero position is 0, which the test [<= 0] rejects. *)
Theorem QuadRegion_handle_zero (roots : list R → list complex)
    (nvo : list vec3 → list nat) (oc : list nat) (positions : list vec3)
    (q : QuadRegion) :
  QuadRegion_init roots nvo oc positions = Ret q →
  QuadRegion_handle q vzero = Ret None.
Proof.
  intros Hinit. apply QuadRegion_init_slots_ok in Hinit as (_ & Hlen & Hrange).
  unfold QuadRegion_handle.
  destruct (quad_pan_x q vzero) as [x|]; [| reflexivity].
  destruct (quad_pan_y q vzero) as [y|]; [| reflexivity].
  destruct (setitems_in_range (zeros 4) (quad_order q)
              [(1 - x) * (1 - y); x * (1 - y); x * y; (1 - x) * y])
    as (pvs & -> & _).
  { rewrite Hlen. reflexivity. }
  { rewrite zeros_length. exact Hrange. }
  rewrite bind_Ret, dot3_zero_r.
  rewrite bool_decide_eq_true_2 by lra. reflexivity.
Qed.

Lemma QuadRegion_handle_zero_witness :
  QuadRegion_init roots_closed_form order_five [0; 3; 5; 8]%nat
                  [M0; M3; lower_of M0; lower_of M3]
  = Ret (quad_five [0; 3; 5; 8]%nat M0 M3 (lower_of M0) (lower_of M3))
  ∧ QuadRegion_handle (quad_five [0; 3; 5; 8]%nat M0 M3 (lower_of M0) (lower_of M3)) vzero
    = Ret None.
Proof.
  assert (Hinit : QuadRegion_init roots_closed_form order_five [0; 3; 5; 8]%nat
                                  [M0; M3; lower_of M0; lower_of M3]
                  = Ret (quad_five [0; 3; 5; 8]%nat M0 M3 (lower_of M0) (lower_of M3)))
    by reflexivity.
  split; [exact Hinit |].
  exact (QuadRegion_handle_zero _ _ _ _ _ Hinit).
Defined.

(** ** A configured panner at the zero position *)

(** X23.  No panner that [configure] returns tests for the zero position:
    when the VirtualNgon of the lower apex, the first region of the panner
    (of the inner 0+5+0 panner for a 0+2+0 layout), has an output channel,
    [handle] divides the zero position by its zero norm in the first
    triangle and returns an array of non-finite values, neither None nor an
    exception. *)
Theorem configure_handle_zero (roots : list R → list complex)
    (nvo : list vec3 → list nat) (ConvexHull : list vec3 → outcome Hull)
    (nominal_position norm_position : Channel → vec3)
    (set_iter : gset nat → list nat) (bs2051_0_5_0 layout : Layout) (panner : Panner) :
  configure roots nvo ConvexHull nominal_position norm_position set_iter bs2051_0_5_0
            layout = Ret panner →
  (∀ r, panner_regions panner !! 0%nat = Some r → output_channels r ≠ []) →
  Panner_handle panner vzero = NonFinite.
Proof.
  unfold configure. intros Hc Hfirst.
  destruct (decide (Exists _ _)); [discriminate |].
  destruct (decide (layout_name layout = "0+2+0")).
  - apply fmap_inv_Ret in Hc as (psp & Hc & ->).
    apply _configure_stereo_Ret in Hc as (stereo & Hinit & _ & _ & Hfull).
    pose proof (PointSourcePanner_init_Ret _ _ _ Hinit) as [Hregions _].
    cbn [panner_regions] in Hfirst. rewrite Hregions in Hfirst.
    cbn [flat_map] in Hfirst. rewrite app_nil_r in Hfirst.
    pose proof (_configure_full_zero _ _ _ _ _ _ _ _ Hfull Hfirst) as Hinner.
    cbn [Panner_handle]. unfold PointSourcePanner_handle. rewrite Hregions.
    cbn [PointSourcePanner_handle_loop]. unfold handle_remap.
    cbn [handle StereoPanDownmix_RegionHandler]. unfold StereoPanDownmix_handle.
    rewrite Hinner. reflexivity.
  - apply fmap_inv_Ret in Hc as (pspd & Hfull & ->).
    cbn [Panner_handle]. cbn [panner_regions] in Hfirst.
    exact (_configure_full_zero _ _ _ _ _ _ _ _ Hfull Hfirst).
Qed.

Lemma configure_handle_zero_witness :
  configure roots_closed_form order_five (λ _, Ret hull_five) five_position five_position
            sorted_elements layout_five layout_stereo
  = Ret (StereoPanner panner_stereo)
  ∧ Panner_handle (StereoPanner panner_stereo) vzero = NonFinite.
Proof.
  split; [exact configure_stereo |].
  apply (configure_handle_zero _ _ _ _ _ _ _ _ _ configure_stereo).
  intros r [= <-]. discriminate.
Defined.

(** ** QuadRegion: the gains point at the position *)

Lemma cross_orthogonal (p n1 n2 : vec3) :
  dot3 n1 p = 0 → dot3 n2 p = 0 → cross p (cross n1 n2) = vzero.
Proof.
  destruct p as [p0 p1 p2], n1 as [a0 a1 a2], n2 as [b0 b1 b2].
  unfold dot3, cross, vzero. cbn [vx vy vz]. intros H1 H2.
  apply vec3_eq; cbn [vx vy vz].
  - transitivity (a0 * (b0 * p0 + b1 * p1 + b2 * p2) - b0 * (a0 * p0 + a1 * p1 + a2 * p2));
      [ring | rewrite H1, H2; ring].
  - transitivity (a1 * (b0 * p0 + b1 * p1 + b2 * p2) - b1 * (a0 * p0 + a1 * p1 + a2 * p2));
      [ring | rewrite H1, H2; ring].
  - transitivity (a2 * (b0 * p0 + b1 * p1 + b2 * p2) - b2 * (a0 * p0 + a1 * p1 + a2 * p2));
      [ring | rewrite H1, H2; ring].
Qed.

(** Two vectors parallel to the same non-zero vector are parallel. *)
Lemma cross_common (u v m : vec3) :
  cross u m = vzero → cross v m = vzero → m ≠ vzero → cross u v = vzero.
Proof.
  destruct u as [u0 u1 u2], v as [v0 v1 v2], m as [m0 m1 m2].
  unfold cross, vzero. cbn [vx vy vz]. intros [= Eu0 Eu1 Eu2] [= Ev0 Ev1 Ev2] Hm.
  assert (Hk : m0 ≠ 0 ∨ m1 ≠ 0 ∨ m2 ≠ 0).
  { destruct (Req_dec m0 0) as [-> |]; [| auto].
    destruct (Req_dec m1 0) as [-> |]; [| auto].
    destruct (Req_dec m2 0) as [-> |]; [| auto].
    contradiction Hm. reflexivity. }
  assert (Hsq : ∀ k t, k ≠ 0 → k * k * t = 0 → t = 0).
  { intros k t Hk0 Ht. apply Rmult_integral in Ht as [Ht |]; [| assumption].
    apply Rmult_integral in Ht as [|]; contradiction. }
  apply vec3_eq; cbn [vx vy vz];
    destruct Hk as [Hk | [Hk | Hk]]; apply (Hsq _ _ Hk).
  - transitivity ((u1 * m0) * (v2 * m0) - (u2 * m0) * (v1 * m0)); [ring |].
    replace (u1 * m0) with (u0 * m1) by lra. replace (v2 * m0) with (v0 * m2) by lra.
    replace (u2 * m0) with (u0 * m2) by lra. replace (v1 * m0) with (v0 * m1) by lra.
    ring.
  - transitivity ((u1 * m1) * (v2 * m1) - (u2 * m1) * (v1 * m1)); [ring |].
    replace (v2 * m1) with (v1 * m2) by lra. replace (u2 * m1) with (u1 * m2) by lra.
    ring.
  - transitivity ((u1 * m2) * (v2 * m2) - (u2 * m2) * (v1 * m2)); [ring |].
    replace (u1 * m2) with (u2 * m1) by lra. replace (v1 * m2) with (v2 * m1) by lra.
    ring.
  - transitivity ((u2 * m0) * (v0 * m0) - (u0 * m0) * (v2 * m0)); [ring |].
    replace (u2 * m0) with (u0 * m2) by lra. replace (v2 * m0) with (v0 * m2) by lra.
    ring.
  - transitivity ((u2 * m1) * (v0 * m1) - (u0 * m1) * (v2 * m1)); [ring |].
    replace (u2 * m1) with (u1 * m2) by lra. replace (v0 * m1) with (v1 * m0) by lra.
    replace (u0 * m1) with (u1 * m0) by lra. replace (v2 * m1) with (v1 * m2) by lra.
    ring.
  - transitivity ((u2 * m2) * (v0 * m2) - (u0 * m2) * (v2 * m2)); [ring |].
    replace (v0 * m2) with (v2 * m0) by lra. replace (u0 * m2) with (u2 * m0) by lra.
    ring.
  - transitivity ((u0 * m0) * (v1 * m0) - (u1 * m0) * (v0 * m0)); [ring |].
    replace (v1 * m0) with (v0 * m1) by lra. replace (u1 * m0) with (u0 * m1) by lra.
    ring.
  - transitivity ((u0 * m1) * (v1 * m1) - (u1 * m1) * (v0 * m1)); [ring |].
    replace (u0 * m1) with (u1 * m0) by lra. replace (v0 * m1) with (v1 * m0) by lra.
    ring.
  - transitivity ((u0 * m2) * (v1 * m2) - (u1 * m2) * (v0 * m2)); [ring |].
    replace (u0 * m2) with (u2 * m0) by lra. replace (v1 * m2) with (v2 * m1) by lra.
    replace (u1 * m2) with (u2 * m1) by lra. replace (v0 * m2) with (v2 * m0) by lra.
    ring.
Qed.

Ltac destruct_vec3 :=
  repeat match goal with
  | v : vec3 |- _ =>
      let x := fresh "x" in let y := fresh "y" in let z := fresh "z" in
      destruct v as [x y z]
  end.

Lemma lincomb_div (n : R) (w : list R) (positions : list vec3) :
  lincomb (map (λ x, x / n) w) positions = vscale (/ n) (lincomb w positions).
Proof.
  unfold lincomb. revert positions.
  induction w as [|x w IH]; intros [|v positions]; cbn [map zip_with foldr];
    try (apply vec3_eq; unfold vscale, vzero; cbn [vx vy vz]; ring).
  rewrite IH. apply vec3_eq; unfold vscale, vadd; cbn [vx vy vz];
    unfold Rdiv; ring.
Qed.

(** The weights placed at a vertex order that lists every vertex once
    combine the positions as the weights combine the ordered vertices. *)
Lemma lincomb_placed (order : list nat) (positions : list vec3)
    (a b c d : vec3) (w0 w1 w2 w3 : R) (pvs : list R) :
  length positions = 4%nat → NoDup order →
  take_items positions order = Ret [a; b; c; d] →
  setitems (zeros 4) order [w0; w1; w2; w3] = Ret pvs →
  lincomb pvs positions = lincomb [w0; w1; w2; w3] [a; b; c; d].
Proof.
  intros Hlen Hnd Htake Hset.
  destruct positions as [|P0 [|P1 [|P2 [|P3 [|]]]]]; try discriminate.
  pose proof (take_items_Ret _ _ _ Htake) as Hord.
  destruct order as [|o0 [|o1 [|o2 [|o3 [|]]]]];
    try (apply Forall2_length in Hord; discriminate).
  inversion Hord as [|? ? ? ? Ha Hord1]; subst.
  inversion Hord1 as [|? ? ? ? Hb Hord2]; subst.
  inversion Hord2 as [|? ? ? ? Hc Hord3]; subst.
  inversion Hord3 as [|? ? ? ? Hd _]; subst.
  clear Hord Hord1 Hord2 Hord3 Htake Hlen.
  rewrite !NoDup_cons, !not_elem_of_cons in Hnd.
  destruct Hnd as ((H01 & H02 & H03 & _) & (H12 & H13 & _) & (H23 & _) & _).
  destruct o0 as [|[|[|[|o0]]]]; try discriminate Ha;
  destruct o1 as [|[|[|[|o1]]]]; try discriminate Hb; try congruence;
  destruct o2 as [|[|[|[|o2]]]]; try discriminate Hc; try congruence;
  destruct o3 as [|[|[|[|o3]]]]; try discriminate Hd; try congruence;
  cbn in Ha, Hb, Hc, Hd;
  injection Ha as <-; injection Hb as <-; injection Hc as <-; injection Hd as <-;
  injection Hset as <-;
  destruct_vec3;
  apply vec3_eq; unfold lincomb, vadd, vscale, vzero;
    cbn [zip_with foldr vx vy vz]; ring.
Qed.

(** X24.  The gains of a QuadRegion point at the position.  Let [a, b, c,
    d] be the vertices in the vertex order, which lists each of them once,
    and let the pan parameters [x] and [y] that [handle] uses be roots of
    the two quadratics (the accepted roots were real and were not clipped).
    When the plane through the origin and the points [a + x (b - a)],
    [d + x (c - d)] differs from the plane through the origin and
    [b + y (c - b)], [a + y (d - a)], the gains [g] that [handle] returns
    satisfy [np.dot(g, positions) = s * position] for some [s > 0]: their
    combination of the loudspeaker positions is parallel to the position,
    on its side of the origin. *)
Theorem QuadRegion_handle_direction (roots : list R → list complex)
    (nvo : list vec3 → list nat) (oc : list nat) (positions : list vec3)
    (q : QuadRegion) (p a b c d : vec3) (x y : R) (g : list R) :
  QuadRegion_init roots nvo oc positions = Ret q →
  NoDup (quad_order q) →
  take_items positions (quad_order q) = Ret [a; b; c; d] →
  quad_pan_x q p = Some x → quad_pan_y q p = Some y →
  polyval (quad_coefficients a b c d p) x = 0 →
  polyval (quad_coefficients b c d a p) y = 0 →
  cross (cross (vadd a (vscale x (vsub b a))) (vadd d (vscale x (vsub c d))))
        (cross (vadd b (vscale y (vsub c b))) (vadd a (vscale y (vsub d a)))) ≠ vzero →
  QuadRegion_handle q p = Ret (Some g) →
  cross (lincomb g positions) p = vzero ∧ 0 < dot3 (lincomb g positions) p.
Proof.
  intros Hinit Hnd Htake Hx Hy Hrx Hry Hplanes Hg.
  apply QuadRegion_init_Ret in Hinit
    as (o0 & o1 & o2 & o3 & a' & b' & c' & d' & _ & _ & _ & _ & _ & _ & _ & Hlen
        & _ & Hqpos & _ & _).
  unfold QuadRegion_handle in Hg. rewrite Hx, Hy, Hqpos in Hg.
  apply bind_inv_Ret in Hg as (pvs & Hpvs & Hg).
  destruct (bool_decide _) eqn:Hdot; [discriminate |].
  apply bool_decide_eq_false_1 in Hdot.
  apply bind_inv_Ret in Hg as (w & Hw & [= <-]).
  apply div_norm_Ret in Hw as (Hn & -> & _).
  rewrite (lincomb_placed _ _ _ _ _ _ _ _ _ _ _ Hlen Hnd Htake Hpvs) in Hdot.
  rewrite lincomb_div, (lincomb_placed _ _ _ _ _ _ _ _ _ _ _ Hlen Hnd Htake Hpvs).
  set (Q := lincomb _ [a; b; c; d]) in *.
  set (n1 := cross (vadd a (vscale x (vsub b a))) (vadd d (vscale x (vsub c d)))) in *.
  set (n2 := cross (vadd b (vscale y (vsub c b))) (vadd a (vscale y (vsub d a)))) in *.
  assert (Hp1 : dot3 n1 p = 0).
  { rewrite <- Hrx. subst n1. clear.
    destruct_vec3.
    unfold polyval, quad_coefficients, dot3, cross, vadd, vsub, vscale.
    cbn [foldl vx vy vz]. ring. }
  assert (Hp2 : dot3 n2 p = 0).
  { rewrite <- Hry. subst n2. clear.
    destruct_vec3.
    unfold polyval, quad_coefficients, dot3, cross, vadd, vsub, vscale.
    cbn [foldl vx vy vz]. ring. }
  assert (Hq1 : dot3 n1 Q = 0).
  { subst n1 Q. clear.
    destruct_vec3.
    unfold lincomb, dot3, cross, vadd, vsub, vscale, vzero.
    cbn [zip_with foldr vx vy vz]. ring. }
  assert (Hq2 : dot3 n2 Q = 0).
  { subst n2 Q. clear.
    destruct_vec3.
    unfold lincomb, dot3, cross, vadd, vsub, vscale, vzero.
    cbn [zip_with foldr vx vy vz]. ring. }
  pose proof (cross_common Q p (cross n1 n2)
                (cross_orthogonal _ _ _ Hq1 Hq2) (cross_orthogonal _ _ _ Hp1 Hp2) Hplanes)
    as Hpar.
  pose proof (norm_nonneg pvs) as Hnn.
  assert (Hinv : 0 < / norm pvs) by (apply Rinv_0_lt_compat; lra).
  clearbody Q. clear - Hpar Hdot Hinv.
  destruct Q as [q0 q1 q2], p as [p0 p1 p2].
  unfold cross, vzero, dot3, vscale in *. cbn [vx vy vz] in *.
  injection Hpar as E0 E1 E2.
  split.
  - apply vec3_eq; cbn [vx vy vz]; nra.
  - nra.
Qed.

Lemma QuadRegion_handle_direction_witness :
  QuadRegion_init roots_closed_form (λ _, [0; 1; 2; 3]%nat) [4; 5; 6; 7]%nat
                  [U0; U1; U2; U3] = Ret quad_upper
  ∧ quad_pan_x quad_upper zenith = Some (1 / 2)
  ∧ quad_pan_y quad_upper zenith = Some (1 / 2)
  ∧ QuadRegion_handle quad_upper zenith = Ret (Some [1 / 2; 1 / 2; 1 / 2; 1 / 2])
  ∧ cross (lincomb [1 / 2; 1 / 2; 1 / 2; 1 / 2] [U0; U1; U2; U3]) zenith = vzero
  ∧ 0 < dot3 (lincomb [1 / 2; 1 / 2; 1 / 2; 1 / 2] [U0; U1; U2; U3]) zenith.
Proof.
  assert (Hroots : ∀ c1 c2 c3, c1 = 0 → c2 = 16 / 9 → c3 = - 8 / 9 →
            pan_axis_loop (roots_closed_form [c1; c2; c3]) = Some (1 / 2)).
  { intros c1 c2 c3 -> -> ->. unfold roots_closed_form.
    rewrite decide_True by reflexivity. rewrite decide_False by lra.
    cbn [pan_axis_loop re im]. unfold quad_epsillon.
    rewrite Rabs_R0.
    rewrite !bool_decide_eq_true_2 by lra. simpl. f_equal. clip_eval. }
  assert (Hx : quad_pan_x quad_upper zenith = Some (1 / 2)).
  { cbn [quad_pan_x quad_upper]. unfold pan_axis_poly. cbn [map].
    apply Hroots;
      unfold dot3, cross, vadd, vsub, U0, U1, U2, U3, zenith; simpl; lra. }
  assert (Hy : quad_pan_y quad_upper zenith = Some (1 / 2)).
  { cbn [quad_pan_y quad_upper]. unfold pan_axis_poly. cbn [map].
    apply Hroots;
      unfold dot3, cross, vadd, vsub, U0, U1, U2, U3, zenith; simpl; lra. }
  split; [exact quad_upper_init |].
  split; [exact Hx |]. split; [exact Hy |].
  split; [exact quad_upper_zenith |].
  refine (QuadRegion_handle_direction roots_closed_form (λ _, [0; 1; 2; 3]%nat)
            [4; 5; 6; 7]%nat [U0; U1; U2; U3] quad_upper zenith U0 U1 U2 U3
            (1 / 2) (1 / 2) [1 / 2; 1 / 2; 1 / 2; 1 / 2]
            quad_upper_init _ _ Hx Hy _ _ _ quad_upper_zenith).
  - cbn [quad_order quad_upper]. rewrite !NoDup_cons, !not_elem_of_cons.
    repeat split; try (intros [=]); try apply not_elem_of_nil. apply NoDup_nil_2.
  - reflexivity.
  - unfold polyval, quad_coefficients, dot3, cross, vadd, vsub, U0, U1, U2, U3, zenith.
    simpl. lra.
  - unfold polyval, quad_coefficients, dot3, cross, vadd, vsub, U0, U1, U2, U3, zenith.
    simpl. lra.
  - unfold cross, vadd, vsub, vscale, vzero, U0, U1, U2, U3. cbn [vx vy vz].
    intros [= H0 H1 H2]. lra.
Defined.
